(** * factuser: the document field inference engine of the PDF sorter

    A shallow embedding of the pure logic of [factuser-v2.py] (and, where
    the two versions differ, of [factuser-v1.py]): the date parser, the
    provider canonicaliser, the CSV record index, the suggestion
    drop-downs and the click / rubber-band text selection; then the form
    and the selections applied to it, the entities of a processed
    document and the AI cache file, the list of files with the page shown,
    and the completer lists.

    Conventions of the embedding.
    - A Python [str] is the list of its Unicode code points ([list N]);
      [py "..."] decodes a UTF-8 literal, so that the literals of the
      source can be written as they are.
    - Python [float] coordinates are exact rationals ([Q]).
    - A Python function that may raise returns an [outcome]; a handler
      whose body sits in [try: ... except Exception] answers nothing when
      the body raises.
    - A [dict] whose iteration order is observed is an association list in
      insertion order ([odict]); a [dict] or [set] used only through
      lookups is a [gmap] or [gset].
    - Class tables of the Unicode database are cut down to the ranges the
      source itself mentions: decimal digits are the ASCII digits, case
      mapping covers ASCII and the Latin-1 supplement, word characters are
      the ASCII ones. The blanks are all of Python's.
    - The class body of [PdfSorter] in [factuser-v2.py] defines some
      methods twice ([run_ai], [batch_ai_cache], [on_pdf_click],
      [_append_csv], ...): the second half of the class repeats methods of
      [factuser-v1.py]. Python binds a name to its last definition. The
      definition bound to the name keeps the name here; the one it
      replaces lives in a module [Shadowed] or [Shadowed_click]. *)

From Stdlib Require Import ZArith NArith QArith Qabs List Strings.String Strings.Ascii Bool Lia.
From Stdlib Require Import Sorting.Sorted Sorting.Permutation.
From stdpp Require Import gmap list.
Import ListNotations.

Open Scope N_scope.

(* ================================================================= *)
(** ** Python strings *)

Abbreviation str := (list N).

(** Decoding of a UTF-8 byte sequence into code points. *)
Fixpoint utf8_decode (bs : list N) : str :=
  match bs with
  | [] => []
  | b :: t =>
    if b <? 128 then b :: utf8_decode t
    else if b <? 224 then
      match t with
      | b1 :: t1 => (b mod 32 * 64 + b1 mod 64) :: utf8_decode t1
      | _ => []
      end
    else if b <? 240 then
      match t with
      | b1 :: b2 :: t2 =>
        (b mod 16 * 4096 + b1 mod 64 * 64 + b2 mod 64) :: utf8_decode t2
      | _ => []
      end
    else
      match t with
      | b1 :: b2 :: b3 :: t3 =>
        (b mod 8 * 262144 + b1 mod 64 * 4096 + b2 mod 64 * 64 + b3 mod 64)
          :: utf8_decode t3
      | _ => []
      end
  end.

Definition py (s : string) : str :=
  utf8_decode (List.map N_of_ascii (list_ascii_of_string s)).

Definition ch (a : ascii) : N := N_of_ascii a.

Definition in_range (lo hi c : N) : bool := (lo <=? c) && (c <=? hi).

Definition mem_chars (cs : str) (c : N) : bool := existsb (N.eqb c) cs.

(** [Py_UNICODE_ISSPACE]: the characters [str.strip()] removes and the
    pattern [\s] matches. *)
Definition whitespace : str :=
  [9; 10; 11; 12; 13; 28; 29; 30; 31; 32; 133; 160; 5760;
   8192; 8193; 8194; 8195; 8196; 8197; 8198; 8199; 8200; 8201; 8202;
   8232; 8233; 8239; 8287; 12288].

Definition is_space (c : N) : bool := mem_chars whitespace c.

(** [\d], restricted to the ASCII digits. *)
Definition is_digit (c : N) : bool := in_range 48 57 c.

(** [\w] on the ASCII range: letters, digits and the underscore. *)
Definition is_word (c : N) : bool :=
  in_range 97 122 c || in_range 65 90 c || in_range 48 57 c || (c =? 95).

Fixpoint dropwhile (p : N -> bool) (s : str) : str :=
  match s with
  | [] => []
  | c :: t => if p c then dropwhile p t else s
  end.

Definition lstrip_by (p : N -> bool) (s : str) : str := dropwhile p s.
Definition rstrip_by (p : N -> bool) (s : str) : str :=
  rev (dropwhile p (rev s)).
Definition strip_by (p : N -> bool) (s : str) : str :=
  rstrip_by p (lstrip_by p s).

(** [s.strip()] and [s.strip(chars)]. *)
Definition strip (s : str) : str := strip_by is_space s.
Definition strip_chars (cs : str) (s : str) : str := strip_by (mem_chars cs) s.

(** [s.lower()] on ASCII and Latin-1 letters. *)
Definition lower_char (c : N) : N :=
  if in_range 65 90 c then c + 32
  else if in_range 192 222 c && negb (c =? 215) then c + 32
  else c.

Definition lower (s : str) : str := List.map lower_char s.

(** Truth value of a string: [if s] / [if not s]. *)
Definition truthy (s : str) : bool :=
  match s with [] => false | _ => true end.

Definition str_eqb (a b : str) : bool := bool_decide (a = b).

(** [sep.join(parts)]. *)
Fixpoint join (sep : str) (parts : list str) : str :=
  match parts with
  | [] => []
  | [p] => p
  | p :: rest => p ++ sep ++ join sep rest
  end.

(** [str.maketrans(a, b)] and [s.translate(table)]. *)
Definition maketrans (a b : str) : list (N * N) := combine a b.

Fixpoint table_get (t : list (N * N)) (c : N) : option N :=
  match t with
  | [] => None
  | (k, v) :: t' => if c =? k then Some v else table_get t' c
  end.

Definition translate (t : list (N * N)) (s : str) : str :=
  List.map (fun c => match table_get t c with Some v => v | None => c end) s.

(* ================================================================= *)
(** ** Exceptions *)

Inductive exn := ValueError | IndexError | KeyError | ZeroDivisionError.

Inductive outcome (A : Type) :=
| Returns (a : A)
| Raises (e : exn).
Arguments Returns {A} a.
Arguments Raises {A} e.

Definition bind {A B} (m : outcome A) (k : A -> outcome B) : outcome B :=
  match m with
  | Returns a => k a
  | Raises e => Raises e
  end.

Notation "x <- m ;; k" := (bind m (fun x => k))
  (at level 100, m at next level, right associativity).

(** [int(s)] on a decimal literal: a non-empty run of digits. Python accepts
    more (signs, blanks, underscores); every other text raises here. *)
Definition digit_value (c : N) : Z := Z.of_N (c - 48).

(** The number a run of digits denotes. *)
Definition decimal (s : str) : Z :=
  fold_left (fun acc c => (acc * 10 + digit_value c)%Z) s 0%Z.

Definition int (s : str) : outcome Z :=
  match s with
  | [] => Raises ValueError
  | _ => if forallb is_digit s then Returns (decimal s) else Raises ValueError
  end.

(* ================================================================= *)
(** ** Regular expressions

    The patterns of the source are kept as syntax trees and run by a
    backtracking matcher that lists the successful matches in the order in
    which Python's [re] tries them (greedy repetition first, alternatives
    left to right); the match [re] reports is the head of that list. *)

Inductive regex :=
| Eps
| Bos                                     (* ^ *)
| Eos                                     (* $ *)
| WordB                                   (* \b *)
| Lit (s : str)                           (* literal text *)
| Cls (p : N -> bool) (lo : nat) (hi : option nat)  (* class{lo,hi} *)
| Seq (a b : regex)
| Alt (a b : regex)                       (* a|b *)
| Opt (a : regex)                         (* (?:a)? *)
| Grp (a : regex).                        (* (a) *)

Definition cat (rs : list regex) : regex := fold_right Seq Eps rs.
Definition alts (rs : list regex) : regex :=
  match rs with
  | [] => Eps
  | r :: rs' => fold_left Alt rs' r
  end.
Definition star (p : N -> bool) : regex := Cls p 0%nat None.
Definition plus (p : N -> bool) : regex := Cls p 1%nat None.
Definition rep (p : N -> bool) (lo hi : nat) : regex := Cls p lo (Some hi).
Definition one (p : N -> bool) : regex := Cls p 1%nat (Some 1%nat).
Arguments rep p (lo hi)%_nat.

(** Position of the matcher: the character before it, the text ahead, and
    the groups closed so far. *)
Record mstate := MState {
  m_prev : option N;
  m_rest : str;
  m_groups : list str
}.

Fixpoint count_prefix (p : N -> bool) (s : str) : nat :=
  match s with
  | c :: t => if p c then S (count_prefix p t) else O
  | [] => O
  end.

Fixpoint advance (k : nat) (prev : option N) (s : str) : option N * str :=
  match k, s with
  | S k', c :: t => advance k' (Some c) t
  | _, _ => (prev, s)
  end.

Definition consume (st : mstate) (k : nat) : mstate :=
  let '(pv, r) := advance k (m_prev st) (m_rest st) in
  MState pv r (m_groups st).

(** The counts a greedy repetition tries: from [n] down to [lo]. *)
Fixpoint down_to (lo n : nat) : list nat :=
  if (n <? lo)%nat then []
  else match n with
       | O => [O]
       | S n' => n :: down_to lo n'
       end.

Definition is_word_opt (c : option N) : bool :=
  match c with Some c => is_word c | None => false end.

Fixpoint is_prefix (a s : str) : bool :=
  match a, s with
  | [], _ => true
  | x :: a', y :: s' => (x =? y) && is_prefix a' s'
  | _, [] => false
  end.

(** [$] matches at the end of the text and before a final newline. *)
Definition at_end (s : str) : bool :=
  match s with
  | [] => true
  | [c] => c =? 10
  | _ => false
  end.

Fixpoint exec (r : regex) (st : mstate) : list mstate :=
  match r with
  | Eps => [st]
  | Bos => match m_prev st with None => [st] | Some _ => [] end
  | Eos => if at_end (m_rest st) then [st] else []
  | WordB =>
    if xorb (is_word_opt (m_prev st)) (is_word_opt (head (m_rest st)))
    then [st] else []
  | Lit s =>
    if is_prefix s (m_rest st) then [consume st (length s)] else []
  | Cls p lo hi =>
    let n := count_prefix p (m_rest st) in
    let n := match hi with Some h => Nat.min n h | None => n end in
    List.map (consume st) (down_to lo n)
  | Seq a b => flat_map (exec b) (exec a st)
  | Alt a b => exec a st ++ exec b st
  | Opt a => exec a st ++ [st]
  | Grp a =>
    List.map (fun st' =>
                MState (m_prev st') (m_rest st')
                       (m_groups st' ++
                          [firstn (length (m_rest st) - length (m_rest st'))
                                  (m_rest st)]))
             (exec a st)
  end.

(** [re.match(r, s)]: the groups of the first match at the start of [s]. *)
Definition re_match (r : regex) (s : str) : option (list str) :=
  option_map m_groups (head (exec r (MState None s []))).

(** [m.group(i)], for [i >= 1]. *)
Definition group (m : list str) (i : nat) : outcome str :=
  match nth_error m (i - 1) with
  | Some g => Returns g
  | None => Raises IndexError
  end.

Definition match_len (r : regex) (prev : option N) (s : str) : option nat :=
  option_map (fun st => (length s - length (m_rest st))%nat)
             (head (exec r (MState prev s []))).

(** [re.sub(r, repl, s)] for a pattern that matches no empty text: the
    leftmost matches are replaced from left to right; [skip] counts the
    characters of the current match still to be passed over. *)
Fixpoint sub_from (r : regex) (repl : str) (skip : nat) (prev : option N)
         (s : str) : str :=
  match s with
  | [] => []
  | c :: s' =>
    match skip with
    | S k => sub_from r repl k (Some c) s'
    | O =>
      match match_len r prev s with
      | Some (S n) => repl ++ sub_from r repl n (Some c) s'
      | _ => c :: sub_from r repl 0 (Some c) s'
      end
    end
  end.

Definition re_sub (r : regex) (repl : str) (s : str) : str :=
  sub_from r repl 0 None s.

(* ================================================================= *)
(** ** Insertion-ordered dictionaries *)

Section ODict.
Context {K V : Type} `{EqDecision K}.

Definition odict := list (K * V).

Fixpoint od_get (d : odict) (k : K) : option V :=
  match d with
  | [] => None
  | (k', v) :: d' => if decide (k = k') then Some v else od_get d' k
  end.

(** [d[k] = v]: a key already present keeps its place. *)
Fixpoint od_set (d : odict) (k : K) (v : V) : odict :=
  match d with
  | [] => [(k, v)]
  | (k', v') :: d' =>
    if decide (k = k') then (k', v) :: d' else (k', v') :: od_set d' k v
  end.

(** A dict display [{k1: v1, k2: v2, ...}]. *)
Definition od_literal (items : list (K * V)) : odict :=
  fold_left (fun d kv => od_set d (fst kv) (snd kv)) items [].

Definition od_mem (d : odict) (k : K) : bool :=
  match od_get d k with Some _ => true | None => false end.

(** [d[k]] *)
Definition od_item (d : odict) (k : K) : outcome V :=
  match od_get d k with
  | Some v => Returns v
  | None => Raises KeyError
  end.

Definition od_keys (d : odict) : list K := List.map fst d.
End ODict.
Arguments odict K V : clear implicits.

(* ================================================================= *)
(** ** Small utilities (factuser-v2.py, lines 65-75) *)

Definition _strip_accents (s : str) : str :=
  let trans := maketrans (py "áéíóúüÁÉÍÓÚÜñÑ") (py "aeiouuAEIOUUnN") in
  translate trans s.

Definition is_lower_alnum (c : N) : bool :=
  in_range (ch "a") (ch "z") c || in_range (ch "0") (ch "9") c.

Definition legal_suffixes : list str :=
  List.map py ["gmbh"; "ug"; "ag"; "kg"; "mbh"; "co"; "inc"; "llc"; "ltd";
               "the"; "sll"; "sl"; "srl"; "sa"; "sas"; "spa"]%string.

Definition normalize_provider (p : str) : str :=
  if negb (truthy p) then []
  else
    let s := _strip_accents (strip (lower p)) in
    let s := re_sub (plus (fun c => negb (is_lower_alnum c))) (py " ") s in
    let s := re_sub (cat [WordB; Grp (alts (List.map Lit legal_suffixes)); WordB])
                    (py " ") s in
    strip (re_sub (plus is_space) (py " ") s).

(* ================================================================= *)
(** ** Date parsing, EN + ES (factuser-v2.py, lines 78-117) *)

Definition date : Type := Z * Z * Z.

Definition MONTHS : odict str Z :=
  od_literal
    (List.map (fun kv => (py (fst kv), snd kv))
       [("jan",1);("january",1);("feb",2);("february",2);("mar",3);("march",3);
        ("apr",4);("april",4);("may",5);
        ("jun",6);("june",6);("jul",7);("july",7);("aug",8);("august",8);
        ("sep",9);("sept",9);("september",9);
        ("oct",10);("october",10);("nov",11);("november",11);
        ("dec",12);("december",12);
        ("ene",1);("enero",1);("feb",2);("febrero",2);("mar",3);("marzo",3);
        ("abr",4);("abril",4);("mayo",5);
        ("junio",6);("julio",7);("ago",8);("agosto",8);("set",9);("sept",9);
        ("septiembre",9);("setiembre",9);
        ("octubre",10);("noviembre",11);("dic",12);("diciembre",12)]%string%Z).

Definition is_sep (c : N) : bool := mem_chars (py ".-/") c.
Definition is_az_dot (c : N) : bool :=
  in_range (ch "a") (ch "z") c || (c =? ch ".").
Definition is_comma_tab (c : N) : bool := (c =? ch ",") || (c =? 9).

(** [^\s*(\d{4})[.\-\/](\d{1,2})[.\-\/](\d{1,2})\s*$] *)
Definition re_ymd : regex :=
  cat [Bos; star is_space; Grp (rep is_digit 4 4); one is_sep;
       Grp (rep is_digit 1 2); one is_sep; Grp (rep is_digit 1 2);
       star is_space; Eos].

(** [^\s*(\d{1,2})[.\-\/](\d{1,2})[.\-\/](\d{2,4})\s*$] *)
Definition re_dmy : regex :=
  cat [Bos; star is_space; Grp (rep is_digit 1 2); one is_sep;
       Grp (rep is_digit 1 2); one is_sep; Grp (rep is_digit 2 4);
       star is_space; Eos].

(** [^\s*(\d{1,2})\s+([a-z\.]+)\s+(\d{2,4})\s*$] *)
Definition re_d_mon_y : regex :=
  cat [Bos; star is_space; Grp (rep is_digit 1 2); plus is_space;
       Grp (plus is_az_dot); plus is_space; Grp (rep is_digit 2 4);
       star is_space; Eos].

(** [^\s*([a-z\.]+)\s+(\d{1,2})(?:\s+)?(\d{2,4})\s*$] *)
Definition re_mon_d_y : regex :=
  cat [Bos; star is_space; Grp (plus is_az_dot); plus is_space;
       Grp (rep is_digit 1 2); Opt (plus is_space); Grp (rep is_digit 2 4);
       star is_space; Eos].

(** [^\s*(\d{1,2})\s+(?:de\s+)?([a-z\.]+)\s+(?:de\s+)?(\d{2,4})\s*$] *)
Definition re_d_de_mon_de_y : regex :=
  cat [Bos; star is_space; Grp (rep is_digit 1 2); plus is_space;
       Opt (cat [Lit (py "de"); plus is_space]);
       Grp (plus is_az_dot); plus is_space;
       Opt (cat [Lit (py "de"); plus is_space]);
       Grp (rep is_digit 2 4); star is_space; Eos].

(** [^\s*(\d{1,2})\/(\d{1,2})\/(\d{2,4})\s*$] *)
Definition re_slash : regex :=
  cat [Bos; star is_space; Grp (rep is_digit 1 2); Lit (py "/");
       Grp (rep is_digit 1 2); Lit (py "/"); Grp (rep is_digit 2 4);
       star is_space; Eos].

(** [y + 2000 if y < 100 else y] *)
Definition two_digit_year (y : Z) : Z :=
  if (y <? 100)%Z then (y + 2000)%Z else y.

(** One [m = re.match(...); if m: ...] block followed by the rest of the
    function: the block returns a date, raises, or falls through. *)
Definition or_else {A} (block rest : outcome (option A)) : outcome (option A) :=
  r <- block ;;
  match r with
  | Some x => Returns (Some x)
  | None => rest
  end.

Definition if_match {A} (m : option (list str))
           (body : list str -> outcome (option A)) : outcome (option A) :=
  match m with
  | Some g => body g
  | None => Returns None
  end.

(** [return (int(m.group(1)), int(m.group(2)), int(m.group(3)))] *)
Definition year_month_day (m : list str) : outcome (option date) :=
  g1 <- group m 1 ;; y <- int g1 ;;
  g2 <- group m 2 ;; mo <- int g2 ;;
  g3 <- group m 3 ;; d <- int g3 ;;
  Returns (Some (y, mo, d)).

(** [d, mo, y = int(m.group(1)), int(m.group(2)), int(m.group(3))]
    [if y < 100: y += 2000]
    [return (y, mo, d)] *)
Definition day_month_year (m : list str) : outcome (option date) :=
  g1 <- group m 1 ;; d <- int g1 ;;
  g2 <- group m 2 ;; mo <- int g2 ;;
  g3 <- group m 3 ;; y <- int g3 ;;
  let y := two_digit_year y in
  Returns (Some (y, mo, d)).

(** [if mon in MONTHS: return (y, MONTHS[mon], d)] *)
Definition month_lookup (months : odict str Z) (y : Z) (mon : str) (d : Z)
  : outcome (option date) :=
  if od_mem months mon
  then mo <- od_item months mon ;; Returns (Some (y, mo, d))
  else Returns None.

(** [d = int(m.group(1)); mon = m.group(2).strip('.'); y = int(m.group(3))] *)
Definition day_name_year (m : list str) : outcome (option date) :=
  g1 <- group m 1 ;; d <- int g1 ;;
  g2 <- group m 2 ;; let mon := strip_chars (py ".") g2 in
  g3 <- group m 3 ;; y <- int g3 ;;
  let y := two_digit_year y in
  month_lookup MONTHS y mon d.

(** [mon = m.group(1).strip('.'); d = int(m.group(2)); y = int(m.group(3))] *)
Definition name_day_year (m : list str) : outcome (option date) :=
  g1 <- group m 1 ;; let mon := strip_chars (py ".") g1 in
  g2 <- group m 2 ;; d <- int g2 ;;
  g3 <- group m 3 ;; y <- int g3 ;;
  let y := two_digit_year y in
  month_lookup MONTHS y mon d.

Definition parse_date_any (s : str) : outcome (option date) :=
  if negb (truthy s) then Returns None else
  let s0 := strip s in
  if negb (truthy s0) then Returns None else
  let s_spaces := strip (re_sub (plus is_comma_tab) (py " ") s0) in
  let s_norm := _strip_accents (lower s_spaces) in
  or_else (if_match (re_match re_ymd s_norm) year_month_day)
  (or_else (if_match (re_match re_dmy s_norm) day_month_year)
  (or_else (if_match (re_match re_d_mon_y s_norm) day_name_year)
  (or_else (if_match (re_match re_mon_d_y s_norm) name_day_year)
  (or_else (if_match (re_match re_d_de_mon_de_y s_norm) day_name_year)
  (or_else (if_match (re_match re_slash s_norm) day_month_year)
  (Returns None)))))).

(* ================================================================= *)
(** ** Date parsing of factuser-v1.py (lines 66-103) *)

Module V1.

Definition MONTHS : odict str Z :=
  od_literal
    (List.map (fun kv => (py (fst kv), snd kv))
       [("jan",1);("january",1);("feb",2);("february",2);("mar",3);
        ("march",3);("apr",4);("april",4);("may",5);
        ("jun",6);("june",6);("jul",7);("july",7);("aug",8);("august",8);
        ("sep",9);("sept",9);("september",9);
        ("oct",10);("october",10);("nov",11);("november",11);
        ("dec",12);("december",12)]%string%Z).

Definition is_alpha_dot (c : N) : bool :=
  in_range (ch "A") (ch "Z") c || in_range (ch "a") (ch "z") c
  || (c =? ch ".").

(** [s.replace(',', ' ')] *)
Definition replace_comma (s : str) : str :=
  List.map (fun c => if c =? ch "," then ch " " else c) s.

(** [^\s*(\d{1,2})\s+([A-Za-z\.]+)\s+(\d{2,4})\s*$] *)
Definition re_d_mon_y : regex :=
  cat [Bos; star is_space; Grp (rep is_digit 1 2); plus is_space;
       Grp (plus is_alpha_dot); plus is_space; Grp (rep is_digit 2 4);
       star is_space; Eos].

(** [^\s*([A-Za-z\.]+)\s+(\d{1,2})(?:,)?\s+(\d{2,4})\s*$] *)
Definition re_mon_d_y : regex :=
  cat [Bos; star is_space; Grp (plus is_alpha_dot); plus is_space;
       Grp (rep is_digit 1 2); Opt (Lit (py ",")); plus is_space;
       Grp (rep is_digit 2 4); star is_space; Eos].

(** [d = int(m.group(1)); mon = m.group(2).lower().strip('.');]
    [y = int(m.group(3))] *)
Definition day_name_year (m : list str) : outcome (option date) :=
  g1 <- group m 1 ;; d <- int g1 ;;
  g2 <- group m 2 ;; let mon := strip_chars (py ".") (lower g2) in
  g3 <- group m 3 ;; y <- int g3 ;;
  let y := two_digit_year y in
  month_lookup MONTHS y mon d.

Definition name_day_year (m : list str) : outcome (option date) :=
  g1 <- group m 1 ;; let mon := strip_chars (py ".") (lower g1) in
  g2 <- group m 2 ;; d <- int g2 ;;
  g3 <- group m 3 ;; y <- int g3 ;;
  let y := two_digit_year y in
  month_lookup MONTHS y mon d.

Definition parse_date_any (s : str) : outcome (option date) :=
  let s0 := strip s in
  if negb (truthy s0) then Returns None else
  let s1 := strip (replace_comma s0) in
  or_else (if_match (re_match re_ymd s1) year_month_day)
  (or_else (if_match (re_match re_dmy s1) day_month_year)
  (or_else (if_match (re_match re_d_mon_y s1) day_name_year)
  (or_else (if_match (re_match re_mon_d_y s1) name_day_year)
  (or_else (if_match (re_match re_slash s1) day_month_year)
  (Returns None))))).

End V1.

(* ================================================================= *)
(** ** Sorting *)

(** [sorted(l, key=f)]: stable. *)
Section Sorted.
Context {A : Type} (lt : A -> A -> bool).

Fixpoint insert_sorted (x : A) (l : list A) : list A :=
  match l with
  | [] => [x]
  | y :: l' => if lt y x then y :: insert_sorted x l' else x :: l
  end.

(** Elements are inserted from the right, each before the first element
    it is not greater than: equal keys keep their order. *)
Definition sorted (l : list A) : list A := fold_right insert_sorted [] l.
End Sorted.


(* ================================================================= *)
(** ** CSV rows and the record index (factuser-v2.py, lines 470-497)

    A row of the CSV file is a dict with the ten columns of the header;
    the record below has one field per column. *)

Record row := Row {
  filename : str; year : str; month : str; day : str;
  provider : str; invoice : str; total : str; card : str;
  taxid : str; iban : str
}.

#[global] Instance row_eq_dec : EqDecision row.
Proof. solve_decision. Defined.

(** The keys of [self.sugg_fields], in the order in which [__init__]
    creates the combo boxes. *)
Inductive key := Kdate | Kprovider | Kinvoice | Ktotal | Ktaxid | Kiban.

#[global] Instance key_eq_dec : EqDecision key.
Proof. solve_decision. Defined.

Definition sugg_keys : list key :=
  [Kdate; Kprovider; Kinvoice; Ktotal; Ktaxid; Kiban].

(** [r.get(field)] for a suggestion key: a row has no column ["date"]. *)
Definition row_get (r : row) (k : key) : option str :=
  match k with
  | Kdate => None
  | Kprovider => Some (provider r)
  | Kinvoice => Some (invoice r)
  | Ktotal => Some (total r)
  | Ktaxid => Some (taxid r)
  | Kiban => Some (iban r)
  end.

Abbreviation group_key := (str * str * str * str)%type.

(** The CSV indices of [PdfSorter]. *)
Record index := Index {
  csv_rows : list row;
  seen_by_filename : gmap str (list row);
  freq_provider : gmap str nat;
  freq_taxid : gmap str nat;
  freq_iban : gmap str nat;
  group_index : gmap group_key (list row)
}.

(** [d[k].append(x)] on a [defaultdict(list)]. *)
Definition dd_append {K} `{Countable K} {A} (d : gmap K (list A)) (k : K) (x : A)
  : gmap K (list A) :=
  <[k := default [] (d !! k) ++ [x]]> d.

(** [c[k] += 1] on a [Counter]. *)
Definition counter_incr {K} `{Countable K} (c : gmap K nat) (k : K)
  : gmap K nat :=
  <[k := S (default O (c !! k))]> c.

(** [f"{row.get('year','')}-{row.get('month','')}-{row.get('day','')}"] *)
Definition date_key (r : row) : str :=
  year r ++ py "-" ++ month r ++ py "-" ++ day r.

Definition row_group_key (r : row) : group_key :=
  (normalize_provider (strip (provider r)), strip (invoice r),
   strip (total r), date_key r).

Definition _index_csv_row (ix : index) (r : row) : index :=
  let fn := filename r in
  let prov := strip (provider r) in
  let tax := strip (taxid r) in
  let ib := strip (iban r) in
  {| csv_rows := csv_rows ix ++ [r];
     seen_by_filename := dd_append (seen_by_filename ix) fn r;
     freq_provider :=
       if truthy prov then counter_incr (freq_provider ix) prov
       else freq_provider ix;
     freq_taxid :=
       if truthy tax then counter_incr (freq_taxid ix) tax
       else freq_taxid ix;
     freq_iban :=
       if truthy ib then counter_incr (freq_iban ix) ib
       else freq_iban ix;
     group_index := dd_append (group_index ix) (row_group_key r) r |}.

(** The state after the six [.clear()] calls. *)
Definition cleared : index :=
  {| csv_rows := []; seen_by_filename := ∅; freq_provider := ∅;
     freq_taxid := ∅; freq_iban := ∅; group_index := ∅ |}.

(** [for row in reader: self._index_csv_row(row)] *)
Fixpoint index_rows (ix : index) (reader : list row) : index :=
  match reader with
  | [] => ix
  | r :: rest => index_rows (_index_csv_row ix r) rest
  end.

(** The loader: whatever the indices held is dropped, then every row of
    the file is indexed in order. *)
Definition _load_csv_suggestions_and_indices (ix : index) (reader : list row)
  : index :=
  let ix := cleared in
  index_rows ix reader.

(* ================================================================= *)
(** ** Suggestion drop-downs (factuser-v2.py, lines 536-573, 931-959) *)

Definition LEAVE_UNCHANGED : str := py "— leave unchanged —".
Definition CLEAR_FIELD : str := py "— clear field —".

(** A [QComboBox]: its items and the current index ([-1]: none). *)
Record combo := Combo { items : list str; currentIndex : Z }.

(** The line edits of the metadata form. *)
Record form := Form {
  year_edit : str; month_edit : str; day_edit : str;
  provider_edit : str; invoice_edit : str; total_edit : str;
  card_edit : str; taxid_edit : str; iban_edit : str
}.

(** [Counter.most_common()], that is
    [sorted(cnt.items(), key=itemgetter(1), reverse=True)]: by decreasing
    count, equal counts in insertion order. *)
Definition more_common (a b : str * nat) : bool := (snd b <? snd a)%nat.

Definition most_common (cnt : odict str nat) : list (str * nat) :=
  sorted more_common cnt.

(** [cnt[val] += 1] on a local [Counter], which keeps insertion order. *)
Definition od_incr (cnt : odict str nat) (v : str) : odict str nat :=
  od_set cnt v (S (default O (od_get cnt v))).

Definition count_values (rows : list row) (k : key) : odict str nat :=
  fold_left
    (fun cnt r =>
       let val := strip (default [] (row_get r k)) in
       if truthy val then od_incr cnt val else cnt)
    rows [].

Definition _csv_top_for_file (ix : index) (fname : str) (k : key) : list str :=
  let rows := default [] (seen_by_filename ix !! fname) in
  match rows with
  | [] => []
  | _ => List.map fst (most_common (count_values rows k))
  end.

Definition current_value_for (f : form) (k : key) : str :=
  match k with
  | Kdate =>
    let y := strip (year_edit f) in
    let m := strip (month_edit f) in
    let d := strip (day_edit f) in
    if truthy y || truthy m || truthy d
    then y ++ py "-" ++ m ++ py "-" ++ d
    else []
  | Kprovider => strip (provider_edit f)
  | Kinvoice => strip (invoice_edit f)
  | Ktotal => strip (total_edit f)
  | Ktaxid => strip (taxid_edit f)
  | Kiban => strip (iban_edit f)
  end.

(** The items of the combo being filled, and the local set [seen]. *)
Definition filling : Type := list str * gset str.

(** The local function [add] of [populate_ai_from_sources]. *)
Definition add (val : str) (st : filling) : filling :=
  let v := strip val in
  if negb (truthy v) || bool_decide (v ∈ snd st) then st
  else (fst st ++ [v], snd st ∪ {[v]}).

Definition add_all (vals : list str) (st : filling) : filling :=
  fold_left (fun st v => add v st) vals st.

(** [combo.findText(t)]: the first index holding [t], or [-1]. *)
Fixpoint findText (its : list str) (t : str) : Z :=
  match its with
  | [] => (-1)%Z
  | i :: rest =>
    if str_eqb i t then 0%Z
    else let r := findText rest t in
         if (r <? 0)%Z then (-1)%Z else (r + 1)%Z
  end.

Definition is_marker (t : str) : bool :=
  str_eqb t LEAVE_UNCHANGED || str_eqb t CLEAR_FIELD.

(** [combo.itemText(i)]: the empty string when there is no such item. *)
Definition itemText (its : list str) (i : nat) : str := nth i its [].

(** The body of the loop of [populate_ai_from_sources] for one combo. *)
Definition fill_from_sources (csv_top ai_vals : list str) (cur : str) : combo :=
  let st : filling := ([], ∅) in
  let st := add_all csv_top st in
  let st := add_all ai_vals st in
  let st := if truthy cur then add cur st else st in
  let its := fst st ++ [LEAVE_UNCHANGED] ++ [CLEAR_FIELD] in
  Combo its
        (if (0 <? length its)%nat && negb (is_marker (itemText its 0))
         then 0%Z
         else findText its LEAVE_UNCHANGED).

Abbreviation ai_entry := (odict key (list str)).

(** The part of the window the suggestion code reads. *)
Record app := App {
  indices : index;
  ai_cache : gmap str ai_entry;
  fields : form
}.

Definition populate_ai_from_sources (a : app) (fname : str) (k : key) : combo :=
  let entry := default [] (ai_cache a !! fname) in
  let csv_top := _csv_top_for_file (indices a) fname k in
  let ai_vals := default [] (od_get entry k) in
  let cur := current_value_for (fields a) k in
  fill_from_sources csv_top ai_vals cur.

(** The body of the loop of [populate_ai_from_cache] for one combo. *)
Definition fill_from_cache (candidates : list str) (cur : str) : combo :=
  let its := candidates in
  let its := if truthy cur then its ++ [cur] else its in
  let its := its ++ [LEAVE_UNCHANGED] ++ [CLEAR_FIELD] in
  Combo its (match its with [] => (-1)%Z | _ => 0%Z end).

Definition populate_ai_from_cache (a : app) (fname : str) (k : key) : combo :=
  let candidates :=
      match ai_cache a !! fname with
      | Some entry => default [] (od_get entry k)
      | None => []
      end in
  let cur := current_value_for (fields a) k in
  fill_from_cache candidates cur.

(** [render_current] ends by refilling the combos from the CSV indices
    and the AI cache. *)
Definition render_current (a : app) (fname : str) : key -> combo :=
  populate_ai_from_sources a fname.

(** [run_ai], with the entities the processor returned as [sugg]. The class
    body defines the method twice (lines 576 and 962); the later definition
    is the one bound to the name. *)
Definition run_ai (a : app) (fname : str) (sugg : ai_entry)
  : app * (key -> combo) :=
  let a' := {| indices := indices a;
               ai_cache := <[fname := sugg]> (ai_cache a);
               fields := fields a |} in
  (a', populate_ai_from_cache a' fname).

Module Shadowed.
(** The definition of [run_ai] at line 576, replaced by the later one. *)
Definition run_ai (a : app) (fname : str) (sugg : ai_entry)
  : app * (key -> combo) :=
  let a' := {| indices := indices a;
               ai_cache := <[fname := sugg]> (ai_cache a);
               fields := fields a |} in
  (a', populate_ai_from_sources a' fname).
End Shadowed.

(* ================================================================= *)
(** ** Text selection on the page (factuser-v2.py, lines 671-787, 1057-1092)

    A word of [page.get_text("words")] is the tuple
    [(x0, y0, x1, y1, word, block, line, word_no)]. *)

Record word := Word {
  x0 : Q; y0 : Q; x1 : Q; y1 : Q;
  text : str;
  block : Z; line : Z; word_no : Z
}.

Definition Qltb (a b : Q) : bool := negb (Qle_bool b a).

(** Equality of two word tuples, component by component. *)
Definition word_eqb (a b : word) : bool :=
  Qeq_bool (x0 a) (x0 b) && Qeq_bool (y0 a) (y0 b)
  && Qeq_bool (x1 a) (x1 b) && Qeq_bool (y1 a) (y1 b)
  && str_eqb (text a) (text b)
  && (block a =? block b)%Z && (line a =? line b)%Z
  && (word_no a =? word_no b)%Z.

(** [1e18] *)
Definition huge : Q := inject_Z (10 ^ 18).

(** [a / b] on floats. *)
Definition fdiv (a b : Q) : outcome Q :=
  if Qeq_bool b 0 then Raises ZeroDivisionError else Returns (a / b)%Q.

(** [_pix_to_pdf]: pixmap coordinates to PDF points. *)
Definition _pix_to_pdf (zoom : Q) (x y : Z) : outcome (Q * Q) :=
  px <- fdiv (inject_Z x) zoom ;;
  py_ <- fdiv (inject_Z y) zoom ;;
  Returns (px, py_).

(** [min(l)] and [max(l)] of a list of floats. *)
Definition py_min (l : list Q) : outcome Q :=
  match l with
  | [] => Raises ValueError
  | a :: t => Returns (fold_left (fun m v => if Qltb v m then v else m) t a)
  end.

Definition py_max (l : list Q) : outcome Q :=
  match l with
  | [] => Raises ValueError
  | a :: t => Returns (fold_left (fun m v => if Qltb m v then v else m) t a)
  end.

(** [min(l, key=f)]: the first element whose key is least. *)
Definition py_min_by {A} (f : A -> Q) (l : list A) : outcome A :=
  match l with
  | [] => Raises ValueError
  | a :: t =>
    Returns (fold_left (fun m v => if Qltb (f v) (f m) then v else m) t a)
  end.

Definition line_key : Type := Z * Z.

(** [for w in words: by_line[(w[5], w[6])].append(w)] *)
Definition group_by_line (words : list word) : odict line_key (list word) :=
  fold_left
    (fun by_line w =>
       let k := (block w, line w) in
       od_set by_line k (default [] (od_get by_line k) ++ [w]))
    words [].

(** [mid = (min(y0s)+max(y1s))/2.0; d = abs(mid - pdf_y)] *)
Definition line_distance (pdf_y : Q) (ws : list word) : outcome Q :=
  lo <- py_min (List.map y0 ws) ;;
  hi <- py_max (List.map y1 ws) ;;
  let mid := ((lo + hi) / 2)%Q in
  Returns (Qabs (mid - pdf_y)).

(** The loop that looks for the nearest line; its state is
    [(best_line_key, best_line_dist)]. *)
Fixpoint nearest_line (pdf_y : Q) (its : list (line_key * list word))
         (best : option line_key * Q) : outcome (option line_key * Q) :=
  match its with
  | [] => Returns best
  | (k, ws) :: rest =>
    d <- line_distance pdf_y ws ;;
    if Qltb d (snd best) then nearest_line pdf_y rest (Some k, d)
    else nearest_line pdf_y rest best
  end.

(** [by_line[best_line_key]] on the [defaultdict]. *)
Definition line_of (by_line : odict line_key (list word))
           (k : option line_key) : list word :=
  match k with
  | Some k => default [] (od_get by_line k)
  | None => []
  end.

(** [for w in line_words: if w[0] >= pdf_x: picked = w; break] *)
Fixpoint first_right_of (pdf_x : Q) (line_words : list word) : option word :=
  match line_words with
  | [] => None
  | w :: rest =>
    if Qle_bool pdf_x (x0 w) then Some w else first_right_of pdf_x rest
  end.

Definition center_distance (pdf_x : Q) (w : word) : Q :=
  Qabs ((x0 w + x1 w) / 2 - pdf_x).

Definition pick_word (pdf_x : Q) (line_words : list word) : outcome word :=
  match first_right_of pdf_x line_words with
  | Some w => Returns w
  | None => py_min_by (center_distance pdf_x) line_words
  end.

(** [l.index(x)] *)
Fixpoint index_of (l : list word) (x : word) : outcome nat :=
  match l with
  | [] => Raises ValueError
  | w :: rest =>
    if word_eqb w x then Returns O
    else i <- index_of rest x ;; Returns (S i)
  end.

(** *** The nested helper [glue_amount_or_name] *)

Definition no_word : word := Word 0 0 0 0 [] 0 0 0.

(** [ws[i]] and [at(i)] for [0 <= i]. *)
Definition ws_nth (ws : list word) (i : nat) : word := nth i ws no_word.
Definition at_ (ws : list word) (i : nat) : str :=
  if (i <? length ws)%nat then text (ws_nth ws i) else [].

(** [gap(i, j) = ws[j][0] - ws[i][2]] *)
Definition gap (ws : list word) (i j : nat) : Q :=
  (x0 (ws_nth ws j) - x1 (ws_nth ws i))%Q.

Definition EURO : N := 8364.

Definition currency : list str := List.map py ["€"; "eur"; "euro"; "euros"]%string.

Definition in_currency (t : str) : bool := existsb (str_eqb t) currency.

(** [^[€]?$|^[\d.,]+$] *)
Definition re_numlike : regex :=
  Alt (cat [Bos; rep (N.eqb EURO) 0 1; Eos])
      (cat [Bos; plus (fun c => is_digit c || mem_chars (py ".,") c); Eos]).

Definition is_numlike (t : str) : bool :=
  match re_match re_numlike t with Some _ => true | None => false end.

(** [^[A-Za-zÀ-ÿ&'.-]+$] *)
Definition is_name_char (c : N) : bool :=
  in_range (ch "A") (ch "Z") c || in_range (ch "a") (ch "z") c
  || in_range 192 255 c || mem_chars (py "&'.-") c.

Definition re_namepiece : regex := cat [Bos; plus is_name_char; Eos].

Definition is_namepiece (t : str) : bool :=
  match re_match re_namepiece t with Some _ => true | None => false end.

(** [j = start; while j >= 0 and pred(at(j)) and gap(j, j+1) < thr:]
    [token = ws[j][4] + " " + token; j -= 1], with [n = j + 1]. *)
Fixpoint expand_left (pred : str -> bool) (thr : Q) (ws : list word)
         (n : nat) (token : str) : str :=
  match n with
  | O => token
  | S j =>
    if pred (at_ ws j) && Qltb (gap ws j (S j)) thr
    then expand_left pred thr ws j (text (ws_nth ws j) ++ py " " ++ token)
    else token
  end.

(** [j = start; while j < len(ws) and pred(at(j)) and gap(j-1, j) < thr:]
    [token = token + " " + ws[j][4]; j += 1], with [n = len(ws) - j]. *)
Fixpoint expand_right (pred : str -> bool) (thr : Q) (ws : list word)
         (n : nat) (token : str) : str :=
  match n with
  | O => token
  | S n' =>
    let j := (length ws - n)%nat in
    if pred (at_ ws j) && Qltb (gap ws (j - 1) j) thr
    then expand_right pred thr ws n' (token ++ py " " ++ text (ws_nth ws j))
    else token
  end.

Definition glue_amount_or_name (ws : list word) (idx : nat) : str :=
  let token := text (ws_nth ws idx) in
  let i := idx in
  (* expand left if currency there *)
  let '(token, i) :=
      match i with
      | S p =>
        if in_currency (lower (at_ ws p)) && Qltb (gap ws p i) 20
        then (text (ws_nth ws p) ++ py " " ++ token, p)
        else (token, i)
      | O => (token, i)
      end in
  (* or if the currency is on the right *)
  let token :=
      if (idx + 1 <? length ws)%nat
         && in_currency (lower (at_ ws (idx + 1)))
         && Qltb (gap ws idx (idx + 1)) 20
      then token ++ py " " ++ text (ws_nth ws (idx + 1))
      else token in
  (* numeric pieces, left then right *)
  let token := expand_left is_numlike 25 ws i token in
  let token := expand_right is_numlike 25 ws (length ws - (idx + 1)) token in
  (* name pieces, left then right *)
  let token := expand_left is_namepiece 25 ws i token in
  let token := expand_right is_namepiece 25 ws (length ws - (idx + 1)) token in
  strip token.

(** What a handler wrapped in [try: ... except Exception: log] hands to
    [_popup_field_menu]: nothing when it returned early or raised. *)
Definition handled {A} (body : outcome (option A)) : option A :=
  match body with
  | Returns r => r
  | Raises _ => None
  end.

Module Shadowed_click.

(** The first definition of [on_pdf_click] in the class body (line 675):
    snap to the word on the right, glue the neighbours. *)
Definition click_body (zoom : Q) (words : list word) (x y : Z)
  : outcome (option str) :=
  p <- _pix_to_pdf zoom x y ;;
  let '(pdf_x, pdf_y) := p in
  match words with
  | [] => Returns None
  | _ =>
    let by_line := group_by_line words in
    best <- nearest_line pdf_y by_line (None, huge) ;;
    let best_line_key := fst best in
    let line_words :=
        sorted (fun a b => Qltb (x0 a) (x0 b)) (line_of by_line best_line_key) in
    picked <- pick_word pdf_x line_words ;;
    i <- index_of line_words picked ;;
    Returns (Some (glue_amount_or_name line_words i))
  end.

Definition on_pdf_click (zoom : Q) (words : list word) (x y : Z)
  : option str :=
  handled (click_body zoom words x y).

End Shadowed_click.

(** The definition of [on_pdf_click] bound to the name (line 1057): the
    word whose centre is nearest to the click, by squared distance. *)
Definition nearest_word (pdf_x pdf_y : Q) (words : list word)
  : option word * Q :=
  fold_left
    (fun best w =>
       let cx := ((x0 w + x1 w) / 2)%Q in
       let cy := ((y0 w + y1 w) / 2)%Q in
       let d2 := ((cx - pdf_x) ^ 2 + (cy - pdf_y) ^ 2)%Q in
       if Qltb d2 (snd best) then (Some w, d2) else best)
    words (None, huge).

Definition click_body (zoom : Q) (words : list word) (x y : Z)
  : outcome (option str) :=
  pdf_x <- fdiv (inject_Z x) zoom ;;
  pdf_y <- fdiv (inject_Z y) zoom ;;
  match words with
  | [] => Returns None
  | _ =>
    match fst (nearest_word pdf_x pdf_y words) with
    | None => Returns None
    | Some best =>
      let t := strip (text best) in
      if negb (truthy t) then Returns None else Returns (Some t)
    end
  end.

Definition on_pdf_click (zoom : Q) (words : list word) (x y : Z) : option str :=
  handled (click_body zoom words x y).

(** *** Rubber-band selection *)

(** A [fitz.Rect]. *)
Record rect := Rect { rx0 : Q; ry0 : Q; rx1 : Q; ry1 : Q }.

(** A [QRect], through its accessors [left()], [top()], [right()],
    [bottom()]. *)
Record qrect := QRect { left : Z; top : Z; right : Z; bottom : Z }.

(** [Rect.is_empty] and [Rect.intersects] of PyMuPDF: the common part of
    two rectangles that are not empty has a positive area. *)
Definition is_empty (r : rect) : bool :=
  Qle_bool (rx1 r) (rx0 r) || Qle_bool (ry1 r) (ry0 r).

Definition Qmax_ (a b : Q) : Q := if Qltb a b then b else a.
Definition Qmin_ (a b : Q) : Q := if Qltb b a then b else a.

Definition fitz_intersects (a b : rect) : bool :=
  negb (is_empty a) && negb (is_empty b)
  && negb (is_empty (Rect (Qmax_ (rx0 a) (rx0 b)) (Qmax_ (ry0 a) (ry0 b))
                          (Qmin_ (rx1 a) (rx1 b)) (Qmin_ (ry1 a) (ry1 b)))).

(** The sort key [(w[5], w[6], w[0])], compared as Python compares
    tuples. *)
Definition reading_lt (a b : word) : bool :=
  if negb (block a =? block b)%Z then (block a <? block b)%Z
  else if negb (line a =? line b)%Z then (line a <? line b)%Z
  else Qltb (x0 a) (x0 b).

Section Box.
Variable intersects : rect -> rect -> bool.

Definition box_body (zoom : Q) (words : list word) (r : qrect)
  : outcome (option str) :=
  bx0 <- fdiv (inject_Z (left r)) zoom ;;
  by0 <- fdiv (inject_Z (top r)) zoom ;;
  bx1 <- fdiv (inject_Z (right r)) zoom ;;
  by1 <- fdiv (inject_Z (bottom r)) zoom ;;
  let sel := Rect bx0 by0 bx1 by1 in
  match words with
  | [] => Returns None
  | _ =>
    let picked :=
        List.filter
          (fun w => intersects (Rect (x0 w) (y0 w) (x1 w) (y1 w)) sel) words in
    let picked := sorted reading_lt picked in
    let t := strip (join (py " ") (List.map text picked)) in
    if negb (truthy t) then Returns None else Returns (Some t)
  end.

Definition on_pdf_box (zoom : Q) (words : list word) (r : qrect)
  : option str :=
  handled (box_body zoom words r).
End Box.

(* ================================================================= *)
(** ** Vocabulary of the statements *)

(** *** Patterns and their groups *)

(** A pattern without a group leaves the groups alone. *)
Fixpoint no_group (r : regex) : bool :=
  match r with
  | Grp _ => false
  | Seq a b | Alt a b => no_group a && no_group b
  | Opt a => no_group a
  | _ => true
  end.

(** The groups of a pattern whose groups are each one repeated class and
    lie on its spine: the class and the least length of each, in order. *)
Fixpoint shape (r : regex) : option (list ((N -> bool) * nat)) :=
  match r with
  | Grp (Cls p lo _) => Some [(p, lo)]
  | Grp _ => None
  | Seq a b =>
    match shape a, shape b with
    | Some x, Some y => Some (x ++ y)
    | _, _ => None
    end
  | _ => if no_group r then Some [] else None
  end.

Definition fits (g : str) (c : (N -> bool) * nat) : Prop :=
  forallb (fst c) g = true /\ (snd c <= length g)%nat.

(** Digits and date separators. *)
Definition plain (c : N) : Prop := is_digit c = true \/ is_sep c = true.

(** *** The indices, read off the history *)

(** A list kept under a key: absent when empty. *)
Definition some_if_any {A} (l : list A) : option (list A) :=
  match l with [] => None | _ => Some l end.





(** *** The suggestion list in the words of the specification

    Start with an empty ordered set; append each entry, skipping blanks
    and exact duplicates already present; then the current value if it is
    not empty and not already present; finally the two control markers. *)
Definition spec_append (acc : list str) (v : str) : list str :=
  if negb (truthy v) || existsb (str_eqb v) acc then acc else acc ++ [v].

Definition spec_candidates (history ai : list str) (cur : str) : list str :=
  let acc := fold_left spec_append history [] in
  let acc := fold_left spec_append ai acc in
  if truthy cur && negb (existsb (str_eqb cur) acc) then acc ++ [cur] else acc.

Definition spec_build (history ai : list str) (cur : str) : list str :=
  spec_candidates history ai cur ++ [LEAVE_UNCHANGED; CLEAR_FIELD].

(** The set [seen] holds exactly the items added so far. *)
Definition seen_ok (st : filling) : Prop :=
  forall v, v ∈ snd st <-> In v (fst st).

(** The value of a field in a row, as [_csv_top_for_file] counts it. *)
Definition value_of (k : key) (r : row) : str :=
  strip (default [] (row_get r k)).

Definition counts_value (k : key) (v : str) (r : row) : bool :=
  truthy (value_of k r) && bool_decide (value_of k r = v).

(** *** Lines of a page *)

Definition key_of (w : word) : line_key := (block w, line w).

Definition group_step (by_line : odict line_key (list word)) (w : word)
  : odict line_key (list word) :=
  od_set by_line (key_of w) (default [] (od_get by_line (key_of w)) ++ [w]).

Definition on_line (k : line_key) (w : word) : bool :=
  bool_decide (key_of w = k).

(** The keys of a list in the order of their first occurrence. *)
Fixpoint first_seen (ks : list line_key) (acc : list line_key)
  : list line_key :=
  match ks with
  | [] => acc
  | k :: rest =>
    first_seen rest
      (if existsb (fun k' => bool_decide (k' = k)) acc then acc
       else acc ++ [k])
  end.

(** The distance of a line to the click, as a number. *)
Definition dist_of (pdf_y : Q) (ws : list word) : Q :=
  match line_distance pdf_y ws with
  | Returns d => d
  | Raises _ => 0
  end.

(** A text that is not empty and neither begins nor ends with a blank, as
    the words of [get_text("words")] are. *)
Definition tight (t : str) : bool :=
  match t with [] => false | a :: _ => negb (is_space a) end
  && match rev t with [] => false | b :: _ => negb (is_space b) end.

(** *** Sample data *)

(** A file with one history row, a provider typed into the form, and two
    entities of the same type and text, as [extract_entities] may collect
    them. *)
Definition sample_history : list row :=
  [Row (py "a.pdf") (py "2023") (py "02") (py "23") (py "Beta") (py "17")
       (py "12,50") [] [] []].

Definition sample_app : app :=
  App (_load_csv_suggestions_and_indices cleared sample_history) ∅
      (Form [] [] [] (py "Acme") [] [] [] [] []).

Definition sample_entities : ai_entry :=
  od_literal [(Kprovider, [py "Acme"; py "Acme"])].

(** Two lines of two words each. *)
Definition sample_label : word := Word 0 100 40 110 (py "Total:") 0 0 0.
Definition sample_amount : word := Word 50 100 90 110 (py "120,50") 0 0 1.
Definition sample_euro : word := Word 10 200 18 210 (py "€") 1 0 0.
Definition sample_price : word := Word 22 200 60 210 (py "120,50") 1 0 1.

(** A page with two lines; the second line starts left of the first. *)
Definition sample_page : list word :=
  [Word 30 120 60 130 (py "due") 0 1 1;
   Word 100 100 140 110 (py "Invoice") 0 0 0;
   Word 5 120 25 130 (py "Amount") 0 1 0;
   Word 145 100 170 110 (py "17") 0 0 1;
   Word 300 300 340 310 (py "Page") 2 0 0].
(* ================================================================= *)
(** ** Further vocabulary *)

(** *** Groups of bounded length *)

(** The greatest length of each group of a pattern whose groups are each
    one repeated class and lie on its spine ([None]: no bound). *)
Fixpoint widths (r : regex) : option (list (option nat)) :=
  match r with
  | Grp (Cls _ _ hi) => Some [hi]
  | Grp _ => None
  | Seq a b =>
    match widths a, widths b with
    | Some x, Some y => Some (x ++ y)
    | _, _ => None
    end
  | _ => if no_group r then Some [] else None
  end.

Definition within (g : str) (hi : option nat) : Prop :=
  match hi with
  | Some h => (length g <= h)%nat
  | None => True
  end.

(** *** The first match *)

(** The match [re] reports from a position: the head of the list of
    successes. *)
Definition first_match (r : regex) (st : mstate) : option mstate :=
  head (exec r st).

(** The position after [k] characters of [s], with the character before
    it. *)
Definition after (k : nat) (pv : option N) (s : str) : option N :=
  fst (advance k pv s).

Definition is_lower (c : N) : bool := in_range (ch "a") (ch "z") c.
Definition is_upper (c : N) : bool := in_range (ch "A") (ch "Z") c.
Definition is_ascii (c : N) : bool := c <? 128.

(** The text the patterns of [parse_date_any] are matched against. *)
Definition normalised (s : str) : str :=
  _strip_accents (lower (strip (re_sub (plus is_comma_tab) (py " ") (strip s)))).

(** The six blocks of [parse_date_any], on the normalised text. *)
Definition date_blocks (s_norm : str) : outcome (option date) :=
  or_else (if_match (re_match re_ymd s_norm) year_month_day)
  (or_else (if_match (re_match re_dmy s_norm) day_month_year)
  (or_else (if_match (re_match re_d_mon_y s_norm) day_name_year)
  (or_else (if_match (re_match re_mon_d_y s_norm) name_day_year)
  (or_else (if_match (re_match re_d_de_mon_de_y s_norm) day_name_year)
  (or_else (if_match (re_match re_slash s_norm) day_month_year)
  (Returns None)))))).

(** A character the normalisation of [parse_date_any] leaves alone, up to
    its case: ASCII, neither comma nor tab. *)
Definition date_char (c : N) : bool := is_ascii c && negb (is_comma_tab c).

(* ================================================================= *)
(** ** Applying a selection (factuser-v2.py, lines 1026-1054, 1094-1102) *)

(** The decimal digits of a number, most significant first; [fuel] bounds
    their number. *)
Fixpoint digits_of (fuel : nat) (n : N) : str :=
  match fuel with
  | O => []
  | S f =>
    if n <? 10 then [48 + n]
    else digits_of f (n / 10) ++ [48 + n mod 10]
  end.

(** [str(n)] for [n >= 0]: a number has no more decimal digits than
    bits. *)
Definition str_of_N (n : N) : str := digits_of (S (N.size_nat n)) n.

(** [f"{z:0{width}d}"]: the sign, then zeros up to the width, then the
    digits. *)
Definition format_0d (width : nat) (z : Z) : str :=
  let ds := str_of_N (Z.abs_N z) in
  if (z <? 0)%Z
  then py "-" ++ repeat 48 (width - 1 - length ds) ++ ds
  else repeat 48 (width - length ds) ++ ds.

(** The form and the log of the window. *)
Definition window : Type := form * list str.

Definition log_msg (msg : str) (w : window) : window :=
  (fst w, snd w ++ [msg]).

Definition set_date (y mo d : str) (f : form) : form :=
  {| year_edit := y; month_edit := mo; day_edit := d;
     provider_edit := provider_edit f; invoice_edit := invoice_edit f;
     total_edit := total_edit f; card_edit := card_edit f;
     taxid_edit := taxid_edit f; iban_edit := iban_edit f |}.

(** [edit.setText(v)] on the line edit of a key other than ["date"]. *)
Definition set_field (k : key) (v : str) (f : form) : form :=
  match k with
  | Kdate => f
  | Kprovider =>
    {| year_edit := year_edit f; month_edit := month_edit f;
       day_edit := day_edit f; provider_edit := v;
       invoice_edit := invoice_edit f; total_edit := total_edit f;
       card_edit := card_edit f; taxid_edit := taxid_edit f;
       iban_edit := iban_edit f |}
  | Kinvoice =>
    {| year_edit := year_edit f; month_edit := month_edit f;
       day_edit := day_edit f; provider_edit := provider_edit f;
       invoice_edit := v; total_edit := total_edit f;
       card_edit := card_edit f; taxid_edit := taxid_edit f;
       iban_edit := iban_edit f |}
  | Ktotal =>
    {| year_edit := year_edit f; month_edit := month_edit f;
       day_edit := day_edit f; provider_edit := provider_edit f;
       invoice_edit := invoice_edit f; total_edit := v;
       card_edit := card_edit f; taxid_edit := taxid_edit f;
       iban_edit := iban_edit f |}
  | Ktaxid =>
    {| year_edit := year_edit f; month_edit := month_edit f;
       day_edit := day_edit f; provider_edit := provider_edit f;
       invoice_edit := invoice_edit f; total_edit := total_edit f;
       card_edit := card_edit f; taxid_edit := v;
       iban_edit := iban_edit f |}
  | Kiban =>
    {| year_edit := year_edit f; month_edit := month_edit f;
       day_edit := day_edit f; provider_edit := provider_edit f;
       invoice_edit := invoice_edit f; total_edit := total_edit f;
       card_edit := card_edit f; taxid_edit := taxid_edit f;
       iban_edit := v |}
  end.

(** The text of the line edit of a key other than ["date"]. *)
Definition field_of (k : key) (f : form) : str :=
  match k with
  | Kdate => []
  | Kprovider => provider_edit f
  | Kinvoice => invoice_edit f
  | Ktotal => total_edit f
  | Ktaxid => taxid_edit f
  | Kiban => iban_edit f
  end.

(** [parsed = parse_date_any(txt)]; [if parsed: ... setText(f"{y:04d}") ...]
    [else: self.log_msg(f"Date parse failed for '{txt}'")] *)
Definition _apply_date_from_text (txt : str) (w : window) : outcome window :=
  parsed <- parse_date_any txt ;;
  match parsed with
  | Some (y, mo, d) =>
    Returns (set_date (format_0d 4 y) (format_0d 2 mo) (format_0d 2 d) (fst w),
             snd w)
  | None =>
    Returns (log_msg (py "Date parse failed for '" ++ txt ++ py "'") w)
  end.

(** [combo.count()] and [combo.currentText()]: the text of the current
    item, empty when there is none. *)
Definition count (c : combo) : nat := length (items c).

Definition currentText (c : combo) : str :=
  if (0 <=? currentIndex c)%Z && (currentIndex c <? Z.of_nat (count c))%Z
  then itemText (items c) (Z.to_nat (currentIndex c))
  else [].

(** The body of the loop of [apply_suggestions] for one key. *)
Definition apply_one (k : key) (c : combo) (w : window) : outcome window :=
  if (count c =? 0)%nat then Returns w else
  let sel := strip (currentText c) in
  if str_eqb sel LEAVE_UNCHANGED || str_eqb sel [] then Returns w else
  if str_eqb sel CLEAR_FIELD then
    match k with
    | Kdate => Returns (set_date [] [] [] (fst w), snd w)
    | _ => Returns (set_field k [] (fst w), snd w)
    end
  else
    match k with
    | Kdate => _apply_date_from_text sel w
    | _ => Returns (set_field k sel (fst w), snd w)
    end.

Fixpoint apply_each (ks : list key) (combos : key -> combo) (w : window)
  : outcome window :=
  match ks with
  | [] => Returns w
  | k :: rest => w' <- apply_one k (combos k) w ;; apply_each rest combos w'
  end.

Definition apply_suggestions (combos : key -> combo) (w : window)
  : outcome window :=
  w' <- apply_each sugg_keys combos w ;;
  Returns (log_msg (py "Applied selected AI suggestions") w').

(** What [apply_suggestions] leaves in the line edit of a key other than
    ["date"], given the combo of the key and the text the edit held. *)
Definition applied (c : combo) (old : str) : str :=
  let sel := strip (currentText c) in
  if str_eqb sel LEAVE_UNCHANGED || str_eqb sel [] then old
  else if str_eqb sel CLEAR_FIELD then []
  else sel.

(* ================================================================= *)
(** ** Entities of a processed document (factuser-v2.py, lines 1004-1023)

    [extract_entities] reads two attributes of the document the processor
    returns: the entities, each with a type and a mention text, and the
    full text. An attribute that is missing or [None] is [None] here. *)

Record entity := Entity { type_ : option str; mention_text : option str }.

Record document := Document { entities : list entity; full_text : option str }.

(** [x or ""] *)
Definition or_empty (x : option str) : str := default [] x.

Definition invoice_types : list str :=
  List.map py ["invoice_id"; "invoice-number"; "invoice_number"]%string.
Definition provider_types : list str :=
  List.map py ["supplier_name"; "merchant"; "vendor"; "issuer"; "supplier"]%string.
Definition total_types : list str :=
  List.map py ["total_amount"; "grand_total"; "amount_total"; "invoice_total"]%string.
Definition date_types : list str :=
  List.map py ["invoice_date"; "date"; "issue_date"; "purchase_date"]%string.
Definition taxid_types : list str :=
  List.map py ["supplier_tax_id"; "vat_number"; "tax_id"; "vatid"]%string.

(** [et in (...)] *)
Definition one_of (types : list str) (et : str) : bool :=
  existsb (str_eqb et) types.

(** The [if ... elif ...] chain on the entity type. *)
Definition field_of_type (et : str) : option key :=
  if one_of invoice_types et then Some Kinvoice
  else if one_of provider_types et then Some Kprovider
  else if one_of total_types et then Some Ktotal
  else if one_of date_types et then Some Kdate
  else if one_of taxid_types et then Some Ktaxid
  else None.

(** [suggestions.setdefault(k, []).append(v)] *)
Definition setdefault_append (sugg : ai_entry) (k : key) (v : str) : ai_entry :=
  od_set sugg k (default [] (od_get sugg k) ++ [v]).

(** The body of the loop over the entities. *)
Definition entity_step (sugg : ai_entry) (ent : entity) : ai_entry :=
  let et := lower (or_empty (type_ ent)) in
  let val := strip (or_empty (mention_text ent)) in
  if negb (truthy val) then sugg
  else match field_of_type et with
       | Some k => setdefault_append sugg k val
       | None => sugg
       end.

(** [re.findall(r, s)] for a pattern without groups that matches no empty
    text: the leftmost matches, from left to right. *)
Fixpoint findall_from (r : regex) (skip : nat) (prev : option N) (s : str)
  : list str :=
  match s with
  | [] => []
  | c :: s' =>
    match skip with
    | S k => findall_from r k (Some c) s'
    | O =>
      match match_len r prev s with
      | Some (S n) => firstn (S n) s :: findall_from r n (Some c) s'
      | _ => findall_from r 0 (Some c) s'
      end
    end
  end.

Definition re_findall (r : regex) (s : str) : list str :=
  findall_from r 0 None s.

(** [s.replace(" ", "")] *)
Definition remove_blanks (s : str) : str :=
  List.filter (fun c => negb (c =? 32)) s.

Definition is_iban_char (c : N) : bool := is_digit c || is_upper c.

(** [[A-Z]{2}[0-9A-Z]{13,32}] *)
Definition re_iban : regex := cat [rep is_upper 2 2; rep is_iban_char 13 32].

Definition extract_entities (doc : document) : ai_entry :=
  let suggestions := fold_left entity_step (entities doc) [] in
  let text := or_empty (full_text doc) in
  fold_left (fun sugg m => setdefault_append sugg Kiban m)
            (re_findall re_iban (remove_blanks text)) suggestions.

(** *** The candidates of a field, read off the document *)

Definition mention (e : entity) : str := strip (or_empty (mention_text e)).

(** The field an entity is a candidate for. *)
Definition entity_field (e : entity) : option key :=
  if truthy (mention e) then field_of_type (lower (or_empty (type_ e)))
  else None.

Definition mentions_of (k : key) (es : list entity) : list str :=
  List.map mention (List.filter (fun e => bool_decide (entity_field e = Some k)) es).

Definition ibans_of (doc : document) : list str :=
  re_findall re_iban (remove_blanks (or_empty (full_text doc))).

(* ================================================================= *)
(** ** The cache of AI suggestions on disk (factuser-v2.py, lines 901-929)

    A CSV file is absent or holds rows of fields: [csv.writer.writerow]
    adds a row at the end, and [csv.DictReader] gives the rows back (the
    quoting of the [csv] module is not modelled). *)







(** [s.split(sep)] for a separator that is not empty; [skip] counts the
    characters of the separator still to be passed over, [cur] is the
    piece being read. *)
Fixpoint split_from (sep : str) (skip : nat) (cur : str) (s : str) : list str :=
  match s with
  | [] => [cur]
  | c :: s' =>
    match skip with
    | S k => split_from sep k cur s'
    | O =>
      if is_prefix sep s then cur :: split_from sep (length sep - 1) [] s'
      else split_from sep 0 (cur ++ [c]) s'
    end
  end.

Definition split (sep s : str) : list str := split_from sep 0 [] s.








(** *** Entries that survive the cache *)





(* ================================================================= *)
(** ** The list of files and the page shown
       (factuser-v2.py, lines 297-357 and 814-856)

    The window keeps the list of files, the index of the current file and
    the page number; the label shows a page or a message. Opening and
    rendering a file are the work of PyMuPDF and Qt: [opens p] is the page
    count of the document [try_open_doc] returns for [p] ([None] when it
    returns [None]), and [renders p n] tells whether the body of the
    [try] of [render_current] runs to its end for page [n] of [p]; a
    failure there is taken to come after the page number was assigned, as
    one of [load_page] does. What a failed rendering leaves on the label
    is not modelled: [quarantine_and_next] follows and every path of it
    sets the label again. *)

Module Viewer.

Inductive display :=
| NoPdfLoaded
| NoPdfsFound
| NoPdfsLeft
| Pixmap (path : str) (page_ : Z).

Record viewer := Viewer {
  files : list str;
  idx : Z;
  page : Z;
  label : display
}.


(** [l[i]] and [l.pop(i)] with an index that may be negative. *)
Definition position {A} (l : list A) (i : Z) : outcome nat :=
  let n := Z.of_nat (length l) in
  if (0 <=? i)%Z && (i <? n)%Z then Returns (Z.to_nat i)
  else if (- n <=? i)%Z && (i <? 0)%Z then Returns (Z.to_nat (n + i))
  else Raises IndexError.

Definition item {A} (l : list A) (i : Z) : outcome A :=
  k <- position l i ;;
  match nth_error l k with
  | Some x => Returns x
  | None => Raises IndexError
  end.

Definition pop {A} (l : list A) (i : Z) : outcome (list A) :=
  k <- position l i ;;
  Returns (firstn k l ++ skipn (S k) l).

Section Environment.
Variable opens : str -> option Z.
Variable renders : str -> Z -> bool.

(** The part of [quarantine_and_next] (line 838) after the file was moved
    away, or could not be: the file leaves the list and the next one is
    rendered. [render] is [render_current]. *)
Definition quarantine_with (render : viewer -> option (outcome viewer))
           (v : viewer) : option (outcome viewer) :=
  match files v with
  | [] => Some (Returns v)
  | _ =>
    match item (files v) (idx v) with
    | Raises e => Some (Raises e)
    | Returns src =>
      match pop (files v) (idx v) with
      | Raises e => Some (Raises e)
      | Returns files' =>
        match files' with
        | [] => Some (Returns (Viewer files' (idx v) (page v) NoPdfsLeft))
        | _ =>
          let idx' := if (Z.of_nat (length files') <=? idx v)%Z then 0%Z
                      else idx v in
          render (Viewer files' idx' 0 (label v))
        end
      end
    end
  end.

(** [render_current]; it calls itself through [quarantine_and_next], each
    time with a shorter list. [None]: the fuel ran out. *)
Fixpoint render_current (fuel : nat) (v : viewer) : option (outcome viewer) :=
  match fuel with
  | O => None
  | S fuel' =>
    match files v with
    | [] => Some (Returns (Viewer (files v) (idx v) (page v) NoPdfsFound))
    | _ =>
      match item (files v) (idx v) with
      | Raises e => Some (Raises e)
      | Returns path =>
        match opens path with
        | None => quarantine_with (render_current fuel') v
        | Some page_count =>
          let page' := Z.max 0 (Z.min (page v) (page_count - 1)) in
          if renders path page'
          then Some (Returns (Viewer (files v) (idx v) page' (Pixmap path page')))
          else quarantine_with (render_current fuel')
                               (Viewer (files v) (idx v) page' (label v))
        end
      end
    end
  end.


Definition next_file (fuel : nat) (v : viewer) : option (outcome viewer) :=
  match files v with
  | [] => Some (Returns v)
  | _ =>
    render_current fuel
      (Viewer (files v) ((idx v + 1) mod Z.of_nat (length (files v))) 0 (label v))
  end.

Definition prev_file (fuel : nat) (v : viewer) : option (outcome viewer) :=
  match files v with
  | [] => Some (Returns v)
  | _ =>
    render_current fuel
      (Viewer (files v) ((idx v - 1) mod Z.of_nat (length (files v))) 0 (label v))
  end.






(** *** What the window holds between two actions *)

(** The list is empty and the label says so, or the index is that of a
    file of the list and the label shows a page of that file. *)
Definition consistent (v : viewer) : Prop :=
  match files v with
  | [] => forall p n, label v <> Pixmap p n
  | _ =>
    (0 <= idx v < Z.of_nat (length (files v)))%Z /\ (0 <= page v)%Z
    /\ exists path, nth_error (files v) (Z.to_nat (idx v)) = Some path
                    /\ label v = Pixmap path (page v)
  end.

(** A file the window gave up: it did not open, or a page of it did not
    render. *)
Definition failed (p : str) : Prop :=
  opens p = None \/ exists n, renders p n = false.




(** The file shown opened and was rendered at the page shown, which is a
    page of the document when it has one. *)
Definition shown_ok (v : viewer) : Prop :=
  match files v with
  | [] => True
  | _ =>
    exists path page_count,
      nth_error (files v) (Z.to_nat (idx v)) = Some path
      /\ opens path = Some page_count
      /\ renders path (page v) = true
      /\ (page v <= Z.max 0 (page_count - 1))%Z
  end.

(** What a rendering that starts inside the list ends with. *)
Definition rendered (v v' : viewer) : Prop :=
  consistent v' /\ shown_ok v' /\ sublist (files v') (files v)
  /\ (forall p, In p (files v) -> ~ In p (files v') -> failed p).

(** Every file of the list opens and its first page renders. *)
Definition all_good (l : list str) : Prop :=
  forall p, In p l -> exists n, opens p = Some n /\ renders p 0 = true.

End Environment.

(** A folder for the examples: [a.pdf] does not open, the others have
    three pages. *)
Definition example_opens (p : str) : option Z :=
  if str_eqb p (py "a.pdf") then None else Some 3%Z.

Definition example_renders (p : str) (n : Z) : bool := true.

End Viewer.

(* ================================================================= *)
(** ** The word a click selects (factuser-v2.py, lines 1057-1092) *)



(* ================================================================= *)
(** ** The form of a normalised provider name
       (factuser-v2.py, lines 69-75) *)

(** Small letters, digits and the blank. *)
Definition canonical_char (c : N) : bool := is_lower_alnum c || (c =? 32).

(** No two blanks next to each other. *)
Fixpoint single_spaced (s : str) : bool :=
  match s with
  | a :: (b :: _) as t => negb ((a =? 32) && (b =? 32)) && single_spaced t
  | _ => true
  end.

(* ================================================================= *)
(** ** The words of a normalised provider name
       (factuser-v2.py, lines 69-75) *)

(** The pattern of the legal forms, [\b(gmbh|ug|...|spa)\b]. *)
Definition re_legal : regex :=
  cat [WordB; Grp (alts (List.map Lit legal_suffixes)); WordB].

(** [w in ("gmbh", "ug", ...)] *)
Definition is_legal_suffix (w : str) : bool := existsb (str_eqb w) legal_suffixes.

(** A run of small letters and digits that is not empty. *)
Definition alnum_word (w : str) : Prop :=
  w <> [] /\ forallb is_lower_alnum w = true.

(** [spaced ws s]: the text [s] is the words [ws] in order, with blanks
    between them and, maybe, before and after them. *)
Inductive spaced : list str -> str -> Prop :=
| spaced_end : spaced [] []
| spaced_blank ws s : spaced ws s -> spaced ws (32 :: s)
| spaced_last w : alnum_word w -> spaced [w] w
| spaced_word w ws s :
    alnum_word w -> spaced ws s -> spaced (w :: ws) (w ++ 32 :: s).

(** The words of a provider name: the runs of small letters and digits of
    the name in lower case, stripped and without the accents of the
    table, that are not legal forms. *)
Definition provider_words (p : str) : list str :=
  List.filter (fun w => negb (is_legal_suffix w))
              (re_findall (plus is_lower_alnum) (_strip_accents (strip (lower p)))).

(* ================================================================= *)
(** ** The completer lists
       (factuser-v2.py, lines 499-502 and 878-898)

    [_refresh_autocomplete_models] reads the lists off the counters of the
    index; [_load_csv_suggestions], which the [_append_csv] in force calls,
    reads them off the rows of the file. A row is taken to have its ten
    columns, as for the index. *)




Section Enumeration.
(** The order in which a set and the keys of a dict are gone through. *)
Variable set_order : gset str -> list str.
Variable keys_order : gmap str nat -> list str.



End Enumeration.




(* ================================================================= *)
(** * Properties *)

(** ** Facts about the matcher *)

Lemma consume_groups st k : m_groups (consume st k) = m_groups st.
Proof. unfold consume. destruct (advance k (m_prev st) (m_rest st)); reflexivity. Qed.

Lemma advance_rest k : forall pv s, snd (advance k pv s) = skipn k s.
Proof.
  induction k as [|k IH]; intros pv s; simpl.
  - reflexivity.
  - destruct s as [|c t]; simpl; [reflexivity | apply IH].
Qed.

Lemma consume_rest st k : m_rest (consume st k) = skipn k (m_rest st).
Proof.
  unfold consume. rewrite <- (advance_rest k (m_prev st) (m_rest st)).
  destruct (advance k (m_prev st) (m_rest st)); reflexivity.
Qed.

Lemma in_down_to lo n k : In k (down_to lo n) -> (lo <= k <= n)%nat.
Proof.
  induction n as [|n IH]; simpl.
  - destruct (Nat.ltb_spec 0 lo); simpl; [tauto | lia].
  - destruct (Nat.ltb_spec (S n) lo); simpl; [tauto |].
    intros [<- | Hin]; [lia |].
    specialize (IH Hin). lia.
Qed.

Lemma count_prefix_le p s : (count_prefix p s <= length s)%nat.
Proof. induction s as [|c t IH]; simpl; [lia | destruct (p c); simpl; lia]. Qed.

Lemma firstn_count_prefix p s k :
  (k <= count_prefix p s)%nat -> forallb p (firstn k s) = true.
Proof.
  revert k. induction s as [|c t IH]; intros k Hk; simpl in *.
  - destruct k; reflexivity.
  - destruct k as [|k]; [reflexivity |]. simpl.
    destruct (p c) eqn:Hc; [| lia]. simpl. apply IH. lia.
Qed.

Lemma exec_no_group r : forall st st',
  no_group r = true -> In st' (exec r st) -> m_groups st' = m_groups st.
Proof.
  induction r as [ | | | | s | p lo hi | a IHa b IHb | a IHa b IHb | a IHa | a IHa];
    intros st st' Hng Hin; simpl in *.
  - destruct Hin as [<- | []]. reflexivity.
  - destruct (m_prev st); simpl in Hin; [tauto |]. destruct Hin as [<- | []]. reflexivity.
  - destruct (at_end (m_rest st)); simpl in Hin; [| tauto].
    destruct Hin as [<- | []]. reflexivity.
  - destruct (xorb _ _); simpl in Hin; [| tauto].
    destruct Hin as [<- | []]. reflexivity.
  - destruct (is_prefix s (m_rest st)); simpl in Hin; [| tauto].
    destruct Hin as [<- | []]. apply consume_groups.
  - apply in_map_iff in Hin. destruct Hin as (k & <- & _). apply consume_groups.
  - apply andb_true_iff in Hng. destruct Hng as [Ha Hb].
    apply in_flat_map in Hin. destruct Hin as (mid & Hmid & Hin).
    rewrite (IHb _ _ Hb Hin). apply (IHa _ _ Ha Hmid).
  - apply andb_true_iff in Hng. destruct Hng as [Ha Hb].
    apply in_app_or in Hin. destruct Hin as [Hin | Hin]; eauto.
  - apply in_app_or in Hin. destruct Hin as [Hin | [<- | []]]; eauto.
  - discriminate.
Qed.

Lemma exec_shape r : forall sh st st',
  shape r = Some sh -> In st' (exec r st) ->
  exists gs, m_groups st' = m_groups st ++ gs /\ Forall2 fits gs sh.
Proof.
  assert (Hflat : forall q sh st st',
             (if no_group q then Some [] else None) = Some sh ->
             In st' (exec q st) ->
             exists gs, m_groups st' = m_groups st ++ gs /\ Forall2 fits gs sh).
  { intros q sh st st' Hsh Hin. destruct (no_group q) eqn:Hng; [| discriminate].
    injection Hsh as <-. exists []. split; [| constructor].
    rewrite app_nil_r. eapply exec_no_group; eauto. }
  induction r as [ | | | | s | p lo hi | a IHa b IHb | a IHa b IHb | a IHa | a IHa];
    intros sh st st' Hsh Hin;
    try (match type of Hsh with shape ?q = _ => exact (Hflat q _ _ _ Hsh Hin) end).
  - simpl in Hsh.
    destruct (shape a) as [x|] eqn:Ha; [| discriminate].
    destruct (shape b) as [y|] eqn:Hb; [| discriminate].
    injection Hsh as <-. simpl in Hin.
    apply in_flat_map in Hin. destruct Hin as (mid & Hmid & Hin).
    destruct (IHa _ _ _ eq_refl Hmid) as (g1 & E1 & F1).
    destruct (IHb _ _ _ eq_refl Hin) as (g2 & E2 & F2).
    exists (g1 ++ g2). split.
    + rewrite E2, E1, app_assoc. reflexivity.
    + apply Forall2_app; assumption.
  - destruct a; try discriminate. simpl in Hsh. injection Hsh as <-.
    simpl in Hin. apply in_map_iff in Hin. destruct Hin as (mid & <- & Hmid).
    apply in_map_iff in Hmid. destruct Hmid as (k & <- & Hk).
    apply in_down_to in Hk. simpl. rewrite consume_groups, consume_rest.
    eexists. split; [reflexivity |]. constructor; [| constructor].
    set (n := count_prefix p (m_rest st)) in *.
    assert (Hkn : (k <= n)%nat) by (destruct hi; lia).
    pose proof (count_prefix_le p (m_rest st)) as Hle. fold n in Hle.
    rewrite length_skipn.
    replace (length (m_rest st) - (length (m_rest st) - k))%nat with k by lia.
    split; simpl.
    + apply firstn_count_prefix. exact Hkn.
    + rewrite length_firstn. lia.
Qed.

Lemma re_match_shape r sh s m :
  shape r = Some sh -> re_match r s = Some m -> Forall2 fits m sh.
Proof.
  unfold re_match. intros Hsh Hm.
  destruct (exec r (MState None s [])) as [|st' l] eqn:E; [discriminate |].
  simpl in Hm. injection Hm as <-.
  destruct (exec_shape r sh (MState None s []) st' Hsh) as (gs & Eg & F).
  { rewrite E. left. reflexivity. }
  simpl in Eg. rewrite Eg. exact F.
Qed.

Lemma int_digits g lo :
  fits g (is_digit, S lo) -> int g = Returns (decimal g).
Proof.
  intros [Hd Hl]. simpl in *. unfold int.
  destruct g; [simpl in Hl; lia |]. rewrite Hd. reflexivity.
Qed.

(* ================================================================= *)
(** ** The date parser *)

Lemma or_else_returns {A} (a b : outcome (option A)) :
  (exists r, a = Returns r) -> (exists r, b = Returns r) ->
  exists r, or_else a b = Returns r.
Proof.
  intros [ra ->] [rb ->]. unfold or_else. simpl.
  destruct ra; eexists; reflexivity.
Qed.

Lemma month_lookup_returns months y mon d :
  exists r, month_lookup months y mon d = Returns r.
Proof.
  unfold month_lookup, od_mem, od_item.
  destruct (od_get months mon); simpl; eexists; reflexivity.
Qed.

Lemma numeric_block_returns r (body : list str -> outcome (option date)) lo1 lo2 lo3 s :
  shape r = Some [(is_digit, S lo1); (is_digit, S lo2); (is_digit, S lo3)] ->
  body = year_month_day \/ body = day_month_year ->
  exists x, if_match (re_match r s) body = Returns x.
Proof.
  intros Hsh Hbody. unfold if_match.
  destruct (re_match r s) as [m|] eqn:E; [| eexists; reflexivity].
  apply (re_match_shape _ _ _ _ Hsh) in E.
  inversion E as [| g1 c1 l1 k1 F1 E1]; subst; clear E.
  inversion E1 as [| g2 c2 l2 k2 F2 E2]; subst; clear E1.
  inversion E2 as [| g3 c3 l3 k3 F3 E3]; subst; clear E2.
  inversion E3; subst; clear E3.
  destruct Hbody as [-> | ->]; unfold year_month_day, day_month_year;
    simpl; rewrite (int_digits _ _ F1); simpl;
    rewrite (int_digits _ _ F2); simpl;
    rewrite (int_digits _ _ F3); simpl; eexists; reflexivity.
Qed.

Lemma named_block_returns r (body : list str -> outcome (option date)) s :
  (exists p lo1 lo2,
      shape r = Some [(is_digit, S lo1); (p, 1%nat); (is_digit, S lo2)]
      /\ (body = day_name_year \/ body = V1.day_name_year))
  \/ (exists p lo1 lo2,
         shape r = Some [(p, 1%nat); (is_digit, S lo1); (is_digit, S lo2)]
         /\ (body = name_day_year \/ body = V1.name_day_year)) ->
  exists x, if_match (re_match r s) body = Returns x.
Proof.
  intros H. unfold if_match.
  destruct (re_match r s) as [m|] eqn:E; [| eexists; reflexivity].
  destruct H as [(p & lo1 & lo2 & Hsh & Hbody) | (p & lo1 & lo2 & Hsh & Hbody)];
    apply (re_match_shape _ _ _ _ Hsh) in E;
    inversion E as [| g1 c1 l1 k1 F1 E1]; subst; clear E;
    inversion E1 as [| g2 c2 l2 k2 F2 E2]; subst; clear E1;
    inversion E2 as [| g3 c3 l3 k3 F3 E3]; subst; clear E2;
    inversion E3; subst; clear E3;
    destruct Hbody as [-> | ->];
    unfold day_name_year, name_day_year, V1.day_name_year, V1.name_day_year;
    simpl.
  - rewrite (int_digits _ _ F1); simpl. rewrite (int_digits _ _ F3); simpl.
    apply month_lookup_returns.
  - rewrite (int_digits _ _ F1); simpl. rewrite (int_digits _ _ F3); simpl.
    apply month_lookup_returns.
  - rewrite (int_digits _ _ F2); simpl. rewrite (int_digits _ _ F3); simpl.
    apply month_lookup_returns.
  - rewrite (int_digits _ _ F2); simpl. rewrite (int_digits _ _ F3); simpl.
    apply month_lookup_returns.
Qed.

Lemma parse_date_any_returns s : exists r, parse_date_any s = Returns r.
Proof.
  unfold parse_date_any.
  destruct (negb (truthy s)); [eexists; reflexivity |].
  destruct (negb (truthy (strip s))); [eexists; reflexivity |].
  repeat apply or_else_returns; try (eexists; reflexivity).
  - apply (numeric_block_returns _ _ 3 0 0); [reflexivity | tauto].
  - apply (numeric_block_returns _ _ 0 0 1); [reflexivity | tauto].
  - apply named_block_returns. left. exists is_az_dot, 0%nat, 1%nat. split; [reflexivity | tauto].
  - apply named_block_returns. right. exists is_az_dot, 0%nat, 1%nat. split; [reflexivity | tauto].
  - apply named_block_returns. left. exists is_az_dot, 0%nat, 1%nat. split; [reflexivity | tauto].
  - apply (numeric_block_returns _ _ 0 0 1); [reflexivity | tauto].
Qed.

Lemma V1_parse_date_any_returns s : exists r, V1.parse_date_any s = Returns r.
Proof.
  unfold V1.parse_date_any.
  destruct (negb (truthy (strip s))); [eexists; reflexivity |].
  repeat apply or_else_returns; try (eexists; reflexivity).
  - apply (numeric_block_returns _ _ 3 0 0); [reflexivity | tauto].
  - apply (numeric_block_returns _ _ 0 0 1); [reflexivity | tauto].
  - apply named_block_returns. left. exists V1.is_alpha_dot, 0%nat, 1%nat. split; [reflexivity | tauto].
  - apply named_block_returns. right. exists V1.is_alpha_dot, 0%nat, 1%nat. split; [reflexivity | tauto].
  - apply (numeric_block_returns _ _ 0 0 1); [reflexivity | tauto].
Qed.


(** The parser of factuser-v1.py knows the English month names only: it
    gives the same triple for the first four samples and no result for
    the Spanish long form. *)
Lemma V1_parse_date_any_samples :
  V1.parse_date_any (py "2023-02-23") = Returns (Some (2023, 2, 23)%Z)
  /\ V1.parse_date_any (py "23/02/2023") = Returns (Some (2023, 2, 23)%Z)
  /\ V1.parse_date_any (py "23 Feb 2023") = Returns (Some (2023, 2, 23)%Z)
  /\ V1.parse_date_any (py "Feb 23, 2023") = Returns (Some (2023, 2, 23)%Z)
  /\ V1.parse_date_any (py "23 de febrero de 2023") = Returns None.
Proof. repeat split; vm_compute; reflexivity. Qed.

(** C9. The date parser never raises: on every string, in both versions
    of the program, it returns either a triple or nothing; on
    ["not a date"] and on the empty string it returns nothing. *)
Theorem parse_date_any_never_raises :
  (forall s, exists r : option date, parse_date_any s = Returns r)
  /\ (forall s, exists r : option date, V1.parse_date_any s = Returns r)
  /\ parse_date_any (py "not a date") = Returns None
  /\ parse_date_any (py "") = Returns None
  /\ V1.parse_date_any (py "not a date") = Returns None
  /\ V1.parse_date_any (py "") = Returns None.
Proof.
  split; [exact parse_date_any_returns |].
  split; [exact V1_parse_date_any_returns |].
  repeat split; vm_compute; reflexivity.
Qed.

(** *** Numeric day-month-year input *)

Lemma digit_range c : is_digit c = true -> 48 <= c <= 57.
Proof.
  unfold is_digit, in_range. rewrite andb_true_iff, !N.leb_le. tauto.
Qed.

Lemma sep_cases c : is_sep c = true -> c = 46 \/ c = 45 \/ c = 47.
Proof.
  unfold is_sep, mem_chars. change (py ".-/") with [46; 45; 47]. simpl.
  rewrite !orb_true_iff, !N.eqb_eq. intuition discriminate.
Qed.

Lemma plain_range c : plain c -> 45 <= c <= 57.
Proof.
  intros [H | H]; [apply digit_range in H; lia |].
  apply sep_cases in H. lia.
Qed.

Lemma plain_cases c :
  45 <= c <= 57 ->
  In c [45; 46; 47; 48; 49; 50; 51; 52; 53; 54; 55; 56; 57].
Proof.
  intros H. simpl. lia.
Qed.

Ltac by_cases_on_plain H :=
  apply plain_range, plain_cases in H; simpl in H;
  repeat (destruct H as [<- | H]; [reflexivity |]); destruct H.

Lemma plain_not_space c : plain c -> is_space c = false.
Proof. intros H. by_cases_on_plain H. Qed.

Lemma plain_not_comma_tab c : plain c -> is_comma_tab c = false.
Proof. intros H. by_cases_on_plain H. Qed.

Lemma plain_lower c : plain c -> lower_char c = c.
Proof. intros H. by_cases_on_plain H. Qed.

Lemma plain_no_accent c : plain c -> _strip_accents [c] = [c].
Proof. intros H. by_cases_on_plain H. Qed.

Lemma digit_not_space c : is_digit c = true -> is_space c = false.
Proof. intros H. apply plain_not_space. left. exact H. Qed.

Lemma digit_not_sep c : is_digit c = true -> is_sep c = false.
Proof.
  intros H. apply digit_range in H.
  unfold is_sep, mem_chars. change (py ".-/") with [46; 45; 47]. simpl.
  rewrite !orb_false_iff, !N.eqb_neq. lia.
Qed.

Lemma sep_not_digit c : is_sep c = true -> is_digit c = false.
Proof. intros H. apply sep_cases in H. destruct H as [-> | [-> | ->]]; reflexivity. Qed.

Lemma sep_not_space c : is_sep c = true -> is_space c = false.
Proof. intros H. apply plain_not_space. right. exact H. Qed.

Lemma dropwhile_none p s :
  Forall (fun c => p c = false) s -> dropwhile p s = s.
Proof. intros H. destruct H as [| c t Hc _]; simpl; [| rewrite Hc]; reflexivity. Qed.

Lemma strip_by_none p s :
  Forall (fun c => p c = false) s -> strip_by p s = s.
Proof.
  intros H. unfold strip_by, rstrip_by, lstrip_by.
  rewrite (dropwhile_none p s H).
  rewrite dropwhile_none; [apply rev_involutive |].
  apply List.Forall_forall. intros c Hc. apply in_rev in Hc.
  rewrite List.Forall_forall in H. auto.
Qed.

Lemma sub_from_none p repl s : forall prev,
  Forall (fun c => p c = false) s -> sub_from (plus p) repl 0 prev s = s.
Proof.
  induction s as [|c t IH]; intros prev H; simpl; [reflexivity |].
  inversion H as [| ? ? Hc Ht]; subst.
  unfold match_len. simpl. rewrite Hc. simpl. f_equal. apply IH. exact Ht.
Qed.

Lemma lower_plain s : Forall plain s -> lower s = s.
Proof.
  induction 1 as [| c t Hc _ IH]; simpl; [reflexivity |].
  rewrite (plain_lower c Hc). f_equal. exact IH.
Qed.

Lemma strip_accents_plain s : Forall plain s -> _strip_accents s = s.
Proof.
  induction 1 as [| c t Hc _ IH]; [reflexivity |].
  change (_strip_accents (c :: t)) with (_strip_accents [c] ++ _strip_accents t).
  rewrite (plain_no_accent c Hc), IH. reflexivity.
Qed.

(** The text handed to the patterns is the input itself when the input is
    made of digits and separators only. *)
Lemma normalised_plain s :
  Forall plain s ->
  _strip_accents (lower (strip (re_sub (plus is_comma_tab) (py " ") (strip s)))) = s.
Proof.
  intros H.
  assert (Hsp : Forall (fun c => is_space c = false) s).
  { eapply List.Forall_impl; [| exact H]. apply plain_not_space. }
  assert (Hct : Forall (fun c => is_comma_tab c = false) s).
  { eapply List.Forall_impl; [| exact H]. apply plain_not_comma_tab. }
  unfold strip. rewrite (strip_by_none _ _ Hsp).
  unfold re_sub. rewrite (sub_from_none _ _ _ _ Hct).
  rewrite (strip_by_none _ _ Hsp), (lower_plain _ H).
  apply strip_accents_plain. exact H.
Qed.

Ltac classes :=
  repeat match goal with
  | H : is_digit ?c = true |- context [is_digit ?c] => rewrite H
  | H : is_digit ?c = true |- context [is_space ?c] =>
    rewrite (digit_not_space c H)
  | H : is_digit ?c = true |- context [is_sep ?c] =>
    rewrite (digit_not_sep c H)
  | H : is_sep ?c = true |- context [is_sep ?c] => rewrite H
  | H : is_sep ?c = true |- context [is_digit ?c] =>
    rewrite (sep_not_digit c H)
  | H : is_sep ?c = true |- context [is_space ?c] =>
    rewrite (sep_not_space c H)
  end.

Ltac run_pattern := repeat (progress (simpl; classes)).

Ltac split_digits :=
  repeat match goal with
  | H : forallb is_digit _ = true |- _ => progress simpl in H
  | H : _ && _ = true |- _ => apply andb_true_iff in H; destruct H
  end.

Section NumericForm.
Local Opaque is_digit is_space is_sep decimal.

Lemma dmy_matches D M Y s1 s2 :
  forallb is_digit D = true -> (1 <= length D <= 2)%nat ->
  forallb is_digit M = true -> (1 <= length M <= 2)%nat ->
  forallb is_digit Y = true -> length Y = 4%nat ->
  is_sep s1 = true -> is_sep s2 = true ->
  re_match re_ymd (D ++ s1 :: M ++ s2 :: Y) = None
  /\ re_match re_dmy (D ++ s1 :: M ++ s2 :: Y) = Some [D; M; Y].
Proof.
  intros HD LD HM LM HY LY H1 H2.
  destruct D as [|d1 [|d2 [|]]]; simpl in LD; try lia;
    destruct M as [|m1 [|m2 [|]]]; simpl in LM; try lia;
    destruct Y as [|y1 [|y2 [|y3 [|y4 [|]]]]]; simpl in LY; try lia;
    split_digits; unfold re_match, re_ymd, re_dmy, cat, star, rep, one;
    split; run_pattern; reflexivity.
Qed.
End NumericForm.

Lemma day_month_year_digits D M Y :
  forallb is_digit D = true -> (1 <= length D)%nat ->
  forallb is_digit M = true -> (1 <= length M)%nat ->
  forallb is_digit Y = true -> (1 <= length Y)%nat ->
  day_month_year [D; M; Y]
  = Returns (Some (two_digit_year (decimal Y), decimal M, decimal D)).
Proof.
  intros HD LD HM LM HY LY. unfold day_month_year. simpl.
  rewrite (int_digits D 0) by (split; simpl; assumption). simpl.
  rewrite (int_digits M 0) by (split; simpl; assumption). simpl.
  rewrite (int_digits Y 0) by (split; simpl; assumption). reflexivity.
Qed.

Lemma Forall_plain_digits s : forallb is_digit s = true -> Forall plain s.
Proof.
  rewrite forallb_forall. intros H. apply List.Forall_forall. intros c Hc.
  left. auto.
Qed.

(** C10, as the code has it. The parser checks no calendar range: an input
    [D sep M sep YYYY] with one or two digits for [D] and for [M], four
    digits for the year and separators among [.], [-] and [/] gives the
    triple of the three numbers, whatever they are, except that a year
    below 100 (four digits with leading zeros) is moved to 2000 + year. *)
Theorem parse_date_any_day_month_year D M Y s1 s2 :
  forallb is_digit D = true -> (1 <= length D <= 2)%nat ->
  forallb is_digit M = true -> (1 <= length M <= 2)%nat ->
  forallb is_digit Y = true -> length Y = 4%nat ->
  is_sep s1 = true -> is_sep s2 = true ->
  parse_date_any (D ++ s1 :: M ++ s2 :: Y)
  = Returns (Some (if (decimal Y <? 100)%Z then (decimal Y + 2000)%Z
                   else decimal Y,
                   decimal M, decimal D)).
Proof.
  intros HD LD HM LM HY LY H1 H2.
  assert (Hplain : Forall plain (D ++ s1 :: M ++ s2 :: Y)).
  { apply List.Forall_app. split; [apply Forall_plain_digits; exact HD |].
    constructor; [right; exact H1 |].
    apply List.Forall_app. split; [apply Forall_plain_digits; exact HM |].
    constructor; [right; exact H2 |]. apply Forall_plain_digits; exact HY. }
  destruct (dmy_matches D M Y s1 s2 HD LD HM LM HY LY H1 H2) as [E1 E2].
  unfold parse_date_any.
  assert (Hne : truthy (D ++ s1 :: M ++ s2 :: Y) = true).
  { destruct D; [simpl in LD; lia | reflexivity]. }
  rewrite Hne. simpl negb. cbv iota.
  assert (Hsp : Forall (fun c => is_space c = false) (D ++ s1 :: M ++ s2 :: Y)).
  { eapply List.Forall_impl; [| exact Hplain]. apply plain_not_space. }
  pose proof (strip_by_none _ _ Hsp) as Hstrip. fold (strip (D ++ s1 :: M ++ s2 :: Y)) in Hstrip.
  rewrite (normalised_plain _ Hplain). rewrite Hstrip, Hne. simpl negb. cbv iota.
  rewrite E1, E2. unfold if_match at 1 2.
  rewrite day_month_year_digits by (assumption || lia).
  reflexivity.
Qed.

Lemma parse_date_any_day_month_year_witness :
  forallb is_digit (py "99") = true /\ (1 <= length (py "99") <= 2)%nat
  /\ forallb is_digit (py "2099") = true /\ length (py "2099") = 4%nat
  /\ is_sep (ch "/") = true
  /\ parse_date_any (py "99" ++ ch "/" :: py "99" ++ ch "/" :: py "2099")
     = Returns (Some (2099, 99, 99)%Z).
Proof.
  split; [reflexivity |]. split; [simpl; lia |]. split; [reflexivity |].
  split; [reflexivity |]. split; [reflexivity |].
  apply (parse_date_any_day_month_year (py "99") (py "99") (py "2099")
           (ch "/") (ch "/"));
    try reflexivity; simpl; lia.
Defined.

(** The claim as worded fails on a year written with leading zeros:
    [1/1/0050] is of the form [D sep M sep YYYY], yet the year of the
    result is 2050, not 50. *)
Lemma parse_date_any_leading_zero_year :
  parse_date_any (py "1/1/0050") = Returns (Some (2050, 1, 1)%Z)
  /\ parse_date_any (py "1/1/0050")
     <> Returns (Some (decimal (py "0050"), decimal (py "1"), decimal (py "1"))).
Proof. split; [vm_compute; reflexivity | vm_compute; discriminate]. Qed.

(* ================================================================= *)
(** ** The provider canonicaliser *)

(** Case, punctuation and the legal form make no difference. *)
Example normalize_provider_acme :
  normalize_provider (py "Acme GmbH") = py "acme"
  /\ normalize_provider (py "ACME Gmbh.") = py "acme"
  /\ normalize_provider (py "Société Générale S.A. & Co")
     = py "societe generale s a"
  /\ normalize_provider (py "") = py "".
Proof. repeat split; vm_compute; reflexivity. Qed.

(* ================================================================= *)
(** ** Dictionaries in insertion order *)

Section ODictFacts.
Context {K V : Type} `{EqDecision K}.
Implicit Types (d : odict K V) (k : K) (v : V).

Lemma od_get_set d k v k' :
  od_get (od_set d k v) k' = if decide (k' = k) then Some v else od_get d k'.
Proof.
  induction d as [|[k0 v0] d IH]; simpl.
  - destruct (decide (k' = k)); reflexivity.
  - destruct (decide (k = k0)) as [-> | Hne]; simpl.
    + destruct (decide (k' = k0)); reflexivity.
    + destruct (decide (k' = k0)) as [-> | Hne'].
      * destruct (decide (k0 = k)); [congruence | reflexivity].
      * exact IH.
Qed.

Lemma od_keys_set d k v :
  od_keys (od_set d k v)
  = if od_mem d k then od_keys d else od_keys d ++ [k].
Proof.
  unfold od_mem, od_keys. induction d as [|[k0 v0] d IH]; simpl; [reflexivity |].
  destruct (decide (k = k0)) as [-> | Hne]; simpl; [reflexivity |].
  rewrite IH. destruct (od_get d k); reflexivity.
Qed.

Lemma od_get_In d k v : od_get d k = Some v -> In (k, v) d.
Proof.
  induction d as [|[k0 v0] d IH]; simpl; [discriminate |].
  destruct (decide (k = k0)) as [-> | Hne].
  - intros [= ->]. left. reflexivity.
  - intros H. right. exact (IH H).
Qed.

Lemma od_In_get d k v :
  List.NoDup (od_keys d) -> In (k, v) d -> od_get d k = Some v.
Proof.
  unfold od_keys. induction d as [|[k0 v0] d IH]; simpl; intros Hnd Hin; [destruct Hin |].
  inversion Hnd as [| ? ? Hk0 Hnd']; subst.
  destruct Hin as [[= -> ->] | Hin].
  - destruct (decide (k = k)); [reflexivity | congruence].
  - destruct (decide (k = k0)) as [-> | Hne]; [| exact (IH Hnd' Hin)].
    exfalso. apply Hk0. apply in_map_iff. exists (k0, v). tauto.
Qed.

Lemma od_mem_keys d k : od_mem d k = true <-> In k (od_keys d).
Proof.
  unfold od_mem, od_keys. induction d as [|[k0 v0] d IH]; simpl.
  - split; [discriminate | tauto].
  - destruct (decide (k = k0)) as [-> | Hne]; [tauto |].
    rewrite IH. intuition congruence.
Qed.

Lemma od_keys_set_NoDup d k v :
  List.NoDup (od_keys d) -> List.NoDup (od_keys (od_set d k v)).
Proof.
  intros Hnd. rewrite od_keys_set. destruct (od_mem d k) eqn:E; [exact Hnd |].
  apply List.NoDup_app; [exact Hnd | constructor; [intros [] | constructor] |].
  intros a Ha [<- | []]. apply od_mem_keys in Ha. congruence.
Qed.
End ODictFacts.

(* ================================================================= *)
(** ** Sorting *)

Section SortedFacts.
Context {A : Type} (lt : A -> A -> bool).
Hypothesis lt_asym : forall a b, lt a b = true -> lt b a = false.
Hypothesis ge_trans :
  forall a b c, lt b a = false -> lt c b = false -> lt c a = false.

(** [a] may stand before [b]. *)
Let before (a b : A) : Prop := lt b a = false.

Lemma insert_sorted_perm x l : Permutation (insert_sorted lt x l) (x :: l).
Proof.
  induction l as [|y l IH]; simpl; [reflexivity |].
  destruct (lt y x); [| reflexivity].
  rewrite IH. apply perm_swap.
Qed.

Lemma sorted_perm l : Permutation (sorted lt l) l.
Proof.
  induction l as [|x l IH]; simpl; [reflexivity |].
  rewrite insert_sorted_perm. constructor. exact IH.
Qed.

Lemma insert_sorted_ordered x l :
  StronglySorted before l -> StronglySorted before (insert_sorted lt x l).
Proof.
  induction 1 as [| y l Hl IH Hy]; simpl.
  - constructor; constructor.
  - destruct (lt y x) eqn:E.
    + constructor; [exact IH |].
      rewrite List.Forall_forall in *. intros z Hz.
      apply (Permutation_in _ (insert_sorted_perm x l)) in Hz.
      destruct Hz as [<- | Hz]; [apply lt_asym; exact E | auto].
    + constructor; [constructor; assumption |].
      constructor; [exact E |].
      rewrite List.Forall_forall in *. intros z Hz.
      apply (ge_trans x y z); [exact E | apply Hy; exact Hz].
Qed.

Lemma sorted_ordered l : StronglySorted before (sorted lt l).
Proof.
  induction l as [|x l IH]; simpl; [constructor |].
  apply insert_sorted_ordered. exact IH.
Qed.
End SortedFacts.

Lemma Qltb_lt a b : Qltb a b = true <-> (a < b)%Q.
Proof.
  unfold Qltb. rewrite negb_true_iff. split.
  - intros H. apply Qnot_le_lt. intros Hle.
    apply Qle_bool_iff in Hle. congruence.
  - intros H. destruct (Qle_bool b a) eqn:E; [| reflexivity].
    apply Qle_bool_iff in E. exfalso. exact (Qlt_not_le _ _ H E).
Qed.

Lemma Qltb_ge a b : Qltb a b = false <-> (b <= a)%Q.
Proof.
  unfold Qltb. rewrite negb_false_iff. apply Qle_bool_iff.
Qed.



(* ================================================================= *)
(** ** The record index *)




(** *** The indices as a function of the history *)

Section IndexFacts.
Context {K} `{Countable K}.


End IndexFacts.



(* ================================================================= *)
(** ** Suggestion lists *)

(** *** The history values of a file, most frequent first *)

Lemma count_values_fold k rows : forall cnt : odict str nat,
  List.NoDup (od_keys cnt) ->
  let step := fun (cnt : odict str nat) r =>
                let val := strip (default [] (row_get r k)) in
                if truthy val then od_incr cnt val else cnt in
  List.NoDup (od_keys (fold_left step rows cnt))
  /\ forall v,
      od_get (fold_left step rows cnt) v
      = match length (List.filter (counts_value k v) rows) with
        | O => od_get cnt v
        | n => Some (default O (od_get cnt v) + n)%nat
        end.
Proof.
  induction rows as [|r rest IH]; intros cnt Hnd; cbv zeta.
  - split; [exact Hnd | reflexivity].
  - cbn [fold_left List.filter].
    set (val := strip (default [] (row_get r k))).
    assert (Hnd' : List.NoDup (od_keys (if truthy val then od_incr cnt val else cnt))).
    { destruct (truthy val); [apply od_keys_set_NoDup |]; exact Hnd. }
    destruct (IH _ Hnd') as [H1 H2]. split; [exact H1 |].
    intros v. rewrite H2. unfold counts_value at 2, value_of. fold val.
    destruct (truthy val) eqn:Et; cbn [andb]; [| reflexivity].
    unfold od_incr. rewrite od_get_set.
    destruct (decide (v = val)) as [-> | NE].
    + rewrite bool_decide_eq_true_2 by reflexivity. cbn [length].
      destruct (length (List.filter _ rest)); simpl; f_equal; lia.
    + rewrite bool_decide_eq_false_2 by congruence. reflexivity.
Qed.

Lemma more_common_asym (a b : str * nat) :
  more_common a b = true -> more_common b a = false.
Proof. unfold more_common. rewrite Nat.ltb_lt, Nat.ltb_ge. lia. Qed.

Lemma more_common_trans (a b c : str * nat) :
  more_common b a = false -> more_common c b = false -> more_common c a = false.
Proof. unfold more_common. rewrite !Nat.ltb_ge. lia. Qed.

(** X21 (factuser-v2.py, _csv_top_for_file). [_csv_top_for_file] lists
    each non-blank value of the field among the rows of the file once, a
    value that occurs more often before one that occurs less often. *)
Theorem csv_top_for_file_ranked ix fname k :
  let rows := default [] (seen_by_filename ix !! fname) in
  let freq := fun v => length (List.filter (counts_value k v) rows) in
  let top := _csv_top_for_file ix fname k in
  List.NoDup top
  /\ (forall v, In v top <-> (0 < freq v)%nat)
  /\ StronglySorted (fun a b => (freq b <= freq a)%nat) top.
Proof.
  intros rows freq top. subst top. unfold _csv_top_for_file. fold rows.
  clearbody rows.
  assert (E : match rows with
              | [] => []
              | _ :: _ => List.map fst (most_common (count_values rows k))
              end = List.map fst (most_common (count_values rows k))).
  { destruct rows; reflexivity. }
  rewrite E. clear E.
  destruct (count_values_fold k rows [] (List.NoDup_nil _)) as [Hnd Hget].
  fold (count_values rows k) in Hnd, Hget. cbv zeta in Hnd, Hget.
  change (fold_left _ rows []) with (count_values rows k) in Hnd, Hget.
  set (cnt := count_values rows k) in *.
  pose proof (sorted_perm more_common cnt) as Hperm.
  fold (most_common cnt) in Hperm.
  assert (Hfreq : forall v n, In (v, n) (most_common cnt) -> n = freq v /\ (0 < n)%nat).
  { intros v n Hin. apply (Permutation_in _ Hperm) in Hin.
    apply (od_In_get _ _ _ Hnd) in Hin. rewrite Hget in Hin. subst freq.
    cbv beta. simpl in Hin. destruct (length (List.filter (counts_value k v) rows));
      [discriminate |]. injection Hin as <-. split; [reflexivity | lia]. }
  split.
  { apply (Permutation_NoDup (l := od_keys cnt)); [| exact Hnd].
    unfold od_keys. apply Permutation_map. symmetry. exact Hperm. }
  split.
  { intros v. split.
    - intros Hin. apply in_map_iff in Hin. destruct Hin as ([v' n] & <- & Hin).
      cbn [fst]. destruct (Hfreq _ _ Hin) as [<- Hpos]. exact Hpos.
    - intros Hpos. assert (Hsome : od_get cnt v = Some (freq v)).
      { rewrite Hget. subst freq. cbv beta in *. simpl.
        destruct (length (List.filter (counts_value k v) rows)); [lia | reflexivity]. }
      apply od_get_In in Hsome. apply in_map_iff. exists (v, freq v).
      split; [reflexivity |]. apply (Permutation_in _ (Permutation_sym Hperm)).
      exact Hsome. }
  pose proof (sorted_ordered more_common more_common_asym more_common_trans cnt) as Hs.
  fold (most_common cnt) in Hs.
  assert (Hgen : forall l : list (str * nat),
             StronglySorted (fun a b => more_common b a = false) l ->
             (forall v n, In (v, n) l -> n = freq v) ->
             StronglySorted (fun a b => (freq b <= freq a)%nat) (List.map fst l)).
  { clear. intros l Hl. induction Hl as [| [v n] l' Hl IH Hv]; intros Hf; [constructor |].
    cbn [List.map fst]. constructor.
    - apply IH. intros w m Hw. apply Hf. right. exact Hw.
    - apply List.Forall_forall. intros w Hw. apply in_map_iff in Hw.
      destruct Hw as ([w' m] & <- & Hwin). cbn [fst].
      rewrite List.Forall_forall in Hv. specialize (Hv _ Hwin).
      unfold more_common in Hv. cbn [snd] in Hv. apply Nat.ltb_ge in Hv.
      rewrite <- (Hf v n (or_introl eq_refl)).
      rewrite <- (Hf w' m (or_intror Hwin)). exact Hv. }
  apply Hgen; [exact Hs |]. intros v n Hin. apply (Hfreq v n Hin).
Qed.

(** *** The suggestion list of [populate_ai_from_sources]

    This is the filling that [render_current] uses, and that the replaced
    definition of [run_ai] used. *)

Lemma existsb_str_eqb v l : existsb (str_eqb v) l = true <-> In v l.
Proof.
  rewrite existsb_exists. unfold str_eqb. split.
  - intros (x & Hx & E). apply bool_decide_eq_true in E. subst. exact Hx.
  - intros H. exists v. split; [exact H | apply bool_decide_eq_true; reflexivity].
Qed.

Lemma add_spec v st :
  seen_ok st ->
  seen_ok (add v st) /\ fst (add v st) = spec_append (fst st) (strip v).
Proof.
  intros Hok. unfold add, spec_append.
  destruct (negb (truthy (strip v))) eqn:Et; cbn [orb].
  - split; [exact Hok | reflexivity].
  - destruct (bool_decide_reflect (strip v ∈ snd st)) as [Hin | Hnin].
    + apply Hok in Hin. apply existsb_str_eqb in Hin. rewrite Hin.
      split; [exact Hok | reflexivity].
    + assert (Hex : existsb (str_eqb (strip v)) (fst st) = false).
      { destruct (existsb (str_eqb (strip v)) (fst st)) eqn:E; [| reflexivity].
        apply existsb_str_eqb, Hok in E. contradiction. }
      rewrite Hex. split; [| reflexivity].
      intros w. cbn [fst snd]. rewrite elem_of_union, elem_of_singleton, in_app_iff.
      rewrite (Hok w). simpl. intuition congruence.
Qed.

Lemma add_all_spec vals : forall st,
  seen_ok st ->
  seen_ok (add_all vals st)
  /\ fst (add_all vals st) = fold_left spec_append (List.map strip vals) (fst st).
Proof.
  induction vals as [|v rest IH]; intros st Hok.
  - split; [exact Hok | reflexivity].
  - change (add_all (v :: rest) st) with (add_all rest (add v st)).
    cbn [List.map fold_left].
    destruct (add_spec v st Hok) as [Hok' E].
    destruct (IH _ Hok') as [Hok'' E'']. split; [exact Hok'' |].
    rewrite E'', E. reflexivity.
Qed.

Lemma strip_empty_of_falsy s : truthy s = false -> strip s = [].
Proof. destruct s; [reflexivity | discriminate]. Qed.

(** The items are those of the specification, built from the stripped
    values. *)
Lemma fill_from_sources_refines csv_top ai_vals cur :
  items (fill_from_sources csv_top ai_vals cur)
  = spec_build (List.map strip csv_top) (List.map strip ai_vals) (strip cur).
Proof.
  unfold fill_from_sources, spec_build, spec_candidates. cbn [items].
  assert (H0 : seen_ok ([], ∅)).
  { intros v. cbn [fst snd]. rewrite elem_of_empty. simpl. tauto. }
  destruct (add_all_spec csv_top _ H0) as [H1 E1].
  destruct (add_all_spec ai_vals _ H1) as [H2 E2].
  cbn [fst] in E1. rewrite E1 in E2.
  set (st := add_all ai_vals (add_all csv_top ([], ∅))) in *.
  rewrite <- E2. f_equal.
  destruct (truthy cur) eqn:Ec.
  - destruct (add_spec cur st H2) as [_ E3]. rewrite E3.
    unfold spec_append. destruct (truthy (strip cur)); cbn [negb orb andb].
    + destruct (existsb (str_eqb (strip cur)) (fst st)); reflexivity.
    + reflexivity.
  - rewrite (strip_empty_of_falsy cur Ec). reflexivity.
Qed.

Lemma NoDup_app_disjoint {A} (l1 l2 : list A) :
  List.NoDup (l1 ++ l2) -> forall x, In x l1 -> In x l2 -> False.
Proof.
  induction l1 as [|y l1 IH]; intros Hnd x H1 H2; [destruct H1 |].
  inversion Hnd as [| ? ? Hy Hnd']; subst.
  destruct H1 as [-> | H1]; [| exact (IH Hnd' x H1 H2)].
  apply Hy. apply in_or_app. right. exact H2.
Qed.

Lemma spec_append_fold l : forall acc,
  List.NoDup acc -> Forall (fun v => truthy v = true) acc ->
  let r := fold_left spec_append l acc in
  List.NoDup r /\ Forall (fun v => truthy v = true) r
  /\ (exists more, r = acc ++ more)
  /\ forall v, In v r <-> In v acc \/ (truthy v = true /\ In v l).
Proof.
  induction l as [|x rest IH]; intros acc Hnd Hne; cbn zeta; simpl.
  - repeat split; try assumption; [exists []; symmetry; apply app_nil_r | tauto |].
    intros [H | [_ []]]. exact H.
  - assert (Hstep : List.NoDup (spec_append acc x)
                    /\ Forall (fun v => truthy v = true) (spec_append acc x)
                    /\ (exists more, spec_append acc x = acc ++ more)
                    /\ forall v, In v (spec_append acc x)
                                 <-> In v acc \/ (truthy v = true /\ v = x)).
    { unfold spec_append. destruct (truthy x) eqn:Ex; cbn [negb orb].
      - destruct (existsb (str_eqb x) acc) eqn:E.
        + apply existsb_str_eqb in E. repeat split; try assumption.
          * exists []. symmetry. apply app_nil_r.
          * tauto.
          * intros [H | [_ ->]]; assumption.
        + assert (Hnin : ~ In x acc).
          { intros H. apply existsb_str_eqb in H. congruence. }
          repeat split.
          * apply List.NoDup_app; [exact Hnd | |].
            -- constructor; [intros [] | constructor].
            -- intros y Hy [<- | []]. contradiction.
          * apply List.Forall_app. split; [exact Hne | repeat constructor; exact Ex].
          * exists [x]. reflexivity.
          * rewrite in_app_iff. simpl. intuition (subst; auto).
          * rewrite in_app_iff. simpl. intuition (subst; auto).
      - repeat split; try assumption.
        + exists []. symmetry. apply app_nil_r.
        + tauto.
        + intros [H | [Hv ->]]; [exact H | congruence]. }
    destruct Hstep as (Hnd' & Hne' & (m1 & Em1) & Hin').
    destruct (IH _ Hnd' Hne') as (Hnd'' & Hne'' & (m2 & Em2) & Hin'').
    repeat split; try assumption.
    + exists (m1 ++ m2). rewrite Em2, Em1, app_assoc. reflexivity.
    + intros H. apply Hin'' in H. rewrite Hin' in H. intuition (subst; auto).
    + intros H. apply Hin''. rewrite Hin'. intuition (subst; auto).
Qed.

(** X22 (factuser-v2.py, populate_ai_from_sources). The suggestion list
    as [populate_ai_from_sources] fills it: the list is a candidate prefix
    followed by the two markers; the prefix has no duplicates and no empty
    entry; it holds exactly the non-blank values of the three sources
    (stripped);
    the history values come first, in their order of first occurrence,
    then the new AI values, then the current value if it is new. *)
Theorem fill_from_sources_candidates csv_top ai_vals cur :
  let h := List.map strip csv_top in
  let a := List.map strip ai_vals in
  let c := strip cur in
  exists from_history from_ai from_current,
    items (fill_from_sources csv_top ai_vals cur)
    = (from_history ++ from_ai ++ from_current)
        ++ [LEAVE_UNCHANGED; CLEAR_FIELD]
    /\ List.NoDup (from_history ++ from_ai ++ from_current)
    /\ Forall (fun v => truthy v = true) (from_history ++ from_ai ++ from_current)
    /\ from_history = fold_left spec_append h []
    /\ (forall v, In v from_history <-> truthy v = true /\ In v h)
    /\ (forall v, In v from_ai
                  <-> truthy v = true /\ In v a /\ ~ In v h)
    /\ (forall v, In v from_current
                  <-> truthy v = true /\ v = c /\ ~ In v h /\ ~ In v a).
Proof.
  intros h a c. rewrite fill_from_sources_refines.
  fold h a c. unfold spec_build, spec_candidates.
  destruct (spec_append_fold h [] (List.NoDup_nil _) (List.Forall_nil _))
    as (Hnd1 & Hne1 & _ & Hin1).
  set (H := fold_left spec_append h []) in *.
  destruct (spec_append_fold a H Hnd1 Hne1) as (Hnd2 & Hne2 & (A & EA) & Hin2).
  assert (HinH : forall v, In v H <-> truthy v = true /\ In v h).
  { intros v. rewrite Hin1. simpl. tauto. }
  assert (HinA : forall v, In v A <-> truthy v = true /\ In v a /\ ~ In v h).
  { intros v. rewrite EA in Hnd2.
    pose proof (NoDup_app_disjoint _ _ Hnd2) as Hdisj.
    specialize (Hin2 v). rewrite EA, in_app_iff in Hin2. rewrite HinH in Hin2.
    split.
    - intros HA. assert (~ In v H) by (intros HH; exact (Hdisj v HH HA)).
      rewrite HinH in *. intuition.
    - intros (Hv & Ha & Hh). destruct Hin2 as [_ Hin2].
      destruct Hin2 as [[_ Hh'] | HA]; [right; tauto | contradiction | exact HA]. }
  assert (Hshape : forall cs,
             (H ++ A) ++ cs = H ++ A ++ cs) by (intros; symmetry; apply app_assoc).
  rewrite EA.
  destruct (truthy c) eqn:Ec; cbn [andb].
  - destruct (existsb (str_eqb c) (H ++ A)) eqn:E; cbn [negb].
    + apply existsb_str_eqb in E.
      exists H, A, []. rewrite app_nil_r, <- EA.
      split; [reflexivity |]. split; [exact Hnd2 |]. split; [exact Hne2 |].
      split; [reflexivity |]. split; [exact HinH |]. split; [exact HinA |].
      intros v. split; [intros [] |].
      intros (_ & -> & Hh & Ha). apply in_app_iff in E.
      rewrite HinH, HinA in E. tauto.
    + assert (Hnin : ~ In c (H ++ A)).
      { intros Hc. apply existsb_str_eqb in Hc. congruence. }
      exists H, A, [c]. rewrite <- (Hshape [c]), <- EA.
      split; [reflexivity |].
      split.
      { apply List.NoDup_app; [exact Hnd2 | |].
        - constructor; [intros [] | constructor].
        - intros y Hy [<- | []]. rewrite EA in Hy. contradiction. }
      split.
      { apply List.Forall_app. split; [exact Hne2 |].
        constructor; [exact Ec | constructor]. }
      split; [reflexivity |]. split; [exact HinH |]. split; [exact HinA |].
      intros v. split.
      * intros [<- | []].
        split; [exact Ec |]. split; [reflexivity |]. split.
        -- intros Hh. apply Hnin, in_app_iff. left. apply HinH. tauto.
        -- intros Ha. apply Hnin, in_app_iff.
           destruct (List.in_dec (List.list_eq_dec N.eq_dec) c h) as [Hh | Hh].
           ++ left. apply HinH. tauto.
           ++ right. apply HinA. tauto.
      * intros (_ & -> & _). left. reflexivity.
  - exists H, A, []. rewrite app_nil_r, <- EA.
    split; [reflexivity |]. split; [exact Hnd2 |]. split; [exact Hne2 |].
    split; [reflexivity |]. split; [exact HinH |]. split; [exact HinA |].
    intros v. split; [intros [] |].
    intros (Hv & -> & _). congruence.
Qed.

(** *** The default index *)

Lemma findText_spec its t :
  In t its ->
  (0 <= findText its t < Z.of_nat (length its))%Z
  /\ itemText its (Z.to_nat (findText its t)) = t.
Proof.
  induction its as [|i rest IH]; intros Hin; [destruct Hin |].
  cbn [findText]. unfold str_eqb. destruct (bool_decide_reflect (i = t)) as [-> | Hne].
  - split; [simpl length; lia | reflexivity].
  - destruct Hin as [-> | Hin]; [congruence |].
    destruct (IH Hin) as [Hr Ht].
    destruct (Z.ltb_spec (findText rest t) 0); [lia |].
    split; [simpl length; lia |].
    replace (Z.to_nat (findText rest t + 1)) with (S (Z.to_nat (findText rest t))) by lia.
    exact Ht.
Qed.

(** C8. With no history value, no AI candidate and no current value the
    list is exactly [leave-unchanged; clear-field] and the default index
    points at leave-unchanged. In general the list is never empty, the
    default index is 0 when the first entry is not a control marker, and
    is otherwise the index [findText] gives for leave-unchanged, which
    holds that very entry. *)
Theorem default_selection_index :
  fill_from_sources [] [] [] = Combo [LEAVE_UNCHANGED; CLEAR_FIELD] 0
  /\ (forall a fname k,
         populate_ai_from_sources a fname k
         = fill_from_sources
             (_csv_top_for_file (indices a) fname k)
             (default [] (od_get (default [] (ai_cache a !! fname)) k))
             (current_value_for (fields a) k))
  /\ forall csv_top ai_vals cur,
      let c := fill_from_sources csv_top ai_vals cur in
      exists first rest,
        items c = first :: rest
        /\ currentIndex c
           = (if is_marker first then findText (items c) LEAVE_UNCHANGED
              else 0%Z)
        /\ (0 <= currentIndex c < Z.of_nat (length (items c)))%Z
        /\ (if is_marker first
            then itemText (items c) (Z.to_nat (currentIndex c)) = LEAVE_UNCHANGED
            else itemText (items c) 0 = first).
Proof.
  split; [vm_compute; reflexivity |]. split; [reflexivity |].
  intros csv_top ai_vals cur c. subst c. unfold fill_from_sources.
  set (st := if truthy cur then _ else _).
  cbn [items currentIndex].
  set (its := fst st ++ [LEAVE_UNCHANGED] ++ [CLEAR_FIELD]).
  assert (Hin : In LEAVE_UNCHANGED its).
  { unfold its. apply in_or_app. right. left. reflexivity. }
  destruct (findText_spec its LEAVE_UNCHANGED Hin) as [Hr Ht].
  destruct its as [|first rest] eqn:E; [destruct Hin |].
  exists first, rest. split; [reflexivity |].
  cbn [length Nat.ltb Nat.leb itemText nth andb].
  change (0 <? S (length rest))%nat with true. cbn [andb].
  simpl length in Hr.
  destruct (is_marker first); cbn [negb].
  - split; [reflexivity |]. split; [exact Hr | exact Ht].
  - split; [reflexivity |]. split; [lia | reflexivity].
Qed.

(** *** The filling that [run_ai] uses *)

(** C1. [run_ai] refills the combos through [populate_ai_from_cache]: the
    history value of the file is left out and nothing is skipped, so the
    provider list of the sample is Acme, Acme, Acme and the two markers,
    where [populate_ai_from_sources] (the filling that the earlier
    definition of [run_ai] used and [render_current] still uses) gives
    Beta, Acme and the two markers. *)
Theorem run_ai_list_not_built_from_sources :
  items (snd (run_ai sample_app (py "a.pdf") sample_entities) Kprovider)
  = [py "Acme"; py "Acme"; py "Acme"; LEAVE_UNCHANGED; CLEAR_FIELD]
  /\ items (snd (Shadowed.run_ai sample_app (py "a.pdf") sample_entities)
                Kprovider)
     = [py "Beta"; py "Acme"; LEAVE_UNCHANGED; CLEAR_FIELD].
Proof. split; vm_compute; reflexivity. Qed.

(** C7. After [run_ai] the candidate prefix of the provider list of the
    sample holds the same entry three times. *)
Theorem run_ai_list_has_duplicates :
  exists prefix,
    items (snd (run_ai sample_app (py "a.pdf") sample_entities) Kprovider)
    = prefix ++ [LEAVE_UNCHANGED; CLEAR_FIELD]
    /\ ~ List.NoDup prefix.
Proof.
  exists [py "Acme"; py "Acme"; py "Acme"]. split; [vm_compute; reflexivity |].
  intros H. inversion H as [| x l Hnotin _]; subst.
  apply Hnotin. left. reflexivity.
Qed.

(* ================================================================= *)
(** ** Rubber-band selection *)

Lemma strip_tight t : tight t = true -> strip t = t /\ truthy t = true.
Proof.
  unfold tight. rewrite andb_true_iff. intros [Ha Hb].
  destruct t as [|a u]; [discriminate |]. split; [| reflexivity].
  unfold strip, strip_by, lstrip_by, rstrip_by.
  apply negb_true_iff in Ha. cbn [dropwhile]. rewrite Ha.
  destruct (rev (a :: u)) as [|b v] eqn:E; [discriminate |].
  apply negb_true_iff in Hb. cbn [dropwhile]. rewrite Hb, <- E.
  apply rev_involutive.
Qed.





(** On the sample page the band covers both lines; the words of the first
    line come first although the second line starts further left. *)
Example on_pdf_box_two_lines :
  on_pdf_box fitz_intersects (3 # 2) sample_page (QRect 0 140 300 200)
  = Some (py "Invoice 17 Amount due").
Proof. vm_compute. reflexivity. Qed.

(* ================================================================= *)
(** ** Click selection

    First the replaced definition of [on_pdf_click] (line 675), then the
    definition in force (line 1057). *)

(** *** Scans for a least element *)

(** The scan keeps the first element whose key is least: every element
    before it has a greater key, every element after it a key at least as
    great. *)
Lemma scan_min {A} (f : A -> Q) l : forall pre a mid,
  Forall (fun v => (f a < f v)%Q) pre ->
  Forall (fun v => (f a <= f v)%Q) mid ->
  let m := fold_left (fun m v => if Qltb (f v) (f m) then v else m) l a in
  exists l1 l2,
    pre ++ a :: mid ++ l = l1 ++ m :: l2
    /\ Forall (fun v => (f m < f v)%Q) l1
    /\ Forall (fun v => (f m <= f v)%Q) l2.
Proof.
  induction l as [|v rest IH]; intros pre a mid Hpre Hmid; cbn zeta; simpl.
  - exists pre, mid. rewrite app_nil_r. tauto.
  - destruct (Qltb (f v) (f a)) eqn:E.
    + apply Qltb_lt in E.
      destruct (IH (pre ++ a :: mid) v []) as (l1 & l2 & E12 & H1 & H2).
      * apply List.Forall_app. split.
        -- eapply List.Forall_impl; [| exact Hpre]. intros u Hu.
           eapply Qlt_trans; eassumption.
        -- constructor; [exact E |].
           eapply List.Forall_impl; [| exact Hmid]. intros u Hu.
           eapply Qlt_le_trans; eassumption.
      * constructor.
      * exists l1, l2. split; [| tauto].
        rewrite <- E12. simpl. rewrite <- app_assoc. reflexivity.
    + apply Qltb_ge in E.
      destruct (IH pre a (mid ++ [v])) as (l1 & l2 & E12 & H1 & H2).
      * exact Hpre.
      * apply List.Forall_app. split; [exact Hmid | constructor; [exact E | constructor]].
      * exists l1, l2. split; [| tauto].
        rewrite <- E12, <- app_assoc. reflexivity.
Qed.

Lemma py_min_by_spec {A} (f : A -> Q) l :
  l <> [] ->
  exists m l1 l2,
    py_min_by f l = Returns m
    /\ l = l1 ++ m :: l2
    /\ Forall (fun v => (f m < f v)%Q) l1
    /\ Forall (fun v => (f m <= f v)%Q) l2.
Proof.
  destruct l as [|a rest]; [congruence |]. intros _.
  destruct (scan_min f rest [] a [] (List.Forall_nil _) (List.Forall_nil _))
    as (l1 & l2 & E & H1 & H2).
  eexists _, l1, l2. split; [reflexivity |]. simpl in E. tauto.
Qed.

(** [min] and [max] of a list of numbers. *)
Lemma py_min_spec l :
  l <> [] ->
  exists m, py_min l = Returns m /\ In m l /\ Forall (fun v => (m <= v)%Q) l.
Proof.
  intros Hne. destruct (py_min_by_spec (fun v => v) l Hne)
    as (m & l1 & l2 & E & El & H1 & H2).
  exists m. split; [destruct l; [congruence | exact E] |].
  subst l. split; [apply in_or_app; right; left; reflexivity |].
  apply List.Forall_app. split.
  - eapply List.Forall_impl; [| exact H1]. intros; apply Qlt_le_weak; assumption.
  - constructor; [apply Qle_refl | exact H2].
Qed.

Lemma py_max_spec l :
  l <> [] ->
  exists m, py_max l = Returns m /\ In m l /\ Forall (fun v => (v <= m)%Q) l.
Proof.
  destruct l as [|a rest]; [congruence |]. intros _. simpl.
  eexists. split; [reflexivity |].
  assert (H : forall l a,
             let m := fold_left (fun m v => if Qltb m v then v else m) l a in
             (a <= m)%Q /\ (m = a \/ In m l) /\ Forall (fun v => (v <= m)%Q) l).
  { clear. induction l as [|v rest IH]; intros a; cbn zeta; simpl.
    - split; [apply Qle_refl |]. split; [left; reflexivity | constructor].
    - destruct (Qltb a v) eqn:E.
      + apply Qltb_lt in E. destruct (IH v) as (H1 & H2 & H3).
        split; [apply Qlt_le_weak; eapply Qlt_le_trans; eassumption |].
        split; [destruct H2 as [-> | H2]; simpl; auto |]. constructor; assumption.
      + apply Qltb_ge in E. destruct (IH a) as (H1 & H2 & H3).
        split; [exact H1 |]. split; [destruct H2 as [-> | H2]; simpl; auto |].
        constructor; [eapply Qle_trans; eassumption | exact H3]. }
  destruct (H rest a) as (H1 & H2 & H3).
  split; [destruct H2 as [-> | H2]; simpl; auto |]. constructor; assumption.
Qed.

(** *** Grouping by line *)

Lemma group_by_line_fold words :
  group_by_line words = fold_left group_step words [].
Proof. reflexivity. Qed.

Lemma group_fold_get words : forall d k,
  od_get (fold_left group_step words d) k
  = match List.filter (on_line k) words with
    | [] => od_get d k
    | l => Some (default [] (od_get d k) ++ l)
    end.
Proof.
  induction words as [|w rest IH]; intros d k; [reflexivity |].
  cbn [fold_left List.filter]. rewrite IH.
  unfold group_step. rewrite od_get_set.
  unfold on_line at 2.
  destruct (decide (k = key_of w)) as [-> | Hne].
  - rewrite bool_decide_eq_true_2 by reflexivity.
    destruct (List.filter (on_line (key_of w)) rest); simpl;
      [reflexivity | rewrite <- app_assoc; reflexivity].
  - rewrite bool_decide_eq_false_2 by congruence. reflexivity.
Qed.

Lemma group_fold_keys words : forall d,
  List.NoDup (od_keys d) -> List.NoDup (od_keys (fold_left group_step words d)).
Proof.
  induction words as [|w rest IH]; intros d Hnd; simpl; [exact Hnd |].
  apply IH. apply od_keys_set_NoDup. exact Hnd.
Qed.

(** The groups are the lines of the page: the group of a key holds the
    words of that line, in their order on the page, and is not empty. *)
Lemma group_by_line_groups words k ws :
  In (k, ws) (group_by_line words) <->
  ws = List.filter (on_line k) words /\ ws <> [].
Proof.
  rewrite group_by_line_fold. split.
  - intros Hin.
    apply (od_In_get _ _ _ (group_fold_keys words [] (List.NoDup_nil _))) in Hin.
    rewrite group_fold_get in Hin. simpl in Hin.
    destruct (List.filter (on_line k) words); [discriminate |].
    injection Hin as <-. split; [reflexivity | discriminate].
  - intros [-> Hne]. apply od_get_In. rewrite group_fold_get. simpl.
    destruct (List.filter (on_line k) words); [congruence | reflexivity].
Qed.

Lemma group_fold_order words : forall d,
  od_keys (fold_left group_step words d)
  = first_seen (List.map key_of words) (od_keys d).
Proof.
  induction words as [|w rest IH]; intros d; simpl; [reflexivity |].
  rewrite IH. unfold group_step. rewrite od_keys_set. f_equal.
  destruct (od_mem d (key_of w)) eqn:E.
  - apply od_mem_keys in E.
    replace (existsb _ (od_keys d)) with true; [reflexivity |].
    symmetry. apply existsb_exists. exists (key_of w).
    split; [exact E | apply bool_decide_eq_true; reflexivity].
  - replace (existsb _ (od_keys d)) with false; [reflexivity |].
    symmetry. apply not_true_is_false. intros H.
    apply existsb_exists in H. destruct H as (k' & Hk' & Ek).
    apply bool_decide_eq_true in Ek. subst k'.
    apply od_mem_keys in Hk'. congruence.
Qed.

Lemma group_by_line_order words :
  od_keys (group_by_line words) = first_seen (List.map key_of words) [].
Proof. rewrite group_by_line_fold. apply group_fold_order. Qed.

(** *** The nearest line *)

(** The distance is taken from the middle between the least [y0] and the
    greatest [y1] of the line. *)
Lemma line_distance_spec pdf_y ws :
  ws <> [] ->
  exists lo hi,
    line_distance pdf_y ws = Returns (Qabs ((lo + hi) / 2 - pdf_y))
    /\ In lo (List.map y0 ws) /\ Forall (fun v => (lo <= v)%Q) (List.map y0 ws)
    /\ In hi (List.map y1 ws) /\ Forall (fun v => (v <= hi)%Q) (List.map y1 ws).
Proof.
  intros Hne.
  assert (H0 : List.map y0 ws <> []) by (destruct ws; [congruence | discriminate]).
  assert (H1 : List.map y1 ws <> []) by (destruct ws; [congruence | discriminate]).
  destruct (py_min_spec _ H0) as (lo & Elo & Hlo).
  destruct (py_max_spec _ H1) as (hi & Ehi & Hhi).
  exists lo, hi. unfold line_distance. rewrite Elo, Ehi. simpl. tauto.
Qed.

Lemma line_distance_returns pdf_y ws :
  ws <> [] -> line_distance pdf_y ws = Returns (dist_of pdf_y ws).
Proof.
  intros Hne. destruct (line_distance_spec pdf_y ws Hne) as (lo & hi & E & _).
  unfold dist_of. rewrite E. reflexivity.
Qed.

Section NearestLine.
Variable pdf_y : Q.
Let dist (kv : line_key * list word) : Q := dist_of pdf_y (snd kv).

Lemma nearest_line_from_some its : forall pre k ws mid,
  Forall (fun kv => snd kv <> []) its ->
  Forall (fun kv => (dist (k, ws) < dist kv)%Q) pre ->
  Forall (fun kv => (dist (k, ws) <= dist kv)%Q) mid ->
  exists k' ws' l1 l2,
    nearest_line pdf_y its (Some k, dist (k, ws))
    = Returns (Some k', dist (k', ws'))
    /\ pre ++ (k, ws) :: mid ++ its = l1 ++ (k', ws') :: l2
    /\ Forall (fun kv => (dist (k', ws') < dist kv)%Q) l1
    /\ Forall (fun kv => (dist (k', ws') <= dist kv)%Q) l2
    /\ (dist (k', ws') <= dist (k, ws))%Q.
Proof.
  induction its as [|[k1 ws1] rest IH]; intros pre k ws mid Hne Hpre Hmid.
  - exists k, ws, pre, mid. simpl. rewrite app_nil_r.
    repeat split; try assumption. apply Qle_refl.
  - inversion Hne as [| ? ? Hne1 Hne']; subst. simpl in Hne1.
    cbn [nearest_line]. rewrite (line_distance_returns _ _ Hne1). cbn [bind snd].
    change (dist_of pdf_y ws1) with (dist (k1, ws1)).
    destruct (Qltb (dist (k1, ws1)) (dist (k, ws))) eqn:E.
    + apply Qltb_lt in E.
      destruct (IH (pre ++ (k, ws) :: mid) k1 ws1 [] Hne')
        as (k' & ws' & l1 & l2 & Er & El & H1 & H2 & H3).
      * apply List.Forall_app. split.
        -- eapply List.Forall_impl; [| exact Hpre]. intros u Hu.
           eapply Qlt_trans; eassumption.
        -- constructor; [exact E |].
           eapply List.Forall_impl; [| exact Hmid]. intros u Hu.
           eapply Qlt_le_trans; eassumption.
      * constructor.
      * exists k', ws', l1, l2. split; [exact Er |].
        split; [rewrite <- El; simpl; rewrite <- app_assoc; reflexivity |].
        split; [exact H1 |]. split; [exact H2 |].
        apply Qlt_le_weak. eapply Qle_lt_trans; eassumption.
    + apply Qltb_ge in E.
      destruct (IH pre k ws (mid ++ [(k1, ws1)]) Hne' Hpre)
        as (k' & ws' & l1 & l2 & Er & El & H1 & H2 & H3).
      * apply List.Forall_app. split; [exact Hmid | constructor; [exact E | constructor]].
      * exists k', ws', l1, l2. split; [exact Er |].
        split; [rewrite <- El, <- app_assoc; reflexivity | tauto].
Qed.

Lemma nearest_line_from_none its : forall pre,
  Forall (fun kv => snd kv <> []) its ->
  Forall (fun kv => (huge <= dist kv)%Q) pre ->
  (nearest_line pdf_y its (None, huge) = Returns (None, huge)
   /\ Forall (fun kv => (huge <= dist kv)%Q) (pre ++ its))
  \/ exists k' ws' l1 l2,
      nearest_line pdf_y its (None, huge) = Returns (Some k', dist (k', ws'))
      /\ pre ++ its = l1 ++ (k', ws') :: l2
      /\ Forall (fun kv => (dist (k', ws') < dist kv)%Q) l1
      /\ Forall (fun kv => (dist (k', ws') <= dist kv)%Q) l2
      /\ (dist (k', ws') < huge)%Q.
Proof.
  induction its as [|[k1 ws1] rest IH]; intros pre Hne Hpre.
  - left. rewrite app_nil_r. split; [reflexivity | exact Hpre].
  - inversion Hne as [| ? ? Hne1 Hne']; subst. simpl in Hne1.
    cbn [nearest_line]. rewrite (line_distance_returns _ _ Hne1). cbn [bind snd].
    change (dist_of pdf_y ws1) with (dist (k1, ws1)).
    destruct (Qltb (dist (k1, ws1)) huge) eqn:E.
    + apply Qltb_lt in E. right.
      destruct (nearest_line_from_some rest pre k1 ws1 [] Hne')
        as (k' & ws' & l1 & l2 & Er & El & H1 & H2 & H3).
      * eapply List.Forall_impl; [| exact Hpre]. intros u Hu.
        eapply Qlt_le_trans; eassumption.
      * constructor.
      * exists k', ws', l1, l2. split; [exact Er |].
        split; [exact El |]. split; [exact H1 |]. split; [exact H2 |].
        eapply Qle_lt_trans; eassumption.
    + apply Qltb_ge in E.
      destruct (IH (pre ++ [(k1, ws1)]) Hne') as [[Er Hall] | Hsome].
      * apply List.Forall_app. split; [exact Hpre | constructor; [exact E | constructor]].
      * left. split; [exact Er |]. rewrite <- app_assoc in Hall. exact Hall.
      * right. destruct Hsome as (k' & ws' & l1 & l2 & Er & El & H).
        exists k', ws', l1, l2. split; [exact Er |].
        split; [rewrite <- El, <- app_assoc; reflexivity | exact H].
Qed.
End NearestLine.

(** *** The word on the line *)

Lemma first_right_of_spec pdf_x l :
  match first_right_of pdf_x l with
  | Some w => exists l1 l2, l = l1 ++ w :: l2
                            /\ Forall (fun v => (x0 v < pdf_x)%Q) l1
                            /\ (pdf_x <= x0 w)%Q
  | None => Forall (fun v => (x0 v < pdf_x)%Q) l
  end.
Proof.
  induction l as [|w rest IH]; simpl; [constructor |].
  destruct (Qle_bool pdf_x (x0 w)) eqn:E.
  - apply Qle_bool_iff in E. exists [], rest. repeat split; [constructor | exact E].
  - assert (Hlt : (x0 w < pdf_x)%Q).
    { apply Qnot_le_lt. intros H. apply Qle_bool_iff in H. congruence. }
    destruct (first_right_of pdf_x rest) as [p|].
    + destruct IH as (l1 & l2 & -> & H1 & H2).
      exists (w :: l1), l2. repeat split; [constructor; assumption | exact H2].
    + constructor; assumption.
Qed.

Lemma word_eqb_refl w : word_eqb w w = true.
Proof.
  unfold word_eqb, str_eqb.
  rewrite !(proj2 (Qeq_bool_iff _ _) (Qeq_refl _)), !Z.eqb_refl.
  rewrite bool_decide_eq_true_2 by reflexivity. reflexivity.
Qed.

Lemma index_of_spec l w :
  In w l ->
  exists i, index_of l w = Returns i /\ (i < length l)%nat
            /\ word_eqb (nth i l no_word) w = true.
Proof.
  induction l as [|v rest IH]; intros Hin; [destruct Hin |].
  cbn [index_of]. destruct (word_eqb v w) eqn:E.
  - exists O. repeat split; [simpl; lia | exact E].
  - destruct Hin as [-> | Hin]; [rewrite word_eqb_refl in E; discriminate |].
    destruct (IH Hin) as (i & Ei & Hi & Hw). rewrite Ei. cbn [bind].
    exists (S i). repeat split; [simpl; lia | exact Hw].
Qed.

Lemma StronglySorted_x0 l :
  StronglySorted (fun a b => Qltb (x0 b) (x0 a) = false) l ->
  StronglySorted (fun a b => (x0 a <= x0 b)%Q) l.
Proof.
  induction 1 as [| a l Hl IH Ha]; constructor; [exact IH |].
  eapply List.Forall_impl; [| exact Ha]. intros b Hb. apply Qltb_ge in Hb. exact Hb.
Qed.

Lemma x0_lt_asym (a b : word) :
  Qltb (x0 a) (x0 b) = true -> Qltb (x0 b) (x0 a) = false.
Proof. rewrite Qltb_lt, Qltb_ge. apply Qlt_le_weak. Qed.

Lemma x0_ge_trans (a b c : word) :
  Qltb (x0 b) (x0 a) = false -> Qltb (x0 c) (x0 b) = false ->
  Qltb (x0 c) (x0 a) = false.
Proof. rewrite !Qltb_ge. intros H1 H2. eapply Qle_trans; eassumption. Qed.

Lemma fdiv_nonzero a zoom : ~ (zoom == 0)%Q -> fdiv a zoom = Returns (a / zoom)%Q.
Proof.
  intros Hz. unfold fdiv. destruct (Qeq_bool zoom 0) eqn:E; [| reflexivity].
  apply Qeq_bool_iff in E. contradiction.
Qed.

(** What C3 says of point selection, for the replaced definition of
    [on_pdf_click]. With a zoom factor other than zero and some line
    nearer than the start value [1e18] of the search: the line chosen is
    the first, in the order in which the lines occur on the page, whose
    distance to the converted [y] is least; its words are sorted by [x0];
    the word picked is the first of them with [x0 >= x], and when there is
    none, the first of those whose centre is nearest to the converted [x];
    the answer is the text glued around that word. *)
Theorem shadowed_click_selection zoom words x y :
  ~ (zoom == 0)%Q ->
  let pdf_x := (inject_Z x / zoom)%Q in
  let pdf_y := (inject_Z y / zoom)%Q in
  let dist := dist_of pdf_y in
  let cd := center_distance pdf_x in
  Exists (fun kv => (dist (snd kv) < huge)%Q) (group_by_line words) ->
  exists pre k ws post picked i,
    group_by_line words = pre ++ (k, ws) :: post
    /\ Forall (fun kv => (dist ws < dist (snd kv))%Q) pre
    /\ Forall (fun kv => (dist ws <= dist (snd kv))%Q) post
    /\ let line_words := sorted (fun a b => Qltb (x0 a) (x0 b)) ws in
       Permutation line_words ws
       /\ StronglySorted (fun a b => (x0 a <= x0 b)%Q) line_words
       /\ (exists l1 l2,
              line_words = l1 ++ picked :: l2
              /\ ((Forall (fun v => (x0 v < pdf_x)%Q) l1 /\ (pdf_x <= x0 picked)%Q)
                  \/ (Forall (fun v => (x0 v < pdf_x)%Q) line_words
                      /\ Forall (fun v => (cd picked < cd v)%Q) l1
                      /\ Forall (fun v => (cd picked <= cd v)%Q) l2)))
       /\ index_of line_words picked = Returns i
       /\ Shadowed_click.on_pdf_click zoom words x y
          = Some (glue_amount_or_name line_words i).
Proof.
  intros Hz pdf_x pdf_y dist cd Hnear.
  assert (Hgroups : Forall (fun kv : line_key * list word => snd kv <> [])
                           (group_by_line words)).
  { apply List.Forall_forall. intros [k ws] Hin.
    apply group_by_line_groups in Hin. simpl. tauto. }
  destruct (nearest_line_from_none pdf_y (group_by_line words) [] Hgroups
              (List.Forall_nil _)) as [[_ Hall] | Hsome].
  { exfalso. simpl in Hall. apply List.Exists_exists in Hnear.
    destruct Hnear as (kv & Hin & Hlt).
    rewrite List.Forall_forall in Hall. specialize (Hall kv Hin).
    exact (Qlt_not_le _ _ Hlt Hall). }
  destruct Hsome as (k & ws & pre & post & Er & El & H1 & H2 & H3).
  simpl in El.
  set (line_words := sorted (fun a b => Qltb (x0 a) (x0 b)) ws).
  assert (Hperm : Permutation line_words ws) by apply sorted_perm.
  assert (Hws : In (k, ws) (group_by_line words)).
  { rewrite El. apply in_or_app. right. left. reflexivity. }
  assert (Hget : od_get (group_by_line words) k = Some ws).
  { apply od_In_get; [| exact Hws]. rewrite group_by_line_fold.
    apply group_fold_keys. constructor. }
  assert (Hne : line_words <> []).
  { apply group_by_line_groups in Hws. destruct Hws as [_ Hne].
    intros E. rewrite E in Hperm. apply Permutation_nil in Hperm. congruence. }
  assert (Hpick : exists picked l1 l2,
             pick_word pdf_x line_words = Returns picked
             /\ line_words = l1 ++ picked :: l2
             /\ ((Forall (fun v => (x0 v < pdf_x)%Q) l1 /\ (pdf_x <= x0 picked)%Q)
                 \/ (Forall (fun v => (x0 v < pdf_x)%Q) line_words
                     /\ Forall (fun v => (cd picked < cd v)%Q) l1
                     /\ Forall (fun v => (cd picked <= cd v)%Q) l2))).
  { unfold pick_word. pose proof (first_right_of_spec pdf_x line_words) as Hf.
    destruct (first_right_of pdf_x line_words) as [p|].
    - destruct Hf as (l1 & l2 & E12 & Hl1 & Hp).
      exists p, l1, l2. split; [reflexivity |]. split; [exact E12 | left; tauto].
    - destruct (py_min_by_spec cd line_words Hne) as (m & l1 & l2 & Em & E12 & Hl1 & Hl2).
      exists m, l1, l2. split; [exact Em |]. split; [exact E12 | right; tauto]. }
  destruct Hpick as (picked & l1 & l2 & Ep & E12 & Hp).
  assert (Hin : In picked line_words).
  { rewrite E12. apply in_or_app. right. left. reflexivity. }
  destruct (index_of_spec line_words picked Hin) as (i & Ei & _).
  exists pre, k, ws, post, picked, i.
  split; [exact El |]. split; [exact H1 |]. split; [exact H2 |].
  cbv zeta. fold line_words.
  split; [exact Hperm |].
  split.
  { apply StronglySorted_x0.
    apply (sorted_ordered (fun a b => Qltb (x0 a) (x0 b))).
    - intros a b. apply x0_lt_asym.
    - intros a b c. apply x0_ge_trans. }
  split; [exists l1, l2; split; [exact E12 | exact Hp] |].
  split; [exact Ei |].
  unfold Shadowed_click.on_pdf_click, Shadowed_click.click_body, _pix_to_pdf.
  rewrite !(fdiv_nonzero _ _ Hz). cbn [bind].
  fold pdf_x pdf_y.
  destruct words as [|w0 rest] eqn:Ew.
  { simpl in Hws. destruct Hws. }
  rewrite <- Ew in *. rewrite Er. cbn [bind fst line_of].
  rewrite Hget. cbn [default from_option id].
  fold line_words. rewrite Ep. cbn [bind]. rewrite Ei. reflexivity.
Qed.

(** *** Gluing the euro sign to the amount *)

Lemma glue_euro_amount e a :
  text e = py "€" -> text a = py "120,50" ->
  (x0 a - x1 e < 20)%Q ->
  glue_amount_or_name [e; a] 0 = py "€ 120,50"
  /\ glue_amount_or_name [e; a] 1 = py "€ 120,50".
Proof.
  intros He Ha Hgap.
  assert (H20 : Qltb (gap [e; a] 0 1) 20 = true) by (apply Qltb_lt; exact Hgap).
  assert (H25 : Qltb (gap [e; a] 0 1) 25 = true).
  { apply Qltb_lt. eapply Qlt_trans; [exact Hgap | reflexivity]. }
  unfold glue_amount_or_name.
  cbn [length Nat.add Nat.sub Nat.ltb Nat.leb expand_left expand_right
       at_ ws_nth nth andb].
  rewrite He, Ha, H20, H25.
  change (in_currency (lower (py "120,50"))) with false.
  change (in_currency (lower (py "€"))) with true.
  change (is_numlike (py "120,50")) with true.
  change (is_namepiece (py "120,50")) with false.
  cbn [andb]. split; vm_compute; reflexivity.
Qed.

Lemma sorted_pair e a :
  (x0 e < x0 a)%Q ->
  sorted (fun u v => Qltb (x0 u) (x0 v)) [e; a] = [e; a]
  /\ sorted (fun u v => Qltb (x0 u) (x0 v)) [a; e] = [e; a].
Proof.
  intros Hlt. unfold sorted. cbn [fold_right insert_sorted].
  rewrite (proj2 (Qltb_lt _ _) Hlt).
  rewrite (proj2 (Qltb_ge _ _) (Qlt_le_weak _ _ Hlt)). tauto.
Qed.

(** What C4 says, for the replaced definition of [on_pdf_click]: on a
    page whose only line is the euro sign followed, less than 20 units
    further right, by [120,50], every click answers [€ 120,50]. *)
Theorem shadowed_click_glues_euro zoom e a words x y :
  ~ (zoom == 0)%Q ->
  text e = py "€" -> text a = py "120,50" ->
  key_of e = key_of a ->
  (x0 e < x0 a)%Q ->
  (x0 a - x1 e < 20)%Q ->
  words = [e; a] \/ words = [a; e] ->
  (dist_of (inject_Z y / zoom) words < huge)%Q ->
  Shadowed_click.on_pdf_click zoom words x y = Some (py "€ 120,50").
Proof.
  intros Hz He Ha Hkey Hx Hgap Hwords Hdist.
  assert (Hgroup : group_by_line words = [(key_of a, words)]).
  { rewrite group_by_line_fold.
    destruct Hwords as [-> | ->]; cbn [fold_left]; unfold group_step;
      rewrite Hkey; simpl;
      destruct (decide (key_of a = key_of a)); try congruence; reflexivity. }
  destruct (shadowed_click_selection zoom words x y Hz)
    as (pre & k & ws & post & picked & i & El & _ & _ & Hline).
  { rewrite Hgroup. constructor. exact Hdist. }
  rewrite Hgroup in El.
  assert (Hws : ws = words).
  { destruct pre as [|p pre'].
    - injection El as _ <- _. reflexivity.
    - injection El as _ El. destruct pre'; discriminate. }
  subst ws. cbv zeta in Hline.
  assert (Hsorted : sorted (fun u v => Qltb (x0 u) (x0 v)) words = [e; a]).
  { destruct (sorted_pair e a Hx). destruct Hwords as [-> | ->]; assumption. }
  rewrite Hsorted in Hline.
  destruct Hline as (_ & _ & (l1 & l2 & E12 & _) & Ei & Hres).
  rewrite Hres. f_equal.
  assert (Hneq : word_eqb e a = false).
  { unfold word_eqb, str_eqb. rewrite He, Ha.
    rewrite (bool_decide_eq_false_2 (py "€" = py "120,50")) by discriminate.
    rewrite !andb_false_r. reflexivity. }
  destruct (glue_euro_amount e a He Ha Hgap) as [G0 G1].
  assert (Hpicked : picked = e \/ picked = a).
  { assert (Hin : In picked [e; a]).
    { rewrite E12. apply in_or_app. right. left. reflexivity. }
    simpl in Hin. intuition. }
  cbn [index_of] in Ei.
  destruct Hpicked as [-> | ->].
  - rewrite word_eqb_refl in Ei. injection Ei as <-. exact G0.
  - rewrite Hneq, word_eqb_refl in Ei. cbn [bind] in Ei.
    injection Ei as <-. exact G1.
Qed.

Lemma shadowed_click_glues_euro_witness :
  ~ (1 == 0)%Q
  /\ text sample_euro = py "€" /\ text sample_price = py "120,50"
  /\ key_of sample_euro = key_of sample_price
  /\ (x0 sample_euro < x0 sample_price)%Q
  /\ (x0 sample_price - x1 sample_euro < 20)%Q
  /\ (dist_of (inject_Z 205 / 1) [sample_price; sample_euro] < huge)%Q
  /\ Shadowed_click.on_pdf_click 1 [sample_price; sample_euro] 500 205
     = Some (py "€ 120,50").
Proof.
  split; [discriminate |]. split; [reflexivity |]. split; [reflexivity |].
  split; [reflexivity |]. split; [reflexivity |]. split; [reflexivity |].
  split; [reflexivity |].
  apply (shadowed_click_glues_euro 1 sample_euro sample_price);
    try reflexivity; try discriminate. right. reflexivity.
Defined.

(** *** The definition in force *)

(** C3. The definition of [on_pdf_click] in force takes the word whose
    centre is nearest to the click: for a click at x = 30 on the line
    [Total: 120,50] it answers [Total:], whose left edge (0) is left of
    the click, although [120,50] (left edge 50) is the first word of the
    line with [x0 >= 30]; the earlier definition of the method answers
    [120,50]. *)
Theorem on_pdf_click_takes_nearest_centre :
  on_pdf_click 1 [sample_label; sample_amount] 30 105 = Some (py "Total:")
  /\ first_right_of 30 [sample_label; sample_amount] = Some sample_amount
  /\ Shadowed_click.on_pdf_click 1 [sample_label; sample_amount] 30 105
     = Some (py "120,50").
Proof. repeat split; vm_compute; reflexivity. Qed.

(** C4. The definition of [on_pdf_click] in force glues nothing: on the
    line [€ 120,50] (gap 4) a click on the sign answers [€] and a click on
    the amount answers [120,50]; the earlier definition of the method
    answers [€ 120,50] for both. *)
Theorem on_pdf_click_does_not_glue :
  on_pdf_click 1 [sample_euro; sample_price] 12 205 = Some (py "€")
  /\ on_pdf_click 1 [sample_euro; sample_price] 40 205 = Some (py "120,50")
  /\ Shadowed_click.on_pdf_click 1 [sample_euro; sample_price] 12 205
     = Some (py "€ 120,50")
  /\ Shadowed_click.on_pdf_click 1 [sample_euro; sample_price] 40 205
     = Some (py "€ 120,50").
Proof. repeat split; vm_compute; reflexivity. Qed.
(* ================================================================= *)
(** ** More on strings *)

Lemma dropwhile_app_all p a s :
  forallb p a = true -> dropwhile p (a ++ s) = dropwhile p s.
Proof.
  induction a as [|c a IH]; simpl; [reflexivity |].
  rewrite andb_true_iff. intros [Hc Ha]. rewrite Hc. exact (IH Ha).
Qed.

Lemma dropwhile_all p s : forallb p s = true -> dropwhile p s = [].
Proof.
  intros H. rewrite <- (app_nil_r s). rewrite dropwhile_app_all by exact H.
  reflexivity.
Qed.

Lemma dropwhile_nil_all p s : dropwhile p s = [] -> forallb p s = true.
Proof.
  induction s as [|c t IH]; simpl; [reflexivity |].
  destruct (p c); [exact IH | discriminate].
Qed.

Lemma dropwhile_app_keep p s b :
  dropwhile p s <> [] -> dropwhile p (s ++ b) = dropwhile p s ++ b.
Proof.
  induction s as [|c t IH]; simpl; [congruence |].
  destruct (p c); [exact IH | reflexivity].
Qed.

Lemma dropwhile_head p s :
  match dropwhile p s with [] => True | c :: _ => p c = false end.
Proof.
  induction s as [|c t IH]; simpl; [exact I |].
  destruct (p c) eqn:E; [exact IH | exact E].
Qed.

Lemma forallb_rev {A} (p : A -> bool) l : forallb p (rev l) = forallb p l.
Proof.
  induction l as [|x l IH]; simpl; [reflexivity |].
  rewrite forallb_app, IH. simpl. rewrite andb_true_r. apply andb_comm.
Qed.

Lemma rstrip_by_app_all p s b :
  forallb p b = true -> rstrip_by p (s ++ b) = rstrip_by p s.
Proof.
  intros H. unfold rstrip_by. rewrite rev_app_distr.
  rewrite dropwhile_app_all by (rewrite forallb_rev; exact H). reflexivity.
Qed.

(** Blanks around a text make no difference to [strip]. *)
Lemma strip_by_outer p a s b :
  forallb p a = true -> forallb p b = true ->
  strip_by p (a ++ s ++ b) = strip_by p s.
Proof.
  intros Ha Hb. unfold strip_by, lstrip_by.
  rewrite dropwhile_app_all by exact Ha.
  destruct (dropwhile p s) as [|c t] eqn:E.
  - apply dropwhile_nil_all in E.
    rewrite dropwhile_all; [reflexivity |].
    rewrite forallb_app, E, Hb. reflexivity.
  - rewrite dropwhile_app_keep by (rewrite E; discriminate).
    rewrite E. apply rstrip_by_app_all. exact Hb.
Qed.

Lemma rstrip_keeps_head p c l :
  p c = false -> exists u, rev (dropwhile p (l ++ [c])) = c :: u.
Proof.
  intros Hc. induction l as [|x l IH]; cbn [Datatypes.app dropwhile].
  - rewrite Hc. exists []. reflexivity.
  - destruct (p x); [exact IH |].
    exists (rev l ++ [x]).
    change (x :: l ++ [c]) with ((x :: l) ++ [c]).
    rewrite rev_app_distr. reflexivity.
Qed.

(** A stripped text is empty, or begins and ends with a character that is
    not a blank. *)
Lemma strip_tight_or_empty s : strip s = [] \/ tight (strip s) = true.
Proof.
  unfold strip, strip_by, lstrip_by, rstrip_by.
  pose proof (dropwhile_head is_space s) as Hh.
  destruct (dropwhile is_space s) as [|c t] eqn:E; [left; reflexivity |].
  right. unfold tight.
  change (rev (c :: t)) with (rev t ++ [c]).
  destruct (rstrip_keeps_head is_space c (rev t) Hh) as (u & Eu).
  pose proof (dropwhile_head is_space (rev t ++ [c])) as Hl.
  set (d := dropwhile is_space (rev t ++ [c])) in *.
  rewrite rev_involutive, Eu, Hh. cbn [negb andb].
  destruct d as [|z w]; [discriminate Eu |].
  rewrite Hl. reflexivity.
Qed.

Lemma strip_idem s : strip (strip s) = strip s.
Proof.
  destruct (strip_tight_or_empty s) as [E | H].
  - rewrite E. reflexivity.
  - apply strip_tight. exact H.
Qed.

Lemma strip_outer a s b :
  forallb is_space a = true -> forallb is_space b = true ->
  strip (a ++ s ++ b) = strip s.
Proof. apply strip_by_outer. Qed.

Lemma truthy_strip s : truthy s = false -> truthy (strip s) = false.
Proof. destruct s; [reflexivity | discriminate]. Qed.

(* ================================================================= *)
(** ** More on the date parser *)

(** *** Blanks around a date *)

(** Both parsers read their argument through [strip] only. *)
Lemma parse_date_any_of_strip s : parse_date_any s = parse_date_any (strip s).
Proof.
  unfold parse_date_any. rewrite strip_idem.
  destruct (truthy s) eqn:E; cbn [negb].
  - destruct (truthy (strip s)); reflexivity.
  - rewrite (truthy_strip s E). reflexivity.
Qed.

Lemma V1_parse_date_any_of_strip s :
  V1.parse_date_any s = V1.parse_date_any (strip s).
Proof. unfold V1.parse_date_any. rewrite strip_idem. reflexivity. Qed.

(** X1. Blanks before and after a date make no difference to the parser,
    in either version of the program. *)
Theorem parse_date_any_ignores_outer_blanks a s b :
  forallb is_space a = true -> forallb is_space b = true ->
  parse_date_any (a ++ s ++ b) = parse_date_any s
  /\ V1.parse_date_any (a ++ s ++ b) = V1.parse_date_any s.
Proof.
  intros Ha Hb. split.
  - rewrite (parse_date_any_of_strip (a ++ s ++ b)), (strip_outer a s b Ha Hb).
    symmetry. apply parse_date_any_of_strip.
  - rewrite (V1_parse_date_any_of_strip (a ++ s ++ b)), (strip_outer a s b Ha Hb).
    symmetry. apply V1_parse_date_any_of_strip.
Qed.

Lemma parse_date_any_ignores_outer_blanks_witness :
  forallb is_space [32; 9] = true /\ forallb is_space [13; 10] = true
  /\ parse_date_any ([32; 9] ++ py "23 Feb 2023" ++ [13; 10])
     = parse_date_any (py "23 Feb 2023")
  /\ V1.parse_date_any ([32; 9] ++ py "23 Feb 2023" ++ [13; 10])
     = V1.parse_date_any (py "23 Feb 2023").
Proof.
  split; [reflexivity |]. split; [reflexivity |].
  apply (parse_date_any_ignores_outer_blanks [32; 9] (py "23 Feb 2023") [13; 10]);
    reflexivity.
Defined.

(** *** The range of the result *)

Lemma exec_widths r : forall ws st st',
  widths r = Some ws -> In st' (exec r st) ->
  exists gs, m_groups st' = m_groups st ++ gs /\ Forall2 within gs ws.
Proof.
  assert (Hflat : forall q ws st st',
             (if no_group q then Some [] else None) = Some ws ->
             In st' (exec q st) ->
             exists gs, m_groups st' = m_groups st ++ gs /\ Forall2 within gs ws).
  { intros q ws st st' Hws Hin. destruct (no_group q) eqn:Hng; [| discriminate].
    injection Hws as <-. exists []. split; [| constructor].
    rewrite app_nil_r. eapply exec_no_group; eauto. }
  induction r as [ | | | | s | p lo hi | a IHa b IHb | a IHa b IHb | a IHa | a IHa];
    intros ws st st' Hws Hin;
    try (match type of Hws with widths ?q = _ => exact (Hflat q _ _ _ Hws Hin) end).
  - simpl in Hws.
    destruct (widths a) as [x|] eqn:Ha; [| discriminate].
    destruct (widths b) as [y|] eqn:Hb; [| discriminate].
    injection Hws as <-. simpl in Hin.
    apply in_flat_map in Hin. destruct Hin as (mid & Hmid & Hin).
    destruct (IHa _ _ _ eq_refl Hmid) as (g1 & E1 & F1).
    destruct (IHb _ _ _ eq_refl Hin) as (g2 & E2 & F2).
    exists (g1 ++ g2). split.
    + rewrite E2, E1, app_assoc. reflexivity.
    + apply Forall2_app; assumption.
  - destruct a; try discriminate. simpl in Hws. injection Hws as <-.
    simpl in Hin. apply in_map_iff in Hin. destruct Hin as (mid & <- & Hmid).
    apply in_map_iff in Hmid. destruct Hmid as (k & <- & Hk).
    apply in_down_to in Hk. simpl. rewrite consume_groups, consume_rest.
    eexists. split; [reflexivity |]. constructor; [| constructor].
    destruct hi as [h|]; simpl; [| exact I].
    rewrite length_firstn, length_skipn. lia.
Qed.

Lemma re_match_widths r ws s m :
  widths r = Some ws -> re_match r s = Some m -> Forall2 within m ws.
Proof.
  unfold re_match. intros Hws Hm.
  destruct (exec r (MState None s [])) as [|st' l] eqn:E; [discriminate |].
  simpl in Hm. injection Hm as <-.
  destruct (exec_widths r ws (MState None s []) st' Hws) as (gs & Eg & F).
  { rewrite E. left. reflexivity. }
  simpl in Eg. rewrite Eg. exact F.
Qed.

(** A match of a pattern with three groups, each one repeated class. *)
Lemma three_groups r s m c1 c2 c3 h1 h2 h3 :
  shape r = Some [c1; c2; c3] -> widths r = Some [h1; h2; h3] ->
  re_match r s = Some m ->
  exists g1 g2 g3,
    m = [g1; g2; g3]
    /\ fits g1 c1 /\ fits g2 c2 /\ fits g3 c3
    /\ within g1 h1 /\ within g2 h2 /\ within g3 h3.
Proof.
  intros Hsh Hws Hm.
  pose proof (re_match_shape _ _ _ _ Hsh Hm) as F.
  pose proof (re_match_widths _ _ _ _ Hws Hm) as W.
  inversion F as [| g1 ? l1 ? F1 E1]; subst; clear F.
  inversion E1 as [| g2 ? l2 ? F2 E2]; subst; clear E1.
  inversion E2 as [| g3 ? l3 ? F3 E3]; subst; clear E2.
  inversion E3; subst; clear E3.
  inversion W as [| ? ? ? ? W1 V1]; subst; clear W.
  inversion V1 as [| ? ? ? ? W2 V2]; subst; clear V1.
  inversion V2 as [| ? ? ? ? W3 V3]; subst; clear V2.
  exists g1, g2, g3. tauto.
Qed.

Lemma decimal_snoc s c : decimal (s ++ [c]) = (decimal s * 10 + digit_value c)%Z.
Proof. unfold decimal. rewrite fold_left_app. reflexivity. Qed.

Lemma digit_value_range c : is_digit c = true -> (0 <= digit_value c <= 9)%Z.
Proof. intros H. apply digit_range in H. unfold digit_value. lia. Qed.

Lemma decimal_range s :
  forallb is_digit s = true -> (0 <= decimal s < 10 ^ Z.of_nat (length s))%Z.
Proof.
  induction s as [|c s IH] using rev_ind; intros H.
  - simpl. change (decimal []) with 0%Z. lia.
  - rewrite forallb_app in H. apply andb_true_iff in H. destruct H as [Hs Hc].
    simpl in Hc. rewrite andb_true_r in Hc.
    specialize (IH Hs). apply digit_value_range in Hc.
    rewrite decimal_snoc, length_app. simpl length.
    replace (Z.of_nat (length s + 1)) with (Z.succ (Z.of_nat (length s))) by lia.
    rewrite Z.pow_succ_r by lia. lia.
Qed.

Lemma decimal_below g c h :
  fits g (is_digit, c) -> within g (Some h) ->
  (0 <= decimal g < 10 ^ Z.of_nat h)%Z.
Proof.
  intros [Hd _] Hw. simpl in Hd, Hw.
  pose proof (decimal_range g Hd) as Hr.
  assert (10 ^ Z.of_nat (length g) <= 10 ^ Z.of_nat h)%Z
    by (apply Z.pow_le_mono_r; lia).
  lia.
Qed.

Lemma two_digit_year_range y :
  (0 <= y < 10 ^ Z.of_nat 4)%Z -> (0 <= two_digit_year y <= 9999)%Z.
Proof.
  change (10 ^ Z.of_nat 4)%Z with 10000%Z. unfold two_digit_year.
  destruct (Z.ltb_spec y 100); lia.
Qed.

Lemma or_else_some {A} (a b : outcome (option A)) x :
  or_else a b = Returns (Some x) ->
  a = Returns (Some x) \/ b = Returns (Some x).
Proof.
  unfold or_else. destruct a as [[y|]|e]; simpl; intros H;
    [left; exact H | right; exact H | discriminate].
Qed.

Lemma month_table_range (months : odict str Z) mon mo :
  forallb (fun kv => (1 <=? snd kv)%Z && (snd kv <=? 12)%Z) months = true ->
  od_get months mon = Some mo -> (1 <= mo <= 12)%Z.
Proof.
  intros Hall Hget. apply od_get_In in Hget.
  rewrite forallb_forall in Hall. specialize (Hall _ Hget). simpl in Hall.
  apply andb_true_iff in Hall. lia.
Qed.

Lemma month_lookup_some months y mon d t :
  month_lookup months y mon d = Returns (Some t) ->
  exists mo, od_get months mon = Some mo /\ t = (y, mo, d).
Proof.
  unfold month_lookup, od_mem, od_item.
  destruct (od_get months mon) as [mo|]; simpl; intros H; [| discriminate].
  injection H as <-. exists mo. split; reflexivity.
Qed.

Lemma pow10_2 : (10 ^ Z.of_nat 2 = 100)%Z.
Proof. reflexivity. Qed.

Lemma numeric_block_range r (body : list str -> outcome (option date)) s
      l1 l2 l3 y mo d :
  shape r = Some [(is_digit, S l1); (is_digit, S l2); (is_digit, S l3)] ->
  (body = year_month_day /\ widths r = Some [Some 4; Some 2; Some 2]%nat)
  \/ (body = day_month_year /\ widths r = Some [Some 2; Some 2; Some 4]%nat) ->
  if_match (re_match r s) body = Returns (Some (y, mo, d)) ->
  (0 <= y <= 9999)%Z /\ (0 <= mo <= 99)%Z /\ (0 <= d <= 99)%Z.
Proof.
  intros Hsh Hbody. unfold if_match.
  destruct (re_match r s) as [m|] eqn:E; [| discriminate].
  destruct Hbody as [[-> Hws] | [-> Hws]];
    destruct (three_groups _ _ _ _ _ _ _ _ _ Hsh Hws E)
      as (g1 & g2 & g3 & -> & F1 & F2 & F3 & W1 & W2 & W3);
    unfold year_month_day, day_month_year; simpl;
    rewrite (int_digits _ _ F1); simpl;
    rewrite (int_digits _ _ F2); simpl;
    rewrite (int_digits _ _ F3); simpl;
    intros H; injection H as <- <- <-;
    pose proof (decimal_below _ _ _ F1 W1) as B1;
    pose proof (decimal_below _ _ _ F2 W2) as B2;
    pose proof (decimal_below _ _ _ F3 W3) as B3;
    rewrite ?pow10_2 in *.
  - change (10 ^ Z.of_nat 4)%Z with 10000%Z in B1. lia.
  - apply two_digit_year_range in B3. lia.
Qed.

Lemma named_block_range r (body : list str -> outcome (option date)) s p y mo d :
  (shape r = Some [(is_digit, 1%nat); (p, 1%nat); (is_digit, 2%nat)]
   /\ widths r = Some [Some 2; None; Some 4]%nat
   /\ (body = day_name_year \/ body = V1.day_name_year))
  \/ (shape r = Some [(p, 1%nat); (is_digit, 1%nat); (is_digit, 2%nat)]
      /\ widths r = Some [None; Some 2; Some 4]%nat
      /\ (body = name_day_year \/ body = V1.name_day_year)) ->
  if_match (re_match r s) body = Returns (Some (y, mo, d)) ->
  (0 <= y <= 9999)%Z /\ (0 <= mo <= 99)%Z /\ (0 <= d <= 99)%Z.
Proof.
  assert (M2 : forall mon v, od_get MONTHS mon = Some v -> (1 <= v <= 12)%Z).
  { intros mon v. apply month_table_range. vm_compute. reflexivity. }
  assert (M1 : forall mon v, od_get V1.MONTHS mon = Some v -> (1 <= v <= 12)%Z).
  { intros mon v. apply month_table_range. vm_compute. reflexivity. }
  intros H. unfold if_match.
  destruct (re_match r s) as [m|] eqn:E; [| discriminate].
  destruct H as [(Hsh & Hws & Hbody) | (Hsh & Hws & Hbody)];
    destruct (three_groups _ _ _ _ _ _ _ _ _ Hsh Hws E)
      as (g1 & g2 & g3 & -> & F1 & F2 & F3 & W1 & W2 & W3);
    destruct Hbody as [-> | ->];
    unfold day_name_year, name_day_year, V1.day_name_year, V1.name_day_year;
    simpl.
  - rewrite (int_digits _ _ F1); simpl. rewrite (int_digits _ _ F3); simpl.
    intros H. apply month_lookup_some in H. destruct H as (v & Hv & Ht).
    injection Ht as -> -> ->. apply M2 in Hv.
    pose proof (decimal_below _ _ _ F1 W1) as B1. rewrite pow10_2 in B1.
    pose proof (decimal_below _ _ _ F3 W3) as B3.
    apply two_digit_year_range in B3. lia.
  - rewrite (int_digits _ _ F1); simpl. rewrite (int_digits _ _ F3); simpl.
    intros H. apply month_lookup_some in H. destruct H as (v & Hv & Ht).
    injection Ht as -> -> ->. apply M1 in Hv.
    pose proof (decimal_below _ _ _ F1 W1) as B1. rewrite pow10_2 in B1.
    pose proof (decimal_below _ _ _ F3 W3) as B3.
    apply two_digit_year_range in B3. lia.
  - rewrite (int_digits _ _ F2); simpl. rewrite (int_digits _ _ F3); simpl.
    intros H. apply month_lookup_some in H. destruct H as (v & Hv & Ht).
    injection Ht as -> -> ->. apply M2 in Hv.
    pose proof (decimal_below _ _ _ F2 W2) as B2. rewrite pow10_2 in B2.
    pose proof (decimal_below _ _ _ F3 W3) as B3.
    apply two_digit_year_range in B3. lia.
  - rewrite (int_digits _ _ F2); simpl. rewrite (int_digits _ _ F3); simpl.
    intros H. apply month_lookup_some in H. destruct H as (v & Hv & Ht).
    injection Ht as -> -> ->. apply M1 in Hv.
    pose proof (decimal_below _ _ _ F2 W2) as B2. rewrite pow10_2 in B2.
    pose proof (decimal_below _ _ _ F3 W3) as B3.
    apply two_digit_year_range in B3. lia.
Qed.

Lemma parsed_date_in_range s y mo d :
  parse_date_any s = Returns (Some (y, mo, d))
  \/ V1.parse_date_any s = Returns (Some (y, mo, d)) ->
  (0 <= y <= 9999)%Z /\ (0 <= mo <= 99)%Z /\ (0 <= d <= 99)%Z.
Proof.
  intros [H | H].
  - unfold parse_date_any in H.
    destruct (negb (truthy s)); [discriminate |].
    destruct (negb (truthy (strip s))); [discriminate |].
    repeat (apply or_else_some in H; destruct H as [H | H]); try discriminate.
    + revert H. apply (numeric_block_range _ _ _ 3 0 0); [reflexivity |].
      left. split; reflexivity.
    + revert H. apply (numeric_block_range _ _ _ 0 0 1); [reflexivity |].
      right. split; reflexivity.
    + revert H. apply (named_block_range _ _ _ is_az_dot).
      left. split; [reflexivity |]. split; [reflexivity | tauto].
    + revert H. apply (named_block_range _ _ _ is_az_dot).
      right. split; [reflexivity |]. split; [reflexivity | tauto].
    + revert H. apply (named_block_range _ _ _ is_az_dot).
      left. split; [reflexivity |]. split; [reflexivity | tauto].
    + revert H. apply (numeric_block_range _ _ _ 0 0 1); [reflexivity |].
      right. split; reflexivity.
  - unfold V1.parse_date_any in H.
    destruct (negb (truthy (strip s))); [discriminate |].
    repeat (apply or_else_some in H; destruct H as [H | H]); try discriminate.
    + revert H. apply (numeric_block_range _ _ _ 3 0 0); [reflexivity |].
      left. split; reflexivity.
    + revert H. apply (numeric_block_range _ _ _ 0 0 1); [reflexivity |].
      right. split; reflexivity.
    + revert H. apply (named_block_range _ _ _ V1.is_alpha_dot).
      left. split; [reflexivity |]. split; [reflexivity | tauto].
    + revert H. apply (named_block_range _ _ _ V1.is_alpha_dot).
      right. split; [reflexivity |]. split; [reflexivity | tauto].
    + revert H. apply (numeric_block_range _ _ _ 0 0 1); [reflexivity |].
      right. split; reflexivity.
Qed.

(** X2. The parser checks no calendar, yet its patterns bound the result:
    whatever either version returns has a day and a month of at most two
    digits and a year of at most four. *)
Theorem parse_date_any_range s y mo d :
  parse_date_any s = Returns (Some (y, mo, d))
  \/ V1.parse_date_any s = Returns (Some (y, mo, d)) ->
  (0 <= y <= 9999)%Z /\ (0 <= mo <= 99)%Z /\ (0 <= d <= 99)%Z.
Proof. apply parsed_date_in_range. Qed.

Lemma parse_date_any_range_witness :
  (parse_date_any (py "99/99/2099") = Returns (Some (2099, 99, 99)%Z)
   \/ V1.parse_date_any (py "99/99/2099") = Returns (Some (2099, 99, 99)%Z))
  /\ (0 <= 2099 <= 9999)%Z /\ (0 <= 99 <= 99)%Z /\ (0 <= 99 <= 99)%Z.
Proof.
  split; [left; vm_compute; reflexivity |].
  apply (parse_date_any_range (py "99/99/2099") 2099 99 99).
  left. vm_compute. reflexivity.
Defined.

(** *** The last pattern *)

Lemma exec_lit_one c p st :
  p c = true -> incl (exec (Lit [c]) st) (exec (one p) st).
Proof.
  intros Hp. unfold one. cbn [exec is_prefix length].
  destruct (m_rest st) as [|y rest] eqn:E; [intros x [] |].
  destruct (N.eqb_spec c y) as [<- | Hne]; cbn [andb]; [| intros x []].
  cbn [count_prefix]. rewrite Hp. cbn. rewrite Nat.min_0_r. cbn. apply incl_refl.
Qed.

Lemma exec_seq_incl a a' b b' :
  (forall st, incl (exec a st) (exec a' st)) ->
  (forall st, incl (exec b st) (exec b' st)) ->
  forall st, incl (exec (Seq a b) st) (exec (Seq a' b') st).
Proof.
  intros Ha Hb st x Hx. cbn [exec] in *.
  apply in_flat_map in Hx. destruct Hx as (mid & Hmid & Hx).
  apply in_flat_map. exists mid. split; [apply Ha; exact Hmid | apply Hb; exact Hx].
Qed.

Lemma slash_within_dmy st : incl (exec re_slash st) (exec re_dmy st).
Proof.
  revert st. unfold re_slash, re_dmy, cat. cbn [fold_right].
  change (py "/") with [47].
  repeat (apply exec_seq_incl;
          [first [ intros st; apply exec_lit_one; reflexivity
                 | intros st; apply incl_refl ] |]).
  intros st. apply incl_refl.
Qed.

(** X3. The last pattern of the parser, [D/M/Y] with slashes, is within
    the second, [D sep M sep Y]: on a text the last pattern matches, the
    second block has already returned a date, so that the last block
    never gives a result (in either version). *)
Theorem slash_pattern_never_decides s :
  (exists m, re_match re_slash s = Some m) ->
  exists t, if_match (re_match re_dmy s) day_month_year = Returns (Some t).
Proof.
  intros (m & Hm). unfold re_match in Hm.
  destruct (exec re_slash (MState None s [])) as [|st l] eqn:E; [discriminate |].
  assert (Hin : In st (exec re_dmy (MState None s []))).
  { apply slash_within_dmy. rewrite E. left. reflexivity. }
  destruct (re_match re_dmy s) as [m'|] eqn:E'.
  - destruct (three_groups re_dmy s m' (is_digit, 1%nat) (is_digit, 1%nat)
                (is_digit, 2%nat) (Some 2%nat) (Some 2%nat) (Some 4%nat)
                eq_refl eq_refl E')
      as (g1 & g2 & g3 & -> & F1 & F2 & F3 & _).
    unfold if_match. destruct F1 as [D1 L1], F2 as [D2 L2], F3 as [D3 L3].
    simpl in *.
    rewrite day_month_year_digits by (assumption || lia).
    eexists. reflexivity.
  - unfold re_match in E'.
    destruct (exec re_dmy (MState None s [])); [destruct Hin | discriminate].
Qed.

Lemma slash_pattern_never_decides_witness :
  (exists m, re_match re_slash (py "1/2/2023") = Some m)
  /\ exists t,
      if_match (re_match re_dmy (py "1/2/2023")) day_month_year
      = Returns (Some t).
Proof.
  split; [eexists; vm_compute; reflexivity |].
  apply (slash_pattern_never_decides (py "1/2/2023")).
  eexists. vm_compute. reflexivity.
Defined.

(* ================================================================= *)
(** ** Running a pattern along a text *)

Lemma re_match_first r s :
  re_match r s = option_map m_groups (first_match r (MState None s [])).
Proof. reflexivity. Qed.

Lemma first_seq a b st st1 st2 :
  first_match a st = Some st1 -> first_match b st1 = Some st2 ->
  first_match (Seq a b) st = Some st2.
Proof.
  unfold first_match. cbn [exec].
  destruct (exec a st) as [|x l]; [discriminate |]. intros [= ->].
  cbn [flat_map]. destruct (exec b st1); [discriminate |]. intros [= ->].
  reflexivity.
Qed.

Lemma first_eps st : first_match Eps st = Some st.
Proof. reflexivity. Qed.

Lemma first_bos s gs : first_match Bos (MState None s gs) = Some (MState None s gs).
Proof. reflexivity. Qed.

Lemma first_eos pv gs : first_match Eos (MState pv [] gs) = Some (MState pv [] gs).
Proof. reflexivity. Qed.

Lemma count_prefix_run p a r :
  forallb p a = true -> count_prefix p r = O ->
  count_prefix p (a ++ r) = length a.
Proof.
  intros Ha Hr. induction a as [|c a IH]; simpl; [exact Hr |].
  simpl in Ha. apply andb_true_iff in Ha. destruct Ha as [Hc Ha].
  rewrite Hc, (IH Ha). reflexivity.
Qed.

Lemma down_to_head lo n : (lo <= n)%nat -> exists l, down_to lo n = n :: l.
Proof.
  intros H. destruct n as [|n]; simpl.
  - assert (lo = O) by lia. subst. exists []. reflexivity.
  - destruct (Nat.ltb_spec (S n) lo); [lia |]. eexists. reflexivity.
Qed.

Lemma consume_run pv a r gs :
  consume (MState pv (a ++ r) gs) (length a)
  = MState (after (length a) pv (a ++ r)) r gs.
Proof.
  unfold consume, after. cbn [m_prev m_rest m_groups].
  pose proof (advance_rest (length a) pv (a ++ r)) as H.
  destruct (advance (length a) pv (a ++ r)) as [pv' r']. cbn [fst snd] in *.
  rewrite H, skipn_app, skipn_all, Nat.sub_diag. reflexivity.
Qed.

(** A repeated class takes the whole run in front of it. *)
Lemma first_cls_run p lo hi pv a r gs :
  forallb p a = true -> count_prefix p r = O ->
  (lo <= length a)%nat -> within a hi ->
  first_match (Cls p lo hi) (MState pv (a ++ r) gs)
  = Some (MState (after (length a) pv (a ++ r)) r gs).
Proof.
  intros Ha Hr Hlo Hhi. unfold first_match. cbn [exec m_rest].
  rewrite (count_prefix_run p a r Ha Hr).
  assert (E : match hi with
              | Some h => Nat.min (length a) h
              | None => length a
              end = length a).
  { destruct hi as [h|]; [simpl in Hhi; lia | reflexivity]. }
  rewrite E. destruct (down_to_head lo (length a) Hlo) as (l & ->).
  cbn [List.map head]. rewrite consume_run. reflexivity.
Qed.

Lemma first_grp_run p lo hi pv a r gs :
  forallb p a = true -> count_prefix p r = O ->
  (lo <= length a)%nat -> within a hi ->
  first_match (Grp (Cls p lo hi)) (MState pv (a ++ r) gs)
  = Some (MState (after (length a) pv (a ++ r)) r (gs ++ [a])).
Proof.
  intros Ha Hr Hlo Hhi.
  pose proof (first_cls_run p lo hi pv a r gs Ha Hr Hlo Hhi) as H.
  unfold first_match in *.
  change (exec (Grp (Cls p lo hi)) (MState pv (a ++ r) gs))
    with (List.map
            (fun st' =>
               MState (m_prev st') (m_rest st')
                      (m_groups st'
                         ++ [firstn (length (a ++ r) - length (m_rest st'))
                                    (a ++ r)]))
            (exec (Cls p lo hi) (MState pv (a ++ r) gs))).
  destruct (exec (Cls p lo hi) (MState pv (a ++ r) gs)) as [|x l]; [discriminate |].
  injection H as ->. cbn [List.map head m_prev m_rest m_groups].
  rewrite length_app, Nat.add_sub, firstn_app, firstn_all, Nat.sub_diag.
  cbn [firstn]. rewrite app_nil_r. reflexivity.
Qed.

Lemma is_prefix_app s r : is_prefix s (s ++ r) = true.
Proof.
  induction s as [|c s IH]; simpl; [reflexivity |].
  rewrite N.eqb_refl. exact IH.
Qed.

Lemma first_lit s pv r gs :
  first_match (Lit s) (MState pv (s ++ r) gs)
  = Some (MState (after (length s) pv (s ++ r)) r gs).
Proof.
  unfold first_match. cbn [exec m_rest]. rewrite is_prefix_app.
  cbn [head]. rewrite consume_run. reflexivity.
Qed.

Lemma first_opt a st st1 :
  first_match a st = Some st1 -> first_match (Opt a) st = Some st1.
Proof.
  unfold first_match. cbn [exec].
  destruct (exec a st); [discriminate |]. intros [= ->]. reflexivity.
Qed.

Lemma first_opt_skip a st : exec a st = [] -> first_match (Opt a) st = Some st.
Proof. unfold first_match. cbn [exec]. intros ->. reflexivity. Qed.

Lemma exec_cls_none p lo hi st :
  count_prefix p (m_rest st) = O -> (1 <= lo)%nat -> exec (Cls p lo hi) st = [].
Proof.
  intros H Hlo. cbn [exec]. rewrite H.
  assert (E : match hi with Some h => Nat.min 0 h | None => O end = O)
    by (destruct hi; reflexivity).
  rewrite E. simpl. destruct (Nat.ltb_spec 0 lo); [reflexivity | lia].
Qed.

Lemma count_prefix_head p c s : p c = false -> count_prefix p (c :: s) = O.
Proof. intros H. simpl. rewrite H. reflexivity. Qed.

Lemma count_prefix_ge p a r :
  forallb p a = true -> (length a <= count_prefix p (a ++ r))%nat.
Proof.
  induction a as [|c a IH]; simpl; [lia |].
  rewrite andb_true_iff. intros [Hc Ha]. rewrite Hc. specialize (IH Ha). lia.
Qed.

(** A class repeated at most [length a] times takes [a] when it can. *)
Lemma first_grp_full p lo pv a r gs :
  forallb p a = true -> (lo <= length a)%nat ->
  first_match (Grp (Cls p lo (Some (length a)))) (MState pv (a ++ r) gs)
  = Some (MState (after (length a) pv (a ++ r)) r (gs ++ [a])).
Proof.
  intros Ha Hlo. unfold first_match. cbn [exec m_rest].
  pose proof (count_prefix_ge p a r Ha) as Hge.
  rewrite Nat.min_r by exact Hge.
  destruct (down_to_head lo (length a) Hlo) as (l & ->).
  cbn [List.map head]. rewrite consume_run. cbn [m_prev m_rest m_groups].
  rewrite length_app, Nat.add_sub, firstn_app, firstn_all, Nat.sub_diag.
  cbn [firstn]. rewrite app_nil_r. reflexivity.
Qed.

Lemma first_cls_skip p hi st :
  count_prefix p (m_rest st) = O -> first_match (Cls p 0 hi) st = Some st.
Proof.
  intros H. unfold first_match. cbn [exec]. rewrite H.
  assert (E : match hi with Some h => Nat.min 0 h | None => O end = O)
    by (destruct hi; reflexivity).
  rewrite E. destruct st. reflexivity.
Qed.

Lemma first_cls_one p lo hi pv c r gs :
  p c = true -> count_prefix p r = O -> (lo <= 1)%nat -> within [c] hi ->
  first_match (Cls p lo hi) (MState pv (c :: r) gs) = Some (MState (Some c) r gs).
Proof.
  intros Hc Hr Hlo Hhi.
  exact (first_cls_run p lo hi pv [c] r gs
           (proj2 (andb_true_iff _ _) (conj Hc eq_refl)) Hr Hlo Hhi).
Qed.

(* ================================================================= *)
(** ** Classes of characters *)

Lemma letter_range c : is_lower c = true -> 97 <= c <= 122.
Proof.
  unfold is_lower, in_range. change (ch "a") with 97. change (ch "z") with 122.
  rewrite andb_true_iff, !N.leb_le. tauto.
Qed.

Lemma not_space_between c : 33 <= c <= 132 -> is_space c = false.
Proof.
  intros H. unfold is_space, mem_chars, whitespace. cbn [existsb].
  rewrite !orb_false_iff, !N.eqb_neq. lia.
Qed.

Lemma letter_not_space c : is_lower c = true -> is_space c = false.
Proof. intros H. apply letter_range in H. apply not_space_between. lia. Qed.

Lemma letter_not_digit c : is_lower c = true -> is_digit c = false.
Proof.
  intros H. apply letter_range in H. unfold is_digit, in_range.
  apply andb_false_iff. right. apply N.leb_gt. lia.
Qed.

Lemma letter_az_dot c : is_lower c = true -> is_az_dot c = true.
Proof. intros H. unfold is_az_dot. unfold is_lower in H. rewrite H. reflexivity. Qed.

Lemma letter_not_dot c : is_lower c = true -> mem_chars (py ".") c = false.
Proof.
  intros H. apply letter_range in H. change (py ".") with [46].
  unfold mem_chars. cbn [existsb]. rewrite orb_false_r. apply N.eqb_neq. lia.
Qed.

Lemma digit_not_az_dot c : is_digit c = true -> is_az_dot c = false.
Proof.
  intros H. apply digit_range in H. unfold is_az_dot, in_range.
  change (ch "a") with 97. change (ch "z") with 122. change (ch ".") with 46.
  rewrite orb_false_iff, andb_false_iff, N.leb_gt, N.eqb_neq. lia.
Qed.

Lemma letters_az_dot s : forallb is_lower s = true -> forallb is_az_dot s = true.
Proof.
  rewrite !forallb_forall. intros H c Hc. apply letter_az_dot. auto.
Qed.

Lemma strip_dots_letters s :
  forallb is_lower s = true -> strip_chars (py ".") s = s.
Proof.
  intros H. apply strip_by_none. apply List.Forall_forall. intros c Hc.
  rewrite forallb_forall in H. apply letter_not_dot. auto.
Qed.

(* ================================================================= *)
(** ** The patterns of the parser on dates with a month name *)

Ltac known :=
  repeat match goal with
  | H : ?f ?c = true |- context [?f ?c] => rewrite H
  | H : ?f ?c = false |- context [?f ?c] => rewrite H
  end.

Ltac run_known := repeat (progress (simpl; known)).

Ltac digit_facts :=
  repeat match goal with
  | H : forallb is_digit (_ :: _) = true |- _ => simpl in H
  | H : forallb is_digit [] = true |- _ => clear H
  | H : _ && _ = true |- _ => apply andb_true_iff in H; destruct H
  | H : true = true |- _ => clear H
  | H : is_digit ?c = true |- _ =>
    lazymatch goal with
    | _ : is_space c = false |- _ => fail
    | _ => pose proof (digit_not_space c H); pose proof (digit_not_sep c H);
           pose proof (digit_not_az_dot c H)
    end
  end.

Section PatternsFail.
Local Opaque is_digit is_space is_sep is_az_dot.

(** One or two digits and then a character that is neither a digit nor a
    separator: the two numeric patterns fail. *)
Lemma numeric_fail_after_digits d1 D' sp rest :
  forallb is_digit (d1 :: D') = true -> (length D' <= 1)%nat ->
  is_digit sp = false -> is_sep sp = false ->
  re_match re_ymd ((d1 :: D') ++ sp :: rest) = None
  /\ re_match re_dmy ((d1 :: D') ++ sp :: rest) = None.
Proof.
  intros HD LD Hs1 Hs2.
  destruct D' as [|d2 [|]]; simpl in LD; try lia; digit_facts;
    unfold re_match, re_ymd, re_dmy, cat, star, rep, one;
    split; run_known; reflexivity.
Qed.

(** A first character that is neither a blank nor a digit: the patterns
    that begin with the day fail. *)
Lemma day_first_fail c rest :
  is_space c = false -> is_digit c = false ->
  re_match re_ymd (c :: rest) = None
  /\ re_match re_dmy (c :: rest) = None
  /\ re_match re_d_mon_y (c :: rest) = None
  /\ re_match re_d_de_mon_de_y (c :: rest) = None
  /\ re_match re_slash (c :: rest) = None.
Proof.
  intros H1 H2.
  unfold re_match, re_ymd, re_dmy, re_d_mon_y, re_d_de_mon_de_y, re_slash,
    cat, star, rep, one, plus.
  repeat split; run_known; reflexivity.
Qed.

(** A first character that is a digit: the pattern that begins with the
    month fails. *)
Lemma month_first_fail c rest :
  is_space c = false -> is_az_dot c = false ->
  re_match re_mon_d_y (c :: rest) = None.
Proof.
  intros H1 H2. unfold re_match, re_mon_d_y, cat, star, rep, one, plus.
  run_known. reflexivity.
Qed.

(** [D de ...]: after the word [de] and a blank comes a letter, where the
    third pattern wants the year. *)
Lemma d_mon_y_fail_on_de d1 D' sp1 l1 l2 sp2 c rest :
  forallb is_digit (d1 :: D') = true -> (length D' <= 1)%nat ->
  is_digit sp1 = false -> is_space sp1 = true ->
  is_space l1 = false -> is_az_dot l1 = true ->
  is_space l2 = false -> is_az_dot l2 = true ->
  is_az_dot sp2 = false -> is_space sp2 = true ->
  is_space c = false -> is_digit c = false ->
  re_match re_d_mon_y ((d1 :: D') ++ sp1 :: l1 :: l2 :: sp2 :: c :: rest) = None.
Proof.
  intros HD LD. intros.
  destruct D' as [|d2 [|]]; simpl in LD; try lia; digit_facts;
    unfold re_match, re_d_mon_y, cat, star, rep, one, plus;
    run_known; reflexivity.
Qed.
End PatternsFail.

Lemma first_grp_end p lo hi pv a gs :
  forallb p a = true -> (lo <= length a)%nat -> within a hi ->
  first_match (Grp (Cls p lo hi)) (MState pv a gs)
  = Some (MState (after (length a) pv a) [] (gs ++ [a])).
Proof.
  intros Ha Hlo Hhi.
  pose proof (first_grp_run p lo hi pv a [] gs Ha eq_refl Hlo Hhi) as H.
  rewrite app_nil_r in H. exact H.
Qed.

Ltac side :=
  solve [ assumption
        | apply letters_az_dot; assumption
        | cbn [Datatypes.app count_prefix length within m_rest]; known;
          first [reflexivity | lia] ].

Ltac step :=
  eapply first_seq;
  [ first [ apply first_bos
          | apply first_eos
          | apply first_cls_skip; side
          | apply first_cls_one; side
          | apply first_grp_run; side
          | apply first_grp_end; side ] |].

Ltac letter_facts :=
  repeat match goal with
  | H : forallb is_lower (_ :: _) = true |- _ =>
    let H' := fresh "Hall" in
    pose proof H as H'; apply letters_az_dot in H';
    simpl in H; apply andb_true_iff in H; destruct H
  | H : is_lower ?c = true |- _ =>
    lazymatch goal with
    | _ : is_space c = false |- _ => fail
    | _ => pose proof (letter_not_space c H); pose proof (letter_not_digit c H);
           pose proof (letter_az_dot c H)
    end
  end.

Ltac first_digit_facts :=
  repeat match goal with
  | H : forallb is_digit (?c :: _) = true |- _ =>
    lazymatch goal with
    | _ : is_digit c = true |- _ => fail
    | _ =>
      let H' := fresh "Hd" in
      assert (H' : is_digit c = true)
        by (simpl in H; apply andb_true_iff in H; tauto);
      pose proof (digit_not_space c H'); pose proof (digit_not_sep c H');
      pose proof (digit_not_az_dot c H')
    end
  end.

(** [D name Y] *)
Lemma d_mon_y_matches d1 D' c nm' y1 Y' :
  forallb is_digit (d1 :: D') = true -> (length D' <= 1)%nat ->
  forallb is_lower (c :: nm') = true ->
  forallb is_digit (y1 :: Y') = true -> (1 <= length Y' <= 3)%nat ->
  re_match re_d_mon_y ((d1 :: D') ++ 32 :: (c :: nm') ++ 32 :: (y1 :: Y'))
  = Some [d1 :: D'; c :: nm'; y1 :: Y'].
Proof.
  intros HD LD HN HY LY. first_digit_facts. letter_facts.
  rewrite re_match_first.
  assert (E : exists pv,
             first_match re_d_mon_y
               (MState None ((d1 :: D') ++ 32 :: (c :: nm') ++ 32 :: (y1 :: Y')) [])
             = Some (MState pv [] [d1 :: D'; c :: nm'; y1 :: Y'])).
  { eexists. unfold re_d_mon_y, cat, star, plus, rep. cbn [fold_right].
    do 9 step. apply first_eps. }
  destruct E as (pv & ->). reflexivity.
Qed.

Lemma first_opt_de pv r gs :
  count_prefix is_space r = O ->
  first_match (Opt (cat [Lit (py "de"); plus is_space]))
              (MState pv (100 :: 101 :: 32 :: r) gs)
  = Some (MState (Some 32) r gs).
Proof.
  intros Hr. apply first_opt. unfold cat, plus. cbn [fold_right].
  change (py "de") with [100; 101].
  eapply first_seq; [exact (first_lit [100; 101] pv (32 :: r) gs) |].
  eapply first_seq; [| apply first_eps].
  apply first_cls_one; [reflexivity | exact Hr | lia | exact I].
Qed.

Ltac step ::=
  eapply first_seq;
  [ first [ apply first_bos
          | apply first_eos
          | apply first_cls_skip; side
          | apply first_cls_one; side
          | apply first_grp_run; side
          | apply first_grp_end; side
          | apply first_grp_full; side
          | apply first_opt; apply first_cls_one; side
          | apply first_opt_skip; apply exec_cls_none; side
          | apply first_opt_de; side ] |].

(** [name D Y] *)
Lemma mon_d_y_matches d1 D' c nm' y1 Y' :
  forallb is_digit (d1 :: D') = true -> (length D' <= 1)%nat ->
  forallb is_lower (c :: nm') = true ->
  forallb is_digit (y1 :: Y') = true -> (1 <= length Y' <= 3)%nat ->
  re_match re_mon_d_y ((c :: nm') ++ 32 :: (d1 :: D') ++ 32 :: (y1 :: Y'))
  = Some [c :: nm'; d1 :: D'; y1 :: Y'].
Proof.
  intros HD LD HN HY LY. first_digit_facts. letter_facts.
  rewrite re_match_first.
  assert (E : exists pv,
             first_match re_mon_d_y
               (MState None ((c :: nm') ++ 32 :: (d1 :: D') ++ 32 :: (y1 :: Y')) [])
             = Some (MState pv [] [c :: nm'; d1 :: D'; y1 :: Y'])).
  { eexists. unfold re_mon_d_y, cat, star, plus, rep. cbn [fold_right].
    do 9 step. apply first_eps. }
  destruct E as (pv & ->). reflexivity.
Qed.

(** [D de name de Y] *)
Lemma d_de_mon_de_y_matches d1 D' c nm' y1 Y' :
  forallb is_digit (d1 :: D') = true -> (length D' <= 1)%nat ->
  forallb is_lower (c :: nm') = true ->
  forallb is_digit (y1 :: Y') = true -> (1 <= length Y' <= 3)%nat ->
  re_match re_d_de_mon_de_y
           ((d1 :: D') ++ 32 :: 100 :: 101 :: 32 :: (c :: nm')
              ++ 32 :: 100 :: 101 :: 32 :: (y1 :: Y'))
  = Some [d1 :: D'; c :: nm'; y1 :: Y'].
Proof.
  intros HD LD HN HY LY. first_digit_facts. letter_facts.
  rewrite re_match_first.
  assert (E : exists pv,
             first_match re_d_de_mon_de_y
               (MState None
                  ((d1 :: D') ++ 32 :: 100 :: 101 :: 32 :: (c :: nm')
                     ++ 32 :: 100 :: 101 :: 32 :: (y1 :: Y')) [])
             = Some (MState pv [] [d1 :: D'; c :: nm'; y1 :: Y'])).
  { eexists. unfold re_d_de_mon_de_y, star, plus, rep.
    unfold cat at 1. cbn [fold_right].
    do 11 step. apply first_eps. }
  destruct E as (pv & ->). reflexivity.
Qed.

(** [name YYYY]: the day takes the first two digits of the year. *)
Lemma mon_year_matches c nm' a b c2 d2 :
  forallb is_lower (c :: nm') = true ->
  forallb is_digit [a; b; c2; d2] = true ->
  re_match re_mon_d_y ((c :: nm') ++ 32 :: [a; b] ++ [c2; d2])
  = Some [c :: nm'; [a; b]; [c2; d2]].
Proof.
  intros HN HY. letter_facts. digit_facts.
  assert (HAB : forallb is_digit [a; b] = true) by (simpl; known; reflexivity).
  assert (HCD : forallb is_digit [c2; d2] = true) by (simpl; known; reflexivity).
  rewrite re_match_first.
  assert (E : exists pv,
             first_match re_mon_d_y
               (MState None ((c :: nm') ++ 32 :: [a; b] ++ [c2; d2]) [])
             = Some (MState pv [] [c :: nm'; [a; b]; [c2; d2]])).
  { eexists. unfold re_mon_d_y, cat, star, plus, rep. cbn [fold_right].
    do 4 step.
    eapply first_seq;
      [exact (first_grp_full is_digit 1 _ [a; b] [c2; d2] _ HAB (le_S _ _ (le_n _))) |].
    do 4 step. apply first_eps. }
  destruct E as (pv & ->). reflexivity.
Qed.

(* ================================================================= *)
(** ** Dates with a month name *)

Lemma parse_date_any_blocks s :
  tight s = true -> parse_date_any s = date_blocks (normalised s).
Proof.
  intros H. destruct (strip_tight s H) as [Hs Ht].
  unfold parse_date_any, normalised, date_blocks. rewrite Hs, Ht. reflexivity.
Qed.

Lemma table_get_above t c :
  forallb (fun kv => c <? fst kv) t = true -> table_get t c = None.
Proof.
  induction t as [|[k v] t IH]; simpl; [reflexivity |].
  rewrite andb_true_iff, N.ltb_lt. intros [Hk Ht].
  destruct (N.eqb_spec c k); [lia | exact (IH Ht)].
Qed.

Lemma strip_accents_ascii s :
  forallb is_ascii s = true -> _strip_accents s = s.
Proof.
  intros H. unfold _strip_accents, translate.
  set (t := maketrans _ _).
  assert (Ht : forallb (fun kv => 128 <=? fst kv) t = true) by (vm_compute; reflexivity).
  rewrite <- (map_id s) at 2. apply map_ext_in. intros c Hc.
  rewrite forallb_forall in H. specialize (H c Hc). unfold is_ascii in H.
  apply N.ltb_lt in H.
  rewrite table_get_above; [reflexivity |].
  apply forallb_forall. intros kv Hkv. rewrite forallb_forall in Ht.
  specialize (Ht kv Hkv). apply N.leb_le in Ht. apply N.ltb_lt. lia.
Qed.

Lemma lower_char_ascii c : is_ascii c = true -> is_ascii (lower_char c) = true.
Proof.
  unfold is_ascii, lower_char, in_range. rewrite !N.ltb_lt. intros H.
  destruct ((65 <=? c) && (c <=? 90)) eqn:E.
  - apply andb_true_iff in E. rewrite !N.leb_le in E. lia.
  - destruct ((192 <=? c) && (c <=? 222)) eqn:E2; cbn [andb]; [| exact H].
    apply andb_true_iff in E2. rewrite !N.leb_le in E2. lia.
Qed.

(** On a text of ASCII characters without comma or tab, that neither
    begins nor ends with a blank, the normalisation only lowers the case. *)
Lemma normalised_ascii s :
  tight s = true ->
  forallb date_char s = true ->
  normalised s = lower s.
Proof.
  intros Ht Hall. destruct (strip_tight s Ht) as [Hs _].
  unfold normalised. rewrite Hs. unfold re_sub.
  rewrite sub_from_none.
  - rewrite Hs. apply strip_accents_ascii. unfold lower.
    rewrite forallb_forall in *. intros c Hc. apply in_map_iff in Hc.
    destruct Hc as (c0 & <- & Hc0). apply lower_char_ascii.
    specialize (Hall c0 Hc0). unfold date_char in Hall.
    apply andb_true_iff in Hall. tauto.
  - apply List.Forall_forall. intros c Hc. rewrite forallb_forall in Hall.
    specialize (Hall c Hc). unfold date_char in Hall. apply andb_true_iff in Hall.
    destruct Hall as [_ Hall]. apply negb_true_iff in Hall. exact Hall.
Qed.

Lemma digit_date_char c : is_digit c = true -> date_char c = true.
Proof.
  intros H. apply digit_range in H. unfold date_char, is_ascii, is_comma_tab.
  change (ch ",") with 44.
  rewrite andb_true_iff, negb_true_iff, orb_false_iff, N.ltb_lt, !N.eqb_neq. lia.
Qed.

Lemma digit_lower c : is_digit c = true -> lower_char c = c.
Proof. intros H. apply plain_lower. left. exact H. Qed.

Lemma lower_digits s : forallb is_digit s = true -> lower s = s.
Proof.
  intros H. apply lower_plain. apply Forall_plain_digits. exact H.
Qed.

(** A character whose lower case is a letter [a-z] is an ASCII letter. *)
Lemma lower_letter_inv c :
  is_lower (lower_char c) = true -> date_char c = true /\ is_space c = false.
Proof.
  intros H. apply letter_range in H. unfold lower_char, in_range in H.
  assert (R : 65 <= c <= 90 \/ 97 <= c <= 122).
  { destruct ((65 <=? c) && (c <=? 90)) eqn:E.
    - apply andb_true_iff in E. rewrite !N.leb_le in E. lia.
    - destruct ((192 <=? c) && (c <=? 222)) eqn:E2; cbn [andb] in H.
      + apply andb_true_iff in E2. rewrite !N.leb_le in E2.
        destruct (negb (c =? 215)); lia.
      + lia. }
  split.
  - unfold date_char, is_ascii, is_comma_tab. change (ch ",") with 44.
    rewrite andb_true_iff, negb_true_iff, orb_false_iff, N.ltb_lt, !N.eqb_neq. lia.
  - apply not_space_between. lia.
Qed.

Lemma lower_letters_inv s :
  forallb is_lower (lower s) = true ->
  forallb date_char s = true /\ forallb (fun c => negb (is_space c)) s = true.
Proof.
  unfold lower. rewrite !forallb_forall. intros H. split; intros c Hc.
  - apply lower_letter_inv, H, in_map. exact Hc.
  - apply negb_true_iff, lower_letter_inv, H, in_map. exact Hc.
Qed.

(** The keys of both month tables are non-empty words of letters [a-z]. *)
Lemma month_names_letters mon mo :
  od_get MONTHS mon = Some mo \/ od_get V1.MONTHS mon = Some mo ->
  forallb is_lower mon = true /\ mon <> [].
Proof.
  assert (G : forall (t : odict str Z),
             forallb (fun kv => forallb is_lower (fst kv) && truthy (fst kv)) t = true ->
             od_get t mon = Some mo -> forallb is_lower mon = true /\ mon <> []).
  { intros t Ht Hget. apply od_get_In in Hget. rewrite forallb_forall in Ht.
    specialize (Ht _ Hget). simpl in Ht. apply andb_true_iff in Ht.
    destruct Ht as [H1 H2]. split; [exact H1 |]. intros ->. discriminate. }
  intros [H | H]; revert H; apply G; vm_compute; reflexivity.
Qed.

Lemma tight_outer a m b :
  (exists c a', a = c :: a' /\ is_space c = false) ->
  (exists b' c, b = b' ++ [c] /\ is_space c = false) ->
  tight (a ++ m ++ b) = true.
Proof.
  intros (c & a' & -> & Hc) (b' & z & -> & Hz). unfold tight.
  cbn [Datatypes.app]. rewrite Hc. cbn [negb andb].
  change (c :: a' ++ m ++ b' ++ [z]) with ((c :: a') ++ m ++ b' ++ [z]).
  rewrite !app_assoc, rev_app_distr. cbn [rev Datatypes.app]. rewrite Hz. reflexivity.
Qed.

Lemma digits_first s :
  forallb is_digit s = true -> s <> [] ->
  exists c s', s = c :: s' /\ is_space c = false.
Proof.
  intros H Hne. destruct s as [|c s']; [congruence |].
  exists c, s'. split; [reflexivity |]. apply digit_not_space.
  simpl in H. apply andb_true_iff in H. tauto.
Qed.

Lemma digits_last s :
  forallb is_digit s = true -> s <> [] ->
  exists s' c, s = s' ++ [c] /\ is_space c = false.
Proof.
  intros H Hne. destruct (exists_last Hne) as (s' & c & ->).
  exists s', c. split; [reflexivity |]. apply digit_not_space.
  rewrite forallb_app in H. apply andb_true_iff in H. destruct H as [_ H].
  simpl in H. apply andb_true_iff in H. tauto.
Qed.

Lemma digits_date_chars s : forallb is_digit s = true -> forallb date_char s = true.
Proof.
  rewrite !forallb_forall. intros H c Hc. apply digit_date_char. auto.
Qed.

Lemma nonempty_of_length {A} (l : list A) n : (S n <= length l)%nat -> l <> [].
Proof. destruct l; simpl; [lia | discriminate]. Qed.

Lemma day_name_year_lookup D nm Y mo :
  forallb is_digit D = true -> (1 <= length D)%nat ->
  forallb is_digit Y = true -> (1 <= length Y)%nat ->
  forallb is_lower nm = true -> od_get MONTHS nm = Some mo ->
  day_name_year [D; nm; Y]
  = Returns (Some (two_digit_year (decimal Y), mo, decimal D))
  /\ name_day_year [nm; D; Y]
     = Returns (Some (two_digit_year (decimal Y), mo, decimal D)).
Proof.
  intros HD LD HY LY HN Hget.
  unfold day_name_year, name_day_year. simpl.
  rewrite (int_digits D 0) by (split; simpl; assumption). simpl.
  rewrite (int_digits Y 0) by (split; simpl; assumption). simpl.
  rewrite (strip_dots_letters nm HN).
  unfold month_lookup, od_mem, od_item. rewrite Hget. simpl. tauto.
Qed.

Section Blocks.
Variables (D nm Y : str) (mo : Z).
Hypothesis HD : forallb is_digit D = true.
Hypothesis LD : (1 <= length D <= 2)%nat.
Hypothesis HN : forallb is_lower nm = true.
Hypothesis Hget : od_get MONTHS nm = Some mo.
Hypothesis HY : forallb is_digit Y = true.
Hypothesis LY : (2 <= length Y <= 4)%nat.

Let result : outcome (option date) :=
  Returns (Some (two_digit_year (decimal Y), mo, decimal D)).

Lemma blocks_d_mon_y : date_blocks (D ++ 32 :: nm ++ 32 :: Y) = result.
Proof.
  destruct (month_names_letters nm mo (or_introl Hget)) as [_ Hne].
  destruct (day_name_year_lookup D nm Y mo HD ltac:(lia) HY ltac:(lia) HN Hget)
    as [R _].
  destruct D as [|d1 D']; [simpl in LD; lia |].
  destruct nm as [|c nm']; [congruence |].
  destruct Y as [|y1 Y']; [simpl in LY; lia |].
  simpl in LD, LY.
  destruct (numeric_fail_after_digits d1 D' 32 ((c :: nm') ++ 32 :: y1 :: Y')
              HD ltac:(lia) eq_refl eq_refl) as [E1 E2].
  unfold date_blocks. rewrite E1, E2.
  rewrite (d_mon_y_matches d1 D' c nm' y1 Y' HD ltac:(lia) HN HY ltac:(lia)).
  cbn [if_match]. rewrite R. reflexivity.
Qed.

Lemma blocks_mon_d_y : date_blocks (nm ++ 32 :: D ++ 32 :: Y) = result.
Proof.
  destruct (month_names_letters nm mo (or_introl Hget)) as [_ Hne].
  destruct (day_name_year_lookup D nm Y mo HD ltac:(lia) HY ltac:(lia) HN Hget)
    as [_ R].
  destruct D as [|d1 D']; [simpl in LD; lia |].
  destruct nm as [|c nm']; [congruence |].
  destruct Y as [|y1 Y']; [simpl in LY; lia |].
  simpl in LD, LY.
  assert (Hc : is_lower c = true) by (simpl in HN; apply andb_true_iff in HN; tauto).
  destruct (day_first_fail c (nm' ++ 32 :: (d1 :: D') ++ 32 :: y1 :: Y')
              (letter_not_space c Hc) (letter_not_digit c Hc))
    as (E1 & E2 & E3 & _).
  unfold date_blocks.
  change ((c :: nm') ++ 32 :: (d1 :: D') ++ 32 :: y1 :: Y')
    with (c :: nm' ++ 32 :: (d1 :: D') ++ 32 :: y1 :: Y') at 1 2 3.
  rewrite E1, E2, E3.
  rewrite (mon_d_y_matches d1 D' c nm' y1 Y' HD ltac:(lia) HN HY ltac:(lia)).
  cbn [if_match]. rewrite R. reflexivity.
Qed.

Lemma blocks_d_de_mon_de_y :
  date_blocks (D ++ 32 :: 100 :: 101 :: 32 :: nm ++ 32 :: 100 :: 101 :: 32 :: Y)
  = result.
Proof.
  destruct (month_names_letters nm mo (or_introl Hget)) as [_ Hne].
  destruct (day_name_year_lookup D nm Y mo HD ltac:(lia) HY ltac:(lia) HN Hget)
    as [R _].
  destruct D as [|d1 D']; [simpl in LD; lia |].
  destruct nm as [|c nm']; [congruence |].
  destruct Y as [|y1 Y']; [simpl in LY; lia |].
  simpl in LD, LY.
  assert (Hc : is_lower c = true) by (simpl in HN; apply andb_true_iff in HN; tauto).
  assert (Hd1 : is_digit d1 = true) by (simpl in HD; apply andb_true_iff in HD; tauto).
  set (tail := nm' ++ 32 :: 100 :: 101 :: 32 :: y1 :: Y').
  destruct (numeric_fail_after_digits d1 D' 32 (100 :: 101 :: 32 :: c :: tail)
              HD ltac:(lia) eq_refl eq_refl) as [E1 E2].
  pose proof (d_mon_y_fail_on_de d1 D' 32 100 101 32 c tail HD ltac:(lia)
                eq_refl eq_refl eq_refl eq_refl eq_refl eq_refl eq_refl eq_refl
                (letter_not_space c Hc) (letter_not_digit c Hc)) as E3.
  pose proof (month_first_fail d1
                (D' ++ 32 :: 100 :: 101 :: 32 :: c :: tail)
                (digit_not_space d1 Hd1) (digit_not_az_dot d1 Hd1)) as E4.
  unfold date_blocks.
  change ((d1 :: D') ++ 32 :: 100 :: 101 :: 32 :: (c :: nm')
            ++ 32 :: 100 :: 101 :: 32 :: y1 :: Y')
    with ((d1 :: D') ++ 32 :: 100 :: 101 :: 32 :: c :: tail) at 1 2 3.
  rewrite E1, E2, E3.
  change ((d1 :: D') ++ 32 :: 100 :: 101 :: 32 :: (c :: nm')
            ++ 32 :: 100 :: 101 :: 32 :: y1 :: Y')
    with (d1 :: D' ++ 32 :: 100 :: 101 :: 32 :: c :: tail) at 1.
  rewrite E4.
  rewrite (d_de_mon_de_y_matches d1 D' c nm' y1 Y' HD ltac:(lia) HN HY ltac:(lia)).
  cbn [if_match]. rewrite R. reflexivity.
Qed.
End Blocks.

Lemma lower_app a b : lower (a ++ b) = lower a ++ lower b.
Proof. apply map_app. Qed.

Lemma letters_first s :
  forallb (fun c => negb (is_space c)) s = true -> s <> [] ->
  exists c s', s = c :: s' /\ is_space c = false.
Proof.
  intros H Hne. destruct s as [|c s']; [congruence |].
  exists c, s'. split; [reflexivity |].
  simpl in H. apply andb_true_iff in H. apply negb_true_iff. tauto.
Qed.

Lemma lower_nonempty s : lower s <> [] -> s <> [].
Proof. intros H ->. apply H. reflexivity. Qed.

(** X4. A date with a month name of the table, in any mix of upper and
    lower case, is read in the three orders the parser knows: day name
    year, name day year, and the Spanish [D de name de Y]. The day has one
    or two digits, the year two to four; a year below 100 is moved to
    2000 + year. *)
Theorem parse_date_any_month_names name mo D Y :
  od_get MONTHS (lower name) = Some mo ->
  forallb is_digit D = true -> (1 <= length D <= 2)%nat ->
  forallb is_digit Y = true -> (2 <= length Y <= 4)%nat ->
  let t := Returns (Some (two_digit_year (decimal Y), mo, decimal D)) in
  parse_date_any (D ++ py " " ++ name ++ py " " ++ Y) = t
  /\ parse_date_any (name ++ py " " ++ D ++ py " " ++ Y) = t
  /\ parse_date_any (D ++ py " de " ++ name ++ py " de " ++ Y) = t.
Proof.
  intros Hget HD LD HY LY t.
  destruct (month_names_letters _ _ (or_introl Hget)) as [HN Hne].
  destruct (lower_letters_inv name HN) as [Hdc Hns].
  pose proof (lower_nonempty name Hne) as Hne'.
  pose proof (digits_date_chars D HD) as HDc.
  pose proof (digits_date_chars Y HY) as HYc.
  assert (HDne : D <> []) by (apply (nonempty_of_length D 0); lia).
  assert (HYne : Y <> []) by (apply (nonempty_of_length Y 0); lia).
  change (py " ") with [32]. change (py " de ") with [32; 100; 101; 32].
  split; [| split].
  - assert (Ht : tight (D ++ [32] ++ name ++ [32] ++ Y) = true).
    { replace (D ++ [32] ++ name ++ [32] ++ Y)
        with (D ++ ([32] ++ name ++ [32]) ++ Y)
        by (rewrite <- !app_assoc; reflexivity).
      apply tight_outer; [apply digits_first | apply digits_last]; assumption. }
    rewrite (parse_date_any_blocks _ Ht), normalised_ascii; [| exact Ht |].
    + rewrite !lower_app, (lower_digits D HD), (lower_digits Y HY).
      apply (blocks_d_mon_y D (lower name) Y mo); assumption.
    + rewrite !forallb_app, HDc, Hdc, HYc. reflexivity.
  - assert (Ht : tight (name ++ [32] ++ D ++ [32] ++ Y) = true).
    { replace (name ++ [32] ++ D ++ [32] ++ Y)
        with (name ++ ([32] ++ D ++ [32]) ++ Y)
        by (rewrite <- !app_assoc; reflexivity).
      apply tight_outer; [apply letters_first | apply digits_last]; assumption. }
    rewrite (parse_date_any_blocks _ Ht), normalised_ascii; [| exact Ht |].
    + rewrite !lower_app, (lower_digits D HD), (lower_digits Y HY).
      apply (blocks_mon_d_y D (lower name) Y mo); assumption.
    + rewrite !forallb_app, HDc, Hdc, HYc. reflexivity.
  - assert (Ht : tight (D ++ [32; 100; 101; 32] ++ name ++ [32; 100; 101; 32] ++ Y)
                 = true).
    { replace (D ++ [32; 100; 101; 32] ++ name ++ [32; 100; 101; 32] ++ Y)
        with (D ++ ([32; 100; 101; 32] ++ name ++ [32; 100; 101; 32]) ++ Y)
        by (rewrite <- !app_assoc; reflexivity).
      apply tight_outer; [apply digits_first | apply digits_last]; assumption. }
    rewrite (parse_date_any_blocks _ Ht), normalised_ascii; [| exact Ht |].
    + rewrite !lower_app, (lower_digits D HD), (lower_digits Y HY).
      apply (blocks_d_de_mon_de_y D (lower name) Y mo); assumption.
    + rewrite !forallb_app, HDc, Hdc, HYc. reflexivity.
Qed.

Lemma parse_date_any_month_names_witness :
  od_get MONTHS (lower (py "Setiembre")) = Some 9%Z
  /\ forallb is_digit (py "7") = true /\ (1 <= length (py "7") <= 2)%nat
  /\ forallb is_digit (py "98") = true /\ (2 <= length (py "98") <= 4)%nat
  /\ parse_date_any (py "7" ++ py " " ++ py "Setiembre" ++ py " " ++ py "98")
     = Returns (Some (2098, 9, 7)%Z)
  /\ parse_date_any (py "Setiembre" ++ py " " ++ py "7" ++ py " " ++ py "98")
     = Returns (Some (2098, 9, 7)%Z)
  /\ parse_date_any (py "7" ++ py " de " ++ py "Setiembre" ++ py " de " ++ py "98")
     = Returns (Some (2098, 9, 7)%Z).
Proof.
  split; [reflexivity |]. split; [reflexivity |]. split; [simpl; lia |].
  split; [reflexivity |]. split; [simpl; lia |].
  apply (parse_date_any_month_names (py "Setiembre") 9 (py "7") (py "98"));
    try reflexivity; simpl; lia.
Defined.

(* ================================================================= *)
(** ** A month name and a year *)

Lemma flat_map_nil {A B} (f : A -> list B) l :
  (forall x, In x l -> f x = []) -> flat_map f l = [].
Proof.
  induction l as [|x l IH]; intros H; simpl; [reflexivity |].
  rewrite (H x (or_introl eq_refl)), IH; [reflexivity |].
  intros y Hy. apply H. right. exact Hy.
Qed.

Lemma exec_seq_all_nil a b st :
  (forall st1, In st1 (exec a st) -> exec b st1 = []) -> exec (Seq a b) st = [].
Proof. intros H. cbn [exec]. apply flat_map_nil. exact H. Qed.

Lemma exec_seq_single a b st st1 :
  exec a st = [st1] -> exec (Seq a b) st = exec b st1.
Proof. intros H. cbn [exec]. rewrite H. cbn [flat_map]. apply app_nil_r. Qed.

Lemma exec_grp_rest a st st1 :
  In st1 (exec (Grp a) st) -> exists st0, In st0 (exec a st) /\ m_rest st1 = m_rest st0.
Proof.
  cbn [exec]. intros H. apply in_map_iff in H. destruct H as (st0 & <- & H).
  exists st0. split; [exact H | reflexivity].
Qed.

Lemma exec_cls_rest p lo hi st st1 :
  In st1 (exec (Cls p lo hi) st) ->
  exists k, (lo <= k <= count_prefix p (m_rest st))%nat
            /\ m_rest st1 = skipn k (m_rest st).
Proof.
  cbn [exec]. intros H. apply in_map_iff in H. destruct H as (k & <- & H).
  apply in_down_to in H. exists k. split; [| apply consume_rest].
  destruct hi; lia.
Qed.

Lemma exec_plus_blank_nil st c r :
  m_rest st = c :: r -> is_space c = false ->
  forall b, exec (Seq (plus is_space) b) st = [].
Proof.
  intros E Hc b. cbn [exec plus]. rewrite E. cbn [count_prefix]. rewrite Hc.
  reflexivity.
Qed.

Lemma comma_not_prefix_of_digit x r :
  is_digit x = true -> is_prefix [44] (x :: r) = false.
Proof.
  intros Hx. apply digit_range in Hx. cbn [is_prefix].
  apply andb_false_iff. left. apply N.eqb_neq. lia.
Qed.

Section MonthYearV1.
Local Opaque is_digit is_space is_prefix.

(** After the month name: a blank and four digits, where the pattern of
    factuser-v1.py wants a blank between the day and the year. *)
Lemma V1_after_name_fail pv gs sp a b c d :
  is_space sp = true ->
  forallb is_digit [a; b; c; d] = true ->
  exec (cat [plus is_space; Grp (rep is_digit 1 2); Opt (Lit [44]);
             plus is_space; Grp (rep is_digit 2 4); star is_space; Eos])
       (MState pv (sp :: [a; b; c; d]) gs) = [].
Proof.
  intros Hsp HD. digit_facts.
  unfold cat, plus, star, rep. simpl. known. simpl. known. simpl.
  rewrite !comma_not_prefix_of_digit by assumption. simpl. known. reflexivity.
Qed.

Lemma V1_day_first_fail c rest :
  is_space c = false -> is_digit c = false ->
  re_match V1.re_d_mon_y (c :: rest) = None.
Proof.
  intros H1 H2. unfold re_match, V1.re_d_mon_y, cat, star, rep, one, plus.
  run_known. reflexivity.
Qed.
End MonthYearV1.

Lemma exec_cls_skip p hi st :
  count_prefix p (m_rest st) = O -> exec (Cls p 0 hi) st = [st].
Proof.
  intros H. cbn [exec]. rewrite H.
  assert (E : match hi with Some h => Nat.min 0 h | None => O end = O)
    by (destruct hi; reflexivity).
  rewrite E. destruct st. reflexivity.
Qed.

Lemma skipn_inside {A} k (l tail : list A) :
  (k < length l)%nat ->
  exists c r, In c l /\ skipn k (l ++ tail) = c :: r.
Proof.
  revert k. induction l as [|x l IH]; intros k Hk; simpl in Hk; [lia |].
  destruct k as [|k].
  - exists x, (l ++ tail). split; [left; reflexivity | reflexivity].
  - destruct (IH k ltac:(lia)) as (c & r & Hc & E).
    exists c, r. split; [right; exact Hc | exact E].
Qed.

(** [name YYYY] in factuser-v1.py: the month-first pattern fails, however
    much of the name its first group takes. *)
Lemma V1_mon_d_y_fail_on_year name a b c d :
  name <> [] -> forallb V1.is_alpha_dot name = true ->
  forallb (fun c => negb (is_space c)) name = true ->
  forallb is_digit [a; b; c; d] = true ->
  re_match V1.re_mon_d_y (name ++ 32 :: [a; b; c; d]) = None.
Proof.
  intros Hne Hal Hns HD. unfold re_match.
  enough (E : exec V1.re_mon_d_y (MState None (name ++ 32 :: [a; b; c; d]) []) = [])
    by (rewrite E; reflexivity).
  unfold V1.re_mon_d_y, cat. cbn [fold_right].
  rewrite (exec_seq_single Bos _ _ (MState None (name ++ 32 :: [a; b; c; d]) []))
    by reflexivity.
  rewrite (exec_seq_single (star is_space) _ _
             (MState None (name ++ 32 :: [a; b; c; d]) [])).
  2:{ apply exec_cls_skip. cbn [m_rest].
      destruct name as [|n1 name']; [congruence |].
      simpl in Hns. apply andb_true_iff in Hns. destruct Hns as [Hn1 _].
      apply negb_true_iff in Hn1. cbn [Datatypes.app count_prefix].
      rewrite Hn1. reflexivity. }
  apply exec_seq_all_nil. intros st1 Hin.
  apply exec_grp_rest in Hin. destruct Hin as (st0 & Hin & Erest).
  apply exec_cls_rest in Hin. destruct Hin as (k & Hk & Ek).
  cbn [m_rest] in Hk, Ek.
  rewrite (count_prefix_run V1.is_alpha_dot name (32 :: [a; b; c; d]) Hal eq_refl) in Hk.
  destruct (Nat.eq_dec k (length name)) as [-> | Hlt].
  - rewrite skipn_app, skipn_all, Nat.sub_diag in Ek. cbn [skipn Datatypes.app] in Ek.
    destruct st1 as [pv rest gs]. cbn [m_rest] in Erest. rewrite Ek in Erest.
    subst rest. exact (V1_after_name_fail pv gs 32 a b c d eq_refl HD).
  - destruct (skipn_inside k name (32 :: [a; b; c; d]) ltac:(lia))
      as (x & r & Hx & Es).
    rewrite Es in Ek. rewrite Ek in Erest.
    rewrite forallb_forall in Hns. specialize (Hns x Hx).
    apply negb_true_iff in Hns.
    exact (exec_plus_blank_nil st1 x r Erest Hns _).
Qed.

Lemma replace_comma_none s :
  forallb date_char s = true -> V1.replace_comma s = s.
Proof.
  intros H. unfold V1.replace_comma. rewrite <- (map_id s) at 2.
  apply map_ext_in. intros c Hc. rewrite forallb_forall in H.
  specialize (H c Hc). unfold date_char, is_comma_tab in H.
  apply andb_true_iff in H. destruct H as [_ H].
  apply negb_true_iff, orb_false_iff in H. destruct H as [H _].
  rewrite H. reflexivity.
Qed.

Lemma letter_alpha_dot c :
  is_lower (lower_char c) = true -> V1.is_alpha_dot c = true.
Proof.
  intros H. apply letter_range in H. unfold lower_char, in_range in H.
  unfold V1.is_alpha_dot, in_range.
  change (ch "A") with 65. change (ch "Z") with 90.
  change (ch "a") with 97. change (ch "z") with 122.
  destruct ((65 <=? c) && (c <=? 90)) eqn:E; [reflexivity |].
  destruct ((192 <=? c) && (c <=? 222)) eqn:E2; cbn [andb] in H.
  - apply andb_true_iff in E2. rewrite !N.leb_le in E2.
    destruct (negb (c =? 215)); lia.
  - cbn [orb]. replace ((97 <=? c) && (c <=? 122)) with true; [reflexivity |].
    symmetry. apply andb_true_iff. rewrite !N.leb_le. lia.
Qed.

(** X5. A month name followed by a year of four digits, as in [Feb 2023],
    is read by factuser-v2.py as a full date: the blank between day and
    year is optional in its month-first pattern, so that the first two
    digits become the day and the last two, moved to 2000 + year, the
    year. factuser-v1.py, whose pattern wants the blank, reads no date. *)
Theorem parse_date_any_month_and_year name mo a b c d :
  od_get MONTHS (lower name) = Some mo ->
  forallb is_digit [a; b; c; d] = true ->
  parse_date_any (name ++ py " " ++ [a; b; c; d])
  = Returns (Some ((decimal [c; d] + 2000)%Z, mo, decimal [a; b]))
  /\ V1.parse_date_any (name ++ py " " ++ [a; b; c; d]) = Returns None.
Proof.
  intros Hget HY.
  destruct (month_names_letters _ _ (or_introl Hget)) as [HN Hne].
  destruct (lower_letters_inv name HN) as [Hdc Hns].
  pose proof (lower_nonempty name Hne) as Hne'.
  pose proof (digits_date_chars _ HY) as HYc.
  change (py " ") with [32].
  assert (Ht : tight (name ++ [32] ++ [a; b; c; d]) = true).
  { replace (name ++ [32] ++ [a; b; c; d]) with (name ++ [32] ++ [a; b; c] ++ [d])
      by reflexivity.
    rewrite (app_assoc [32]).
    apply tight_outer; [apply letters_first; assumption |].
    exists [], d. split; [reflexivity |]. apply digit_not_space.
    simpl in HY. rewrite !andb_true_iff in HY. tauto. }
  assert (Hall : forallb date_char (name ++ [32] ++ [a; b; c; d]) = true).
  { rewrite !forallb_app, Hdc, HYc. reflexivity. }
  assert (HAB : forallb is_digit [a; b] = true)
    by (simpl in *; rewrite !andb_true_iff in *; tauto).
  assert (HCD : forallb is_digit [c; d] = true)
    by (simpl in *; rewrite !andb_true_iff in *; tauto).
  split.
  - rewrite (parse_date_any_blocks _ Ht), (normalised_ascii _ Ht Hall).
    rewrite !lower_app, (lower_digits _ HY).
    change (lower [32]) with [32].
    destruct (lower name) as [|n1 nm'] eqn:En; [congruence |].
    assert (Hn1 : is_lower n1 = true) by (simpl in HN; apply andb_true_iff in HN; tauto).
    destruct (day_first_fail n1 (nm' ++ [32] ++ [a; b; c; d])
                (letter_not_space n1 Hn1) (letter_not_digit n1 Hn1))
      as (E1 & E2 & E3 & _).
    unfold date_blocks.
    change ((n1 :: nm') ++ [32] ++ [a; b; c; d])
      with (n1 :: nm' ++ [32] ++ [a; b; c; d]) at 1 2 3.
    rewrite E1, E2, E3.
    change ((n1 :: nm') ++ [32] ++ [a; b; c; d])
      with ((n1 :: nm') ++ 32 :: [a; b] ++ [c; d]) at 1.
    rewrite (mon_year_matches n1 nm' a b c d HN HY). cbn [if_match].
    destruct (day_name_year_lookup [a; b] (n1 :: nm') [c; d] mo HAB
                ltac:(simpl; lia) HCD ltac:(simpl; lia) HN Hget) as [_ R].
    rewrite R. cbn [or_else bind]. do 3 f_equal.
    pose proof (decimal_range [c; d] HCD) as B. simpl length in B.
    rewrite pow10_2 in B. unfold two_digit_year.
    destruct (Z.ltb_spec (decimal [c; d]) 100); [reflexivity | lia].
  - unfold V1.parse_date_any.
    destruct (strip_tight _ Ht) as [Hs Htr]. rewrite Hs, Htr. cbn [negb].
    rewrite (replace_comma_none _ Hall), Hs.
    change (name ++ [32] ++ [a; b; c; d]) with (name ++ 32 :: [a; b; c; d]).
    rewrite (V1_mon_d_y_fail_on_year name a b c d Hne').
    + destruct name as [|n1 name']; [congruence |].
      destruct (lower_letter_inv n1) as [_ Hsp1].
      { simpl in HN. apply andb_true_iff in HN. tauto. }
      assert (Hdg1 : is_digit n1 = false).
      { destruct (is_digit n1) eqn:E; [| reflexivity].
        assert (Hl : is_lower (lower_char n1) = true)
          by (simpl in HN; apply andb_true_iff in HN; tauto).
        rewrite (digit_lower n1 E) in Hl. apply letter_not_digit in Hl. congruence. }
      destruct (day_first_fail n1 (name' ++ 32 :: [a; b; c; d]) Hsp1 Hdg1)
        as (E1 & E2 & _ & _ & E5).
      pose proof (V1_day_first_fail n1 (name' ++ 32 :: [a; b; c; d]) Hsp1 Hdg1) as E3.
      change ((n1 :: name') ++ 32 :: [a; b; c; d])
        with (n1 :: name' ++ 32 :: [a; b; c; d]).
      rewrite E1, E2, E3, E5. reflexivity.
    + apply forallb_forall. intros x Hx. apply letter_alpha_dot.
      rewrite forallb_forall in HN. apply HN. unfold lower. apply in_map. exact Hx.
    + exact Hns.
    + exact HY.
Qed.

Lemma parse_date_any_month_and_year_witness :
  od_get MONTHS (lower (py "Feb")) = Some 2%Z
  /\ forallb is_digit (py "2023") = true
  /\ parse_date_any (py "Feb" ++ py " " ++ py "2023")
     = Returns (Some (2023, 2, 20)%Z)
  /\ V1.parse_date_any (py "Feb" ++ py " " ++ py "2023") = Returns None.
Proof.
  split; [reflexivity |]. split; [reflexivity |].
  apply (parse_date_any_month_and_year (py "Feb") 2 50 48 50 51); reflexivity.
Defined.

(* ================================================================= *)
(** ** Numbers as text *)

Lemma decimal_app a b :
  decimal (a ++ b) = fold_left (fun acc c => (acc * 10 + digit_value c)%Z) b (decimal a).
Proof. unfold decimal. apply fold_left_app. Qed.

Lemma digit_char n : n < 10 -> is_digit (48 + n) = true /\ digit_value (48 + n) = Z.of_N n.
Proof.
  intros H. unfold is_digit, in_range, digit_value. split.
  - apply andb_true_iff. rewrite !N.leb_le. lia.
  - f_equal. lia.
Qed.

Lemma digits_of_spec fuel : forall n,
  (N.size_nat n <= fuel)%nat ->
  let ds := digits_of (S fuel) n in
  forallb is_digit ds = true /\ decimal ds = Z.of_N n /\ ds <> []
  /\ (n < 10 -> length ds = 1%nat)
  /\ (10 <= n < 100 -> length ds = 2%nat)
  /\ (100 <= n < 1000 -> length ds = 3%nat)
  /\ (1000 <= n < 10000 -> length ds = 4%nat).
Proof.
  induction fuel as [|fuel IH]; intros n Hn; cbn zeta.
  - assert (n = 0) by (destruct n; [reflexivity | destruct p; simpl in Hn; lia]).
    subst n. simpl. repeat split; try reflexivity; try lia. discriminate.
  - change (digits_of (S (S fuel)) n)
      with (if n <? 10 then [48 + n]
            else digits_of (S fuel) (n / 10) ++ [48 + n mod 10]).
    destruct (N.ltb_spec n 10) as [Hlt | Hge].
    + destruct (digit_char n Hlt) as [Hd Hv].
      repeat split; try lia.
      * simpl. rewrite Hd. reflexivity.
      * unfold decimal. simpl. rewrite Hv. lia.
      * discriminate.
    + assert (Hq : (N.size_nat (n / 10) <= fuel)%nat).
      { assert (Hs : (N.size_nat (n / 10) < N.size_nat n)%nat).
        { assert (Hdiv : n / 10 <= n / 2).
          { apply N.div_le_compat_l. lia. }
          assert (Hhalf : (N.size_nat (n / 2) < N.size_nat n)%nat).
          { rewrite <- N.div2_div. destruct n as [|p]; [lia |].
            destruct p; simpl; lia. }
          assert (Hmono : forall x y, x <= y -> (N.size_nat x <= N.size_nat y)%nat).
          { intros x y Hxy.
            destruct x as [|px]; [simpl; lia |].
            destruct y as [|py_]; [lia |].
            simpl. pose proof (Pos.size_nat_monotone px py_) as Hm.
            destruct (Pos.eq_dec px py_) as [-> | Hne]; [lia |].
            assert (px < py_)%positive by lia. specialize (Hm H). lia. }
          specialize (Hmono _ _ Hdiv). lia. }
        lia. }
      specialize (IH (n / 10) Hq). cbn zeta in IH.
      destruct IH as (I1 & I2 & I3 & L1 & L2 & L3 & L4).
      assert (Hm : n mod 10 < 10) by (apply N.mod_lt; lia).
      destruct (digit_char (n mod 10) Hm) as [Hd Hv].
      assert (Hdiv : n = 10 * (n / 10) + n mod 10) by (apply N.div_mod'; lia).
      repeat split.
      * rewrite forallb_app, I1. simpl. rewrite Hd. reflexivity.
      * rewrite decimal_snoc, I2, Hv. lia.
      * destruct (digits_of (S fuel) (n / 10)); discriminate.
      * lia.
      * intros H. rewrite length_app, L1; [reflexivity |].
        apply N.Div0.div_lt_upper_bound; lia.
      * intros H. rewrite length_app, L2; [reflexivity |]. split.
        -- apply N.div_le_lower_bound; lia.
        -- apply N.Div0.div_lt_upper_bound; lia.
      * intros H. rewrite length_app, L3; [reflexivity |]. split.
        -- apply N.div_le_lower_bound; lia.
        -- apply N.Div0.div_lt_upper_bound; lia.
Qed.

Lemma str_of_N_spec n :
  let ds := str_of_N n in
  forallb is_digit ds = true /\ decimal ds = Z.of_N n /\ ds <> []
  /\ (n < 10 -> length ds = 1%nat)
  /\ (10 <= n < 100 -> length ds = 2%nat)
  /\ (100 <= n < 1000 -> length ds = 3%nat)
  /\ (1000 <= n < 10000 -> length ds = 4%nat).
Proof. apply (digits_of_spec (N.size_nat n) n). lia. Qed.

Lemma decimal_zeros k s : decimal (repeat 48 k ++ s) = decimal s.
Proof.
  rewrite decimal_app. unfold decimal at 2.
  replace (decimal (repeat 48 k)) with 0%Z; [reflexivity |].
  induction k as [|k IH]; [reflexivity |].
  replace (repeat 48 (S k)) with (repeat 48 k ++ [48])
    by (rewrite <- repeat_cons; reflexivity).
  rewrite decimal_snoc, <- IH. reflexivity.
Qed.

Lemma forallb_repeat {A} (p : A -> bool) x k : p x = true -> forallb p (repeat x k) = true.
Proof. intros H. induction k; simpl; [reflexivity | rewrite H; exact IHk]. Qed.

(** [f"{z:04d}"] and [f"{z:02d}"] of a number that fits: exactly that many
    digits, which denote the number. *)
Lemma format_0d_fits w z :
  (w = 2 /\ 0 <= z <= 99)%Z \/ (w = 4 /\ 0 <= z <= 9999)%Z ->
  let s := format_0d (Z.to_nat w) z in
  forallb is_digit s = true /\ length s = Z.to_nat w /\ decimal s = z.
Proof.
  intros H. cbn zeta. unfold format_0d.
  assert (Hz : (0 <= z)%Z) by lia.
  destruct (Z.ltb_spec z 0); [lia |].
  destruct (str_of_N_spec (Z.abs_N z)) as (D & V & _ & L1 & L2 & L3 & L4).
  set (ds := str_of_N (Z.abs_N z)) in *.
  assert (Hv : Z.of_N (Z.abs_N z) = z) by (rewrite N2Z.inj_abs_N; lia).
  split; [| split].
  - rewrite forallb_app, D, andb_true_r. apply forallb_repeat. reflexivity.
  - rewrite length_app, repeat_length.
    assert (length ds <= Z.to_nat w)%nat; [| lia].
    destruct H as [[-> Hr] | [-> Hr]].
    + destruct (N.ltb_spec (Z.abs_N z) 10); [rewrite L1 by lia; simpl; lia |].
      rewrite L2 by lia. simpl; lia.
    + destruct (N.ltb_spec (Z.abs_N z) 10); [rewrite L1 by lia; simpl; lia |].
      destruct (N.ltb_spec (Z.abs_N z) 100); [rewrite L2 by lia; simpl; lia |].
      destruct (N.ltb_spec (Z.abs_N z) 1000); [rewrite L3 by lia; simpl; lia |].
      rewrite L4 by lia. simpl; lia.
  - rewrite decimal_zeros, V. exact Hv.
Qed.

Lemma list_of_length_2 {A} (l : list A) : length l = 2%nat -> exists a b, l = [a; b].
Proof. destruct l as [|a [|b [|]]]; simpl; try lia. intros _. eauto. Qed.

Lemma list_of_length_4 {A} (l : list A) :
  length l = 4%nat -> exists a b c d, l = [a; b; c; d].
Proof.
  destruct l as [|a [|b [|c [|d [|]]]]]; simpl; try lia. intros _.
  exists a, b, c, d. reflexivity.
Qed.

(* ================================================================= *)
(** ** The date of the form *)

(** [YYYY-MM-DD] *)
Lemma ymd_matches a b c d e f g h :
  forallb is_digit [a; b; c; d] = true ->
  forallb is_digit [e; f] = true ->
  forallb is_digit [g; h] = true ->
  re_match re_ymd ([a; b; c; d] ++ 45 :: [e; f] ++ 45 :: [g; h])
  = Some [[a; b; c; d]; [e; f]; [g; h]].
Proof.
  intros HY HM HD. digit_facts.
  assert (HY : forallb is_digit [a; b; c; d] = true) by (simpl; known; reflexivity).
  assert (HM : forallb is_digit [e; f] = true) by (simpl; known; reflexivity).
  assert (HD : forallb is_digit [g; h] = true) by (simpl; known; reflexivity).
  rewrite re_match_first.
  assert (E : exists pv,
             first_match re_ymd
               (MState None ([a; b; c; d] ++ 45 :: [e; f] ++ 45 :: [g; h]) [])
             = Some (MState pv [] [[a; b; c; d]; [e; f]; [g; h]])).
  { eexists. unfold re_ymd, cat, star, plus, rep, one. cbn [fold_right].
    do 9 step. apply first_eps. }
  destruct E as (pv & ->). reflexivity.
Qed.

Lemma year_month_day_digits Y M D :
  forallb is_digit Y = true -> (1 <= length Y)%nat ->
  forallb is_digit M = true -> (1 <= length M)%nat ->
  forallb is_digit D = true -> (1 <= length D)%nat ->
  year_month_day [Y; M; D] = Returns (Some (decimal Y, decimal M, decimal D)).
Proof.
  intros HY LY HM LM HD LD. unfold year_month_day. simpl.
  rewrite (int_digits Y 0) by (split; simpl; assumption). simpl.
  rewrite (int_digits M 0) by (split; simpl; assumption). simpl.
  rewrite (int_digits D 0) by (split; simpl; assumption). reflexivity.
Qed.

Lemma strip_digits s : forallb is_digit s = true -> strip s = s.
Proof.
  intros H. apply strip_by_none. apply List.Forall_forall. intros c Hc.
  rewrite forallb_forall in H. apply digit_not_space. auto.
Qed.

(** The date fields, filled with digits, read back as the date they
    denote. *)
Lemma parse_date_any_iso Y M D :
  forallb is_digit Y = true -> length Y = 4%nat ->
  forallb is_digit M = true -> length M = 2%nat ->
  forallb is_digit D = true -> length D = 2%nat ->
  parse_date_any (Y ++ py "-" ++ M ++ py "-" ++ D)
  = Returns (Some (decimal Y, decimal M, decimal D)).
Proof.
  intros HY LY HM LM HD LD.
  destruct (list_of_length_4 Y LY) as (a & b & c & d & ->).
  destruct (list_of_length_2 M LM) as (e & f & ->).
  destruct (list_of_length_2 D LD) as (g & h & ->).
  change (py "-") with [45].
  set (x := [a; b; c; d] ++ [45] ++ [e; f] ++ [45] ++ [g; h]).
  assert (Hplain : Forall plain x).
  { unfold x. repeat (apply List.Forall_app; split);
      try (apply Forall_plain_digits; assumption);
      repeat constructor; right; reflexivity. }
  assert (Ht : tight x = true).
  { unfold x. replace ([a; b; c; d] ++ [45] ++ [e; f] ++ [45] ++ [g; h])
      with ([a; b; c; d] ++ ([45] ++ [e; f] ++ [45]) ++ [g; h]) by reflexivity.
    apply tight_outer; [apply digits_first | apply digits_last];
      (assumption || discriminate). }
  rewrite (parse_date_any_blocks x Ht).
  assert (En : normalised x = x) by (apply normalised_plain; exact Hplain).
  rewrite En. unfold date_blocks, x.
  change ([a; b; c; d] ++ [45] ++ [e; f] ++ [45] ++ [g; h])
    with ([a; b; c; d] ++ 45 :: [e; f] ++ 45 :: [g; h]).
  rewrite (ymd_matches a b c d e f g h HY HM HD). cbn [if_match].
  rewrite year_month_day_digits by (assumption || (simpl; lia)).
  reflexivity.
Qed.


(** X6. A date the parser reads is written to the form as four, two and
    two digits, and the form then reads back as the same date: the
    current value [YYYY-MM-DD] of the date fields parses to the triple that
    was applied. The log is left alone. *)
Theorem apply_date_round_trip w txt y mo d :
  parse_date_any txt = Returns (Some (y, mo, d)) ->
  let f' := set_date (format_0d 4 y) (format_0d 2 mo) (format_0d 2 d) (fst w) in
  _apply_date_from_text txt w = Returns (f', snd w)
  /\ length (year_edit f') = 4%nat
  /\ length (month_edit f') = 2%nat
  /\ length (day_edit f') = 2%nat
  /\ current_value_for f' Kdate
     = year_edit f' ++ py "-" ++ month_edit f' ++ py "-" ++ day_edit f'
  /\ parse_date_any (current_value_for f' Kdate) = Returns (Some (y, mo, d)).
Proof.
  intros Hp f'.
  destruct (parsed_date_in_range txt y mo d (or_introl Hp)) as (Ry & Rm & Rd).
  destruct (format_0d_fits 4 y) as (Y1 & Y2 & Y3); [right; lia |].
  destruct (format_0d_fits 2 mo) as (M1 & M2 & M3); [left; lia |].
  destruct (format_0d_fits 2 d) as (D1 & D2 & D3); [left; lia |].
  change (Z.to_nat 4) with 4%nat in *. change (Z.to_nat 2) with 2%nat in *.
  assert (Ecur : current_value_for f' Kdate
                 = format_0d 4 y ++ py "-" ++ format_0d 2 mo ++ py "-" ++ format_0d 2 d).
  { unfold current_value_for, f'. cbn [year_edit month_edit day_edit set_date].
    rewrite (strip_digits _ Y1), (strip_digits _ M1), (strip_digits _ D1).
    destruct (format_0d 4 y); [discriminate | reflexivity]. }
  split.
  { unfold _apply_date_from_text. rewrite Hp. reflexivity. }
  split; [exact Y2 |]. split; [exact M2 |]. split; [exact D2 |].
  split; [exact Ecur |].
  rewrite Ecur, (parse_date_any_iso _ _ _ Y1 Y2 M1 M2 D1 D2), Y3, M3, D3.
  reflexivity.
Qed.

Lemma apply_date_round_trip_witness :
  parse_date_any (py "7 de Setiembre de 98") = Returns (Some (2098, 9, 7)%Z)
  /\ _apply_date_from_text (py "7 de Setiembre de 98")
                           (Form [] [] [] (py "Acme") [] [] [] [] [], [])
     = Returns (Form (py "2098") (py "09") (py "07") (py "Acme") [] [] [] [] [], [])
  /\ parse_date_any (py "2098-09-07") = Returns (Some (2098, 9, 7)%Z).
Proof.
  split; [vm_compute; reflexivity |].
  pose proof (apply_date_round_trip
                (Form [] [] [] (py "Acme") [] [] [] [] [], [])
                (py "7 de Setiembre de 98") 2098 9 7) as H.
  cbv zeta in H. destruct H as (H1 & _ & _ & _ & _ & H2); [vm_compute; reflexivity |].
  split; [exact H1 | exact H2].
Defined.

(* ================================================================= *)
(** ** Applying the selections *)

Lemma currentText_empty c : count c = O -> currentText c = [].
Proof.
  unfold currentText, count. intros H. rewrite H.
  destruct (0 <=? currentIndex c)%Z eqn:E; [| reflexivity].
  apply Z.leb_le in E. destruct (Z.ltb_spec (currentIndex c) (Z.of_nat 0)); [lia |].
  reflexivity.
Qed.

Lemma field_of_set_field k k' v f :
  k <> Kdate -> k' <> Kdate ->
  field_of k' (set_field k v f) = if decide (k' = k) then v else field_of k' f.
Proof. intros Hk Hk'. destruct k, k'; try congruence; reflexivity. Qed.

Lemma set_field_frame k v f :
  card_edit (set_field k v f) = card_edit f
  /\ (k <> Kdate ->
      year_edit (set_field k v f) = year_edit f
      /\ month_edit (set_field k v f) = month_edit f
      /\ day_edit (set_field k v f) = day_edit f).
Proof. destruct k; simpl; tauto. Qed.

(** One round of the loop: never raises, leaves the card alone, and
    changes the line edit of its own key only. *)
Lemma apply_one_spec k c w :
  exists w',
    apply_one k c w = Returns w'
    /\ card_edit (fst w') = card_edit (fst w)
    /\ (forall k', k' <> Kdate ->
                   field_of k' (fst w')
                   = if decide (k' = k) then applied c (field_of k' (fst w))
                     else field_of k' (fst w)).
Proof.
  unfold apply_one, applied.
  destruct (Nat.eqb_spec (count c) 0) as [E0 | N0].
  { exists w. split; [reflexivity |]. split; [reflexivity |].
    intros k' Hk'. rewrite (currentText_empty c E0).
    change (strip []) with (@nil N).
    replace (str_eqb [] []) with true by reflexivity.
    rewrite orb_true_r. destruct (decide (k' = k)); reflexivity. }
  set (sel := strip (currentText c)).
  destruct (str_eqb sel LEAVE_UNCHANGED || str_eqb sel []) eqn:El.
  { exists w. split; [reflexivity |]. split; [reflexivity |].
    intros k' Hk'. destruct (decide (k' = k)); reflexivity. }
  destruct (str_eqb sel CLEAR_FIELD) eqn:Ec.
  - destruct (decide (k = Kdate)) as [-> | Hk].
    + eexists. split; [reflexivity |]. split; [reflexivity |].
      intros k' Hk'. destruct (decide (k' = Kdate)); [congruence |].
      destruct k'; try congruence; reflexivity.
    + exists (set_field k [] (fst w), snd w).
      split; [destruct k; try congruence; reflexivity |].
      split; [apply set_field_frame |].
      intros k' Hk'. cbn [fst]. apply field_of_set_field; assumption.
  - destruct (decide (k = Kdate)) as [-> | Hk].
    + unfold _apply_date_from_text.
      destruct (parse_date_any_returns sel) as (r & ->). cbn [bind].
      destruct r as [[[y mo] d]|]; eexists; (split; [reflexivity |]);
        (split; [reflexivity |]);
        intros k' Hk'; (destruct (decide (k' = Kdate)); [congruence |]);
        destruct k'; try congruence; reflexivity.
    + exists (set_field k sel (fst w), snd w).
      split; [destruct k; try congruence; reflexivity |].
      split; [apply set_field_frame |].
      intros k' Hk'. cbn [fst]. apply field_of_set_field; assumption.
Qed.

Lemma apply_each_spec ks combos : forall w,
  List.NoDup ks ->
  exists w',
    apply_each ks combos w = Returns w'
    /\ card_edit (fst w') = card_edit (fst w)
    /\ (forall k', k' <> Kdate ->
                   field_of k' (fst w')
                   = if List.in_dec key_eq_dec k' ks
                     then applied (combos k') (field_of k' (fst w))
                     else field_of k' (fst w)).
Proof.
  induction ks as [|k ks IH]; intros w Hnd.
  - exists w. split; [reflexivity |]. split; [reflexivity |].
    intros k' _. reflexivity.
  - inversion Hnd as [| ? ? Hk Hnd']; subst.
    destruct (apply_one_spec k (combos k) w) as (w1 & E1 & C1 & F1).
    destruct (IH w1 Hnd') as (w2 & E2 & C2 & F2).
    exists w2. cbn [apply_each]. rewrite E1. cbn [bind].
    split; [exact E2 |]. split; [congruence |].
    intros k' Hk'. rewrite (F2 k' Hk'), (F1 k' Hk').
    destruct (List.in_dec key_eq_dec k' (k :: ks)) as [Hin | Hnin];
      destruct (List.in_dec key_eq_dec k' ks) as [Hin' | Hnin'];
      destruct (decide (k' = k)) as [-> | Hne];
      try reflexivity; try contradiction.
    + destruct Hin as [E | Hin]; [congruence | contradiction].
    + exfalso. apply Hnin. right. exact Hin'.
    + exfalso. apply Hnin. left. reflexivity.
Qed.

Lemma sugg_keys_all k : In k sugg_keys.
Proof. destruct k; simpl; tauto. Qed.

Lemma sugg_keys_NoDup : List.NoDup sugg_keys.
Proof.
  unfold sugg_keys. repeat constructor; simpl; intuition discriminate.
Qed.

Lemma apply_suggestions_spec combos w :
  exists w',
    apply_suggestions combos w = Returns w'
    /\ card_edit (fst w') = card_edit (fst w)
    /\ (forall k, k <> Kdate ->
                  field_of k (fst w')
                  = applied (combos k) (field_of k (fst w))).
Proof.
  destruct (apply_each_spec sugg_keys combos w sugg_keys_NoDup)
    as (w1 & E1 & C1 & F1).
  exists (log_msg (py "Applied selected AI suggestions") w1).
  unfold apply_suggestions. rewrite E1. cbn [bind].
  split; [reflexivity |]. split; [exact C1 |].
  intros k Hk. cbn [log_msg fst]. rewrite (F1 k Hk).
  destruct (List.in_dec key_eq_dec k sugg_keys) as [_ | Hn]; [reflexivity |].
  exfalso. apply Hn, sugg_keys_all.
Qed.

(** X7. [apply_suggestions] never raises, never touches the card field,
    and treats the keys one by one: what the line edit of a key other than
    the date holds afterwards depends on the selection of that key alone.
    It keeps its text when the selection is empty or "leave unchanged",
    is emptied by "clear field", and otherwise takes the selected text,
    stripped. *)
Theorem apply_suggestions_by_key combos w :
  exists w',
    apply_suggestions combos w = Returns w'
    /\ card_edit (fst w') = card_edit (fst w)
    /\ (forall k, k <> Kdate ->
                  field_of k (fst w')
                  = let sel := strip (currentText (combos k)) in
                    if str_eqb sel LEAVE_UNCHANGED || str_eqb sel []
                    then field_of k (fst w)
                    else if str_eqb sel CLEAR_FIELD then []
                    else sel).
Proof. apply apply_suggestions_spec. Qed.

(* ================================================================= *)
(** ** Applying the default selections *)

(** The history values [_csv_top_for_file] lists are stripped and not
    empty. *)
Lemma csv_top_values ix fname k v :
  In v (_csv_top_for_file ix fname k) -> strip v = v /\ truthy v = true.
Proof.
  unfold _csv_top_for_file.
  set (rows := default [] (seen_by_filename ix !! fname)).
  destruct rows as [|r0 rows'] eqn:Er; [intros [] |]. rewrite <- Er. clear Er.
  intros Hin. apply in_map_iff in Hin. destruct Hin as ([v' n] & <- & Hin).
  cbn [fst].
  apply (Permutation_in _ (sorted_perm more_common (count_values rows k))) in Hin.
  destruct (count_values_fold k rows [] (List.NoDup_nil _)) as [Hnd Hget].
  cbv zeta in Hnd, Hget.
  change (fold_left _ rows []) with (count_values rows k) in Hnd, Hget.
  apply (od_In_get _ _ _ Hnd) in Hin. rewrite Hget in Hin.
  destruct (List.filter (counts_value k v') rows) as [|r l] eqn:Ef;
    [simpl in Hin; discriminate |].
  assert (Hr : In r (List.filter (counts_value k v') rows))
    by (rewrite Ef; left; reflexivity).
  apply filter_In in Hr. destruct Hr as [_ Hr]. unfold counts_value in Hr.
  apply andb_true_iff in Hr. destruct Hr as [Ht Hv].
  apply bool_decide_eq_true in Hv. subst v'. split; [| exact Ht].
  unfold value_of. apply strip_idem.
Qed.

Lemma fill_from_sources_head v rest ai_vals cur :
  strip v = v -> truthy v = true ->
  exists more, items (fill_from_sources (v :: rest) ai_vals cur) = v :: more.
Proof.
  intros Hs Ht. rewrite fill_from_sources_refines.
  unfold spec_build, spec_candidates. cbn [List.map fold_left]. rewrite Hs.
  assert (E0 : spec_append [] v = [v]).
  { unfold spec_append. rewrite Ht. reflexivity. }
  rewrite E0.
  assert (Hnd : List.NoDup [v]) by (constructor; [intros [] | constructor]).
  assert (Hne : Forall (fun x => truthy x = true) [v]) by (constructor; [exact Ht | constructor]).
  destruct (spec_append_fold (List.map strip rest) [v] Hnd Hne)
    as (Hnd1 & Hne1 & (m1 & E1) & _).
  cbv zeta in *. rewrite E1 in *.
  destruct (spec_append_fold (List.map strip ai_vals) ([v] ++ m1) Hnd1 Hne1)
    as (_ & _ & (m2 & E2) & _).
  cbv zeta in E2. rewrite E2.
  destruct (truthy (strip cur) && _); eexists; simpl; reflexivity.
Qed.

Lemma is_marker_false v :
  is_marker v = false -> str_eqb v LEAVE_UNCHANGED = false /\ str_eqb v CLEAR_FIELD = false.
Proof. unfold is_marker. apply orb_false_iff. Qed.


(** X8. With the selections [render_current] leaves in the drop-downs,
    [apply_suggestions] writes into each field other than the date the
    first history value of the file for that field (the most frequent
    one), whatever the field held: the text typed into the form is
    replaced. *)
Theorem apply_after_render a fname k v rest lg :
  k <> Kdate ->
  _csv_top_for_file (indices a) fname k = v :: rest ->
  is_marker v = false ->
  exists w',
    apply_suggestions (render_current a fname) (fields a, lg) = Returns w'
    /\ field_of k (fst w') = v.
Proof.
  intros Hk Htop Hm.
  destruct (csv_top_values (indices a) fname k v) as [Hs Ht].
  { rewrite Htop. left. reflexivity. }
  destruct (apply_suggestions_spec (render_current a fname) (fields a, lg))
    as (w' & E & _ & F).
  exists w'. split; [exact E |]. rewrite (F k Hk).
  unfold render_current, populate_ai_from_sources. rewrite Htop.
  set (ai := default [] (od_get (default [] (ai_cache a !! fname)) k)).
  set (cur := current_value_for (fields a) k).
  destruct (fill_from_sources_head v rest ai cur Hs Ht) as (more & Ei).
  assert (Ec : currentText (fill_from_sources (v :: rest) ai cur) = v).
  { unfold currentText, count. unfold fill_from_sources in *.
    cbn [items currentIndex] in *. rewrite Ei.
    cbn [length Nat.ltb Nat.leb itemText nth andb]. rewrite Hm. simpl. reflexivity. }
  unfold applied. rewrite Ec, Hs.
  destruct (is_marker_false v Hm) as [-> ->].
  replace (str_eqb v []) with false; [reflexivity |].
  symmetry. unfold str_eqb. apply bool_decide_eq_false. intros ->. discriminate.
Qed.

Lemma apply_after_render_witness :
  Kprovider <> Kdate
  /\ _csv_top_for_file (indices sample_app) (py "a.pdf") Kprovider = [py "Beta"]
  /\ is_marker (py "Beta") = false
  /\ provider_edit (fields sample_app) = py "Acme"
  /\ exists w',
      apply_suggestions (render_current sample_app (py "a.pdf"))
                        (fields sample_app, [])
      = Returns w'
      /\ field_of Kprovider (fst w') = py "Beta".
Proof.
  split; [discriminate |]. split; [vm_compute; reflexivity |].
  split; [reflexivity |]. split; [reflexivity |].
  apply (apply_after_render sample_app (py "a.pdf") Kprovider (py "Beta") [] []);
    [discriminate | vm_compute; reflexivity | reflexivity].
Defined.

(* ================================================================= *)
(** ** The entities of a document *)

Lemma setdefault_get sugg k v k' :
  od_get (setdefault_append sugg k v) k'
  = if decide (k' = k) then Some (default [] (od_get sugg k) ++ [v])
    else od_get sugg k'.
Proof. unfold setdefault_append. apply od_get_set. Qed.

Lemma entity_step_field sugg e :
  entity_step sugg e
  = match entity_field e with
    | Some k => setdefault_append sugg k (mention e)
    | None => sugg
    end.
Proof.
  unfold entity_step, entity_field, mention.
  destruct (truthy (strip (or_empty (mention_text e)))); reflexivity.
Qed.

Lemma entity_fold_get es : forall sugg k,
  od_get (fold_left entity_step es sugg) k
  = match mentions_of k es with
    | [] => od_get sugg k
    | l => Some (default [] (od_get sugg k) ++ l)
    end.
Proof.
  induction es as [|e rest IH]; intros sugg k; [reflexivity |].
  cbn [fold_left]. rewrite IH, entity_step_field.
  unfold mentions_of. cbn [List.filter].
  destruct (entity_field e) as [k0|] eqn:Ef.
  - rewrite setdefault_get.
    destruct (decide (k = k0)) as [-> | Hne].
    + rewrite bool_decide_eq_true_2 by reflexivity. cbn [List.map].
      destruct (List.map mention (List.filter _ rest)); simpl;
        [reflexivity | rewrite <- app_assoc; reflexivity].
    + rewrite bool_decide_eq_false_2 by congruence. reflexivity.
  - rewrite bool_decide_eq_false_2 by discriminate. reflexivity.
Qed.

Lemma iban_fold_get ms : forall sugg k,
  od_get (fold_left (fun s m => setdefault_append s Kiban m) ms sugg) k
  = if decide (k = Kiban)
    then match ms with
         | [] => od_get sugg k
         | _ => Some (default [] (od_get sugg k) ++ ms)
         end
    else od_get sugg k.
Proof.
  induction ms as [|m rest IH]; intros sugg k.
  - simpl. destruct (decide (k = Kiban)); reflexivity.
  - cbn [fold_left]. rewrite IH, setdefault_get.
    destruct (decide (k = Kiban)) as [-> | Hne]; [| reflexivity].
    destruct rest; simpl; [reflexivity | rewrite <- app_assoc; reflexivity].
Qed.

Lemma field_of_type_not_iban et : field_of_type et <> Some Kiban.
Proof.
  unfold field_of_type.
  repeat match goal with |- context [one_of ?t et] => destruct (one_of t et) end;
    discriminate.
Qed.

Lemma mentions_of_iban es : mentions_of Kiban es = [].
Proof.
  unfold mentions_of. induction es as [|e rest IH]; [reflexivity |].
  cbn [List.filter]. rewrite bool_decide_eq_false_2; [exact IH |].
  unfold entity_field. destruct (truthy (mention e)); [| discriminate].
  apply field_of_type_not_iban.
Qed.

Lemma extract_entities_get doc k :
  od_get (extract_entities doc) k
  = some_if_any (if decide (k = Kiban) then ibans_of doc
                 else mentions_of k (entities doc)).
Proof.
  unfold extract_entities. fold (ibans_of doc).
  rewrite iban_fold_get, !entity_fold_get.
  destruct (decide (k = Kiban)) as [-> | Hne].
  - rewrite mentions_of_iban. simpl. destruct (ibans_of doc); reflexivity.
  - simpl. destruct (mentions_of k (entities doc)); reflexivity.
Qed.

(** X9. The candidates [extract_entities] collects for a field are the
    mention texts, stripped and not empty, of the entities whose type
    (in lower case) belongs to the field, in the order of the document;
    the IBAN candidates are the matches of the IBAN pattern in the full
    text without its blanks. A field without a candidate has no entry. *)
Theorem extract_entities_by_field doc k :
  od_get (extract_entities doc) k
  = some_if_any (if decide (k = Kiban) then ibans_of doc
                 else mentions_of k (entities doc)).
Proof. apply extract_entities_get. Qed.

(* ================================================================= *)
(** ** The shape of a candidate *)

Lemma exec_cls_in p lo hi st st1 :
  In st1 (exec (Cls p lo hi) st) ->
  exists k, (lo <= k)%nat /\ (k <= count_prefix p (m_rest st))%nat
            /\ within (firstn k (m_rest st)) hi
            /\ m_rest st1 = skipn k (m_rest st).
Proof.
  cbn [exec]. intros H. apply in_map_iff in H. destruct H as (k & <- & H).
  apply in_down_to in H. exists k.
  pose proof (count_prefix_le p (m_rest st)) as Hle.
  split; [lia |]. split; [destruct hi; lia |].
  split; [| apply consume_rest].
  destruct hi as [h|]; simpl; [| exact I]. rewrite length_firstn. lia.
Qed.

(** A match of a pattern made of two repeated classes. *)
Lemma match_len_two_classes p1 lo1 h1 p2 lo2 h2 prev s n :
  match_len (cat [Cls p1 lo1 (Some h1); Cls p2 lo2 (Some h2)]) prev s = Some n ->
  exists k1 k2,
    n = (k1 + k2)%nat /\ (lo1 <= k1 <= h1)%nat /\ (lo2 <= k2 <= h2)%nat
    /\ forallb p1 (firstn k1 s) = true
    /\ forallb p2 (firstn k2 (skipn k1 s)) = true
    /\ (k1 + k2 <= length s)%nat.
Proof.
  unfold match_len, cat. cbn [fold_right].
  destruct (exec _ _) as [|st' l] eqn:E; [discriminate |]. cbn [head option_map].
  intros [= <-].
  assert (Hin : In st' (exec (Seq (Cls p1 lo1 (Some h1))
                                  (Seq (Cls p2 lo2 (Some h2)) Eps))
                             (MState prev s [])))
    by (rewrite E; left; reflexivity).
  cbn [exec] in Hin. apply in_flat_map in Hin. destruct Hin as (st1 & H1 & Hin).
  apply in_flat_map in Hin. destruct Hin as (st2 & H2 & Hin).
  destruct Hin as [<- | []].
  apply (exec_cls_in p1 lo1 (Some h1)) in H1.
  destruct H1 as (k1 & L1 & C1 & W1 & R1).
  apply (exec_cls_in p2 lo2 (Some h2)) in H2.
  destruct H2 as (k2 & L2 & C2 & W2 & R2).
  cbn [m_rest] in *. rewrite R1 in *.
  pose proof (count_prefix_le p1 s) as B1.
  pose proof (count_prefix_le p2 (skipn k1 s)) as B2.
  rewrite length_skipn in B2.
  simpl in W1, W2. rewrite length_firstn in W1, W2. rewrite length_skipn in W2.
  exists k1, k2. rewrite R2, !length_skipn.
  split; [lia |]. split; [lia |]. split; [lia |].
  split; [apply firstn_count_prefix; exact C1 |].
  split; [apply firstn_count_prefix; exact C2 | lia].
Qed.

Lemma findall_from_in r s : forall skip prev m,
  In m (findall_from r skip prev s) ->
  exists prev' pre suf n,
    s = pre ++ suf /\ match_len r prev' suf = Some (S n) /\ m = firstn (S n) suf.
Proof.
  induction s as [|c s' IH]; intros skip prev m Hin; [destruct Hin |].
  cbn [findall_from] in Hin.
  assert (Hrec : forall k pv, In m (findall_from r k pv s') ->
                              exists prev' pre suf n,
                                c :: s' = pre ++ suf
                                /\ match_len r prev' suf = Some (S n)
                                /\ m = firstn (S n) suf).
  { intros k pv H. destruct (IH k pv m H) as (prev' & pre & suf & n & E & Hm & Em).
    exists prev', (c :: pre), suf, n. rewrite E. tauto. }
  destruct skip as [|k]; [| exact (Hrec _ _ Hin)].
  destruct (match_len r prev (c :: s')) as [[|n]|] eqn:Em;
    try exact (Hrec _ _ Hin).
  destruct Hin as [<- | Hin]; [| exact (Hrec _ _ Hin)].
  exists prev, [], (c :: s'), n. tauto.
Qed.

Lemma iban_char_not_space c : is_iban_char c = true -> is_space c = false.
Proof.
  unfold is_iban_char, is_upper, is_digit, in_range.
  change (ch "A") with 65. change (ch "Z") with 90.
  rewrite orb_true_iff, !andb_true_iff, !N.leb_le. intros H.
  apply not_space_between. lia.
Qed.

Lemma upper_iban_char c : is_upper c = true -> is_iban_char c = true.
Proof. unfold is_iban_char. intros ->. apply orb_true_r. Qed.

Lemma tight_of_no_blank v :
  v <> [] -> forallb (fun c => negb (is_space c)) v = true -> tight v = true.
Proof.
  intros Hne H. unfold tight. apply andb_true_iff. split.
  - destruct v as [|a u]; [congruence |]. simpl in H.
    apply andb_true_iff in H. tauto.
  - rewrite <- forallb_rev in H. destruct (rev v) as [|b u] eqn:E.
    + apply (f_equal (@rev N)) in E. rewrite rev_involutive in E. simpl in E.
      congruence.
    + simpl in H. apply andb_true_iff in H. tauto.
Qed.

(** The matches of the IBAN pattern. *)
Lemma iban_shape s m :
  In m (re_findall re_iban s) ->
  (15 <= length m <= 34)%nat
  /\ forallb is_upper (firstn 2 m) = true
  /\ forallb is_iban_char m = true.
Proof.
  intros Hin. apply findall_from_in in Hin.
  destruct Hin as (prev & pre & suf & n & _ & Hm & ->).
  apply match_len_two_classes in Hm.
  destruct Hm as (k1 & k2 & En & L1 & L2 & F1 & F2 & Hlen).
  assert (k1 = 2%nat) by lia. subst k1. rewrite En.
  assert (Esplit : firstn (2 + k2) suf = firstn 2 suf ++ firstn k2 (skipn 2 suf)).
  { rewrite <- (firstn_skipn 2 suf) at 1.
    rewrite firstn_app, length_firstn.
    replace (Nat.min 2 (length suf)) with 2%nat by lia.
    rewrite firstn_firstn. replace (Nat.min (2 + k2) 2) with 2%nat by lia.
    replace (2 + k2 - 2)%nat with k2 by lia. reflexivity. }
  rewrite Esplit. split; [| split].
  - rewrite length_app, !length_firstn, length_skipn. lia.
  - rewrite firstn_app, length_firstn.
    replace (Nat.min 2 (length suf)) with 2%nat by lia.
    rewrite firstn_firstn. cbn [Nat.min Nat.sub firstn]. rewrite app_nil_r. exact F1.
  - rewrite forallb_app, F2, andb_true_r.
    rewrite forallb_forall in *. intros c Hc. apply upper_iban_char. auto.
Qed.

Lemma candidates_of doc k :
  default [] (od_get (extract_entities doc) k)
  = if decide (k = Kiban) then ibans_of doc else mentions_of k (entities doc).
Proof.
  rewrite extract_entities_get.
  destruct (decide (k = Kiban)); [destruct (ibans_of doc) | destruct (mentions_of _ _)];
    reflexivity.
Qed.

Lemma candidate_shape doc k v :
  In v (default [] (od_get (extract_entities doc) k)) ->
  tight v = true
  /\ (k = Kiban ->
      (15 <= length v <= 34)%nat
      /\ forallb is_upper (firstn 2 v) = true
      /\ forallb is_iban_char v = true).
Proof.
  rewrite candidates_of. destruct (decide (k = Kiban)) as [-> | Hne].
  - intros Hin. apply iban_shape in Hin. destruct Hin as (L & U & C).
    split; [| intros _; tauto].
    apply tight_of_no_blank.
    + intros ->. simpl in L. lia.
    + rewrite forallb_forall in *. intros c Hc.
      apply negb_true_iff, iban_char_not_space. auto.
  - intros Hin. split; [| congruence].
    unfold mentions_of in Hin. apply in_map_iff in Hin.
    destruct Hin as (e & <- & He). apply filter_In in He. destruct He as [_ He].
    apply bool_decide_eq_true in He. unfold entity_field in He.
    destruct (truthy (mention e)) eqn:Et; [| discriminate].
    unfold mention in *.
    destruct (strip_tight_or_empty (or_empty (mention_text e))) as [E | E];
      [rewrite E in Et; discriminate | exact E].
Qed.

(** X10. Every candidate of [extract_entities] is a text that is not empty
    and has no blank at either end; an IBAN candidate has 15 to 34
    characters, all capital letters and digits, the first two of them
    letters. *)
Theorem extract_entities_candidates doc k v :
  In v (default [] (od_get (extract_entities doc) k)) ->
  tight v = true
  /\ (k = Kiban ->
      (15 <= length v <= 34)%nat
      /\ forallb is_upper (firstn 2 v) = true
      /\ forallb is_iban_char v = true).
Proof. apply candidate_shape. Qed.

Lemma extract_entities_candidates_witness :
  In (py "DE89370400440532013000")
     (default []
        (od_get
           (extract_entities
              (Document [Entity (Some (py "Supplier_Name")) (Some (py " Acme "))]
                        (Some (py "IBAN: DE89 3704 0044 0532 0130 00"))))
           Kiban))
  /\ tight (py "DE89370400440532013000") = true
  /\ (Kiban = Kiban ->
      (15 <= length (py "DE89370400440532013000") <= 34)%nat
      /\ forallb is_upper (firstn 2 (py "DE89370400440532013000")) = true
      /\ forallb is_iban_char (py "DE89370400440532013000") = true).
Proof.
  split; [vm_compute; left; reflexivity |].
  apply (extract_entities_candidates
           (Document [Entity (Some (py "Supplier_Name")) (Some (py " Acme "))]
                     (Some (py "IBAN: DE89 3704 0044 0532 0130 00")))
           Kiban).
  vm_compute. left. reflexivity.
Defined.

(* ================================================================= *)
(** ** Joining and splitting candidates *)










(* ================================================================= *)
(** ** Saving and loading the cache *)








(* ================================================================= *)
(** ** The suggestions after a restart *)





(** ** The list of files and the page shown *)

Module ViewerFacts.
Import Viewer.

Lemma position_in_range {A} (l : list A) (i : Z) :
  (0 <= i < Z.of_nat (length l))%Z -> position l i = Returns (Z.to_nat i).
Proof.
  intros H. unfold position.
  replace ((0 <=? i)%Z && (i <? Z.of_nat (length l))%Z) with true; [reflexivity |].
  symmetry. apply andb_true_iff. split; [apply Z.leb_le | apply Z.ltb_lt]; lia.
Qed.

Lemma item_in_range {A} (l : list A) (i : Z) :
  (0 <= i < Z.of_nat (length l))%Z ->
  exists x, item l i = Returns x /\ nth_error l (Z.to_nat i) = Some x.
Proof.
  intros H. unfold item. rewrite (position_in_range l i H). cbn [bind].
  destruct (nth_error l (Z.to_nat i)) as [x |] eqn:E.
  - exists x. split; reflexivity.
  - apply nth_error_None in E. lia.
Qed.




Section Environment.
Variable opens : str -> option Z.
Variable renders : str -> Z -> bool.

Let render_current := render_current opens renders.
Let shown_ok := shown_ok opens renders.
Let failed := failed opens renders.
Let rendered := rendered opens renders.




Lemma consistent_in_range (v : viewer) :
  consistent v -> files v <> [] ->
  (0 <= idx v < Z.of_nat (length (files v)))%Z.
Proof.
  unfold consistent. destruct (files v); [congruence |]. intros (H & _) _. exact H.
Qed.



Lemma render_good (fuel : nat) (v : viewer) (path : str) :
  (0 <= idx v < Z.of_nat (length (files v)))%Z ->
  nth_error (files v) (Z.to_nat (idx v)) = Some path ->
  all_good opens renders (files v) ->
  page v = 0%Z ->
  render_current (S fuel) v
  = Some (Returns (Viewer (files v) (idx v) 0 (Pixmap path 0))).
Proof.
  intros Hi Hp Hg H0.
  change (render_current (S fuel) v) with (Viewer.render_current opens renders (S fuel) v).
  cbn [Viewer.render_current].
  destruct (files v) as [| f0 fs] eqn:Ef; [simpl in Hi; lia |].
  rewrite <- Ef in *.
  destruct (item_in_range (files v) (idx v) Hi) as (x & -> & Hx).
  rewrite Hp in Hx. injection Hx as <-.
  destruct (Hg path) as (n & -> & Hr); [eapply nth_error_In; exact Hp |].
  rewrite H0.
  replace (Z.max 0 (Z.min 0 (n - 1))) with 0%Z by lia.
  rewrite Hr. reflexivity.
Qed.

Lemma nth_error_in_range {A} (l : list A) (i : Z) :
  (0 <= i < Z.of_nat (length l))%Z -> exists x, nth_error l (Z.to_nat i) = Some x.
Proof.
  intros H. destruct (nth_error l (Z.to_nat i)) as [x |] eqn:E; [exists x; reflexivity |].
  apply nth_error_None in E. lia.
Qed.

(** Going to the file [d] places further, in a list of good files. *)
Lemma turn_good (fuel : nat) (v : viewer) (d : Z) :
  files v <> [] ->
  all_good opens renders (files v) ->
  let i := ((idx v + d) mod Z.of_nat (length (files v)))%Z in
  exists path,
    nth_error (files v) (Z.to_nat i) = Some path
    /\ render_current (S fuel) (Viewer (files v) i 0 (label v))
       = Some (Returns (Viewer (files v) i 0 (Pixmap path 0))).
Proof.
  intros Hne Hg i.
  assert (Hi : (0 <= i < Z.of_nat (length (files v)))%Z).
  { apply Z.mod_pos_bound. destruct (files v); [congruence | simpl; lia]. }
  destruct (nth_error_in_range (files v) i Hi) as (path & Hp).
  exists path. split; [exact Hp |].
  apply (render_good fuel (Viewer (files v) i 0 (label v)) path);
    cbn [files idx page]; try assumption. reflexivity.
Qed.

Lemma there_and_back (fuel : nat) (v : viewer) (d : Z) :
  consistent v -> files v <> [] ->
  all_good opens renders (files v) ->
  let n := Z.of_nat (length (files v)) in
  exists p1 p2,
    render_current (S fuel) (Viewer (files v) ((idx v + d) mod n) 0 (label v))
    = Some (Returns (Viewer (files v) ((idx v + d) mod n) 0 (Pixmap p1 0)))
    /\ render_current (S fuel)
         (Viewer (files v) (((idx v + d) mod n - d) mod n) 0 (Pixmap p1 0))
       = Some (Returns (Viewer (files v) (idx v) 0 (Pixmap p2 0)))
    /\ nth_error (files v) (Z.to_nat (idx v)) = Some p2.
Proof.
  intros Hc Hne Hg n.
  destruct (turn_good fuel v d Hne Hg) as (p1 & H1 & R1).
  exists p1.
  pose proof (consistent_in_range v Hc Hne) as Hi.
  assert (Hback : (((idx v + d) mod n - d) mod n = idx v)%Z).
  { rewrite Zminus_mod_idemp_l.
    replace (idx v + d - d)%Z with (idx v) by lia.
    apply Z.mod_small. exact Hi. }
  rewrite Hback.
  destruct (nth_error_in_range (files v) (idx v) Hi) as (p2 & H2).
  exists p2. split; [exact R1 |]. split; [| exact H2].
  apply (render_good fuel (Viewer (files v) (idx v) 0 (Pixmap p1 0)) p2);
    cbn [files idx page]; try assumption. reflexivity.
Qed.

End Environment.





(** X15 (factuser-v2.py, next_file and prev_file): in a list whose files
    all open and render their first page, the next file is the one at
    (idx + 1) mod len, the previous one the one at (idx - 1) mod len, and
    going to the next file and then to the previous one, or the other way
    round, comes back to the file the window was on, at its first page. *)
Theorem next_then_prev_returns
        (opens : str -> option Z) (renders : str -> Z -> bool)
        (v : viewer) (fuel : nat) :
  consistent v ->
  files v <> [] ->
  all_good opens renders (files v) ->
  (0 < fuel)%nat ->
  let n := Z.of_nat (length (files v)) in
  let after := ((idx v + 1) mod n)%Z in
  let before := ((idx v - 1) mod n)%Z in
  exists p q path,
    nth_error (files v) (Z.to_nat after) = Some p
    /\ nth_error (files v) (Z.to_nat before) = Some q
    /\ nth_error (files v) (Z.to_nat (idx v)) = Some path
    /\ next_file opens renders fuel v
       = Some (Returns (Viewer (files v) after 0 (Pixmap p 0)))
    /\ prev_file opens renders fuel (Viewer (files v) after 0 (Pixmap p 0))
       = Some (Returns (Viewer (files v) (idx v) 0 (Pixmap path 0)))
    /\ prev_file opens renders fuel v
       = Some (Returns (Viewer (files v) before 0 (Pixmap q 0)))
    /\ next_file opens renders fuel (Viewer (files v) before 0 (Pixmap q 0))
       = Some (Returns (Viewer (files v) (idx v) 0 (Pixmap path 0))).
Proof.
  intros Hc Hne Hg Hf n after before.
  destruct fuel as [| fuel]; [lia |].
  destruct (turn_good opens renders fuel v 1 Hne Hg) as (p & Hp & _).
  destruct (turn_good opens renders fuel v (-1) Hne Hg) as (q & Hq & _).
  destruct (there_and_back opens renders fuel v 1 Hc Hne Hg) as (p1 & p2 & A1 & A2 & A3).
  destruct (there_and_back opens renders fuel v (-1) Hc Hne Hg) as (q1 & q2 & B1 & B2 & B3).
  fold n in A1, A2, B1, B2, Hp, Hq. fold after in A1, A2, Hp.
  change (idx v + -1)%Z with (idx v - 1)%Z in B1, B2, Hq. fold before in B1, B2, Hq.
  rewrite A3 in B3. injection B3 as <-.
  assert (Hnext : forall u, files u = files v ->
            next_file opens renders (S fuel) u
            = Viewer.render_current opens renders (S fuel)
                (Viewer (files v) ((idx u + 1) mod n) 0 (label u))).
  { intros u Eu. unfold next_file. rewrite Eu. fold n.
    destruct (files v); [congruence | reflexivity]. }
  assert (Hprev : forall u, files u = files v ->
            prev_file opens renders (S fuel) u
            = Viewer.render_current opens renders (S fuel)
                (Viewer (files v) ((idx u - 1) mod n) 0 (label u))).
  { intros u Eu. unfold prev_file. rewrite Eu. fold n.
    destruct (files v); [congruence | reflexivity]. }
  assert (Ep : p1 = p).
  { pose proof (render_good opens renders fuel (Viewer (files v) after 0 (label v)) p) as R.
    cbn [files idx page] in R.
    assert (Hi : (0 <= after < n)%Z).
    { apply Z.mod_pos_bound. subst n. destruct (files v); [congruence | simpl; lia]. }
    specialize (R Hi Hp Hg eq_refl).
    congruence. }
  assert (Eq' : q1 = q).
  { pose proof (render_good opens renders fuel (Viewer (files v) before 0 (label v)) q) as R.
    cbn [files idx page] in R.
    assert (Hi : (0 <= before < n)%Z).
    { apply Z.mod_pos_bound. subst n. destruct (files v); [congruence | simpl; lia]. }
    specialize (R Hi Hq Hg eq_refl).
    congruence. }
  subst p1 q1.
  exists p, q, p2.
  split; [exact Hp |]. split; [exact Hq |]. split; [exact A3 |].
  split; [rewrite (Hnext v eq_refl); exact A1 |].
  split; [rewrite Hprev by reflexivity; cbn [idx label]; exact A2 |].
  split; [rewrite (Hprev v eq_refl); exact B1 |].
  rewrite Hnext by reflexivity. cbn [idx label].
  replace (before - -1)%Z with (before + 1)%Z in B2 by lia.
  exact B2.
Qed.

Lemma next_then_prev_returns_witness :
  let v := Viewer [py "b.pdf"; py "c.pdf"] 1 2 (Pixmap (py "c.pdf") 2) in
  exists p q path,
    nth_error (files v) (Z.to_nat ((1 + 1) mod 2)) = Some p
    /\ nth_error (files v) (Z.to_nat ((1 - 1) mod 2)) = Some q
    /\ nth_error (files v) (Z.to_nat 1) = Some path
    /\ next_file example_opens example_renders 1 v
       = Some (Returns (Viewer (files v) ((1 + 1) mod 2) 0 (Pixmap p 0)))
    /\ prev_file example_opens example_renders 1
         (Viewer (files v) ((1 + 1) mod 2) 0 (Pixmap p 0))
       = Some (Returns (Viewer (files v) 1 0 (Pixmap path 0)))
    /\ prev_file example_opens example_renders 1 v
       = Some (Returns (Viewer (files v) ((1 - 1) mod 2) 0 (Pixmap q 0)))
    /\ next_file example_opens example_renders 1
         (Viewer (files v) ((1 - 1) mod 2) 0 (Pixmap q 0))
       = Some (Returns (Viewer (files v) 1 0 (Pixmap path 0))).
Proof.
  apply (next_then_prev_returns example_opens example_renders
           (Viewer [py "b.pdf"; py "c.pdf"] 1 2 (Pixmap (py "c.pdf") 2)) 1).
  - unfold consistent. cbn [files idx page label].
    split; [cbn [length]; lia |]. split; [lia |]. eexists. split; reflexivity.
  - discriminate.
  - intros p Hp. exists 3%Z. simpl in Hp.
    destruct Hp as [<- | [<- | []]]; split; reflexivity.
  - lia.
Defined.

End ViewerFacts.

(** ** The word a click selects *)





(** ** The form of a normalised provider name *)

Lemma sub_from_chars r repl (ok : N -> bool) :
  forallb ok repl = true ->
  forall s skip prev,
    forallb ok s = true -> forallb ok (sub_from r repl skip prev s) = true.
Proof.
  intros Hr. induction s as [| c s IH]; intros skip prev Hs; [reflexivity |].
  cbn [forallb] in Hs. apply andb_true_iff in Hs. destruct Hs as (Hc & Hs).
  cbn [sub_from]. destruct skip as [| k]; [| apply IH; exact Hs].
  destruct (match_len r prev (c :: s)) as [[| n] |].
  - cbn [forallb]. rewrite Hc. apply IH. exact Hs.
  - rewrite forallb_app, Hr. apply IH. exact Hs.
  - cbn [forallb]. rewrite Hc. apply IH. exact Hs.
Qed.

Lemma length_consume prev s k :
  (k <= length s)%nat ->
  length (m_rest (consume (MState prev s []) k)) = (length s - k)%nat.
Proof.
  intros Hk. unfold consume. cbn [m_prev m_rest m_groups].
  pose proof (advance_rest k prev s) as H.
  destruct (advance k prev s) as [pv r]. cbn [snd] in H. subst r.
  cbn [m_rest]. apply length_skipn.
Qed.

(** A run of one or more characters of a class matches as far as the
    class goes. *)
Lemma match_len_plus q prev s :
  match_len (plus q) prev s
  = match count_prefix q s with O => None | S n => Some (S n) end.
Proof.
  unfold match_len, plus. cbn [exec m_rest].
  pose proof (count_prefix_le q s) as Hle.
  destruct (count_prefix q s) as [| n] eqn:E; [reflexivity |].
  change (down_to 1 (S n)) with (S n :: down_to 1 n).
  cbn [List.map head option_map].
  rewrite length_consume by exact Hle. f_equal. lia.
Qed.

Lemma sub_plus_chars q repl (ok : N -> bool) :
  forallb ok repl = true ->
  (forall c, q c = false -> ok c = true) ->
  forall s skip prev, forallb ok (sub_from (plus q) repl skip prev s) = true.
Proof.
  intros Hr Hq. induction s as [| c s IH]; intros skip prev; [reflexivity |].
  cbn [sub_from]. destruct skip as [| k]; [| apply IH].
  rewrite match_len_plus. cbn [count_prefix].
  destruct (q c) eqn:Ec.
  - rewrite forallb_app, Hr. apply IH.
  - cbn [forallb]. rewrite (Hq c Ec). apply IH.
Qed.

Lemma sub_skip r repl : forall k s prev,
  exists prev', sub_from r repl k prev s = sub_from r repl 0 prev' (skipn k s).
Proof.
  induction k as [| k IH]; intros s prev.
  - exists prev. reflexivity.
  - destruct s as [| c s]; [exists prev; reflexivity |].
    cbn [sub_from skipn]. apply IH.
Qed.

Lemma skipn_count_prefix p s : skipn (count_prefix p s) s = dropwhile p s.
Proof.
  induction s as [| c s IH]; [reflexivity |].
  cbn [count_prefix dropwhile]. destruct (p c); [exact IH | reflexivity].
Qed.

Lemma length_dropwhile p s : (length (dropwhile p s) <= length s)%nat.
Proof.
  induction s as [| c s IH]; [reflexivity |].
  cbn [dropwhile]. destruct (p c); simpl; lia.
Qed.

Lemma single_spaced_cons c s :
  (c =? 32) = false -> single_spaced s = true -> single_spaced (c :: s) = true.
Proof.
  intros Hc Hs. destruct s as [| b t]; [reflexivity |].
  change (single_spaced (c :: b :: t))
    with (negb ((c =? 32) && (b =? 32)) && single_spaced (b :: t)).
  rewrite Hc, Hs. reflexivity.
Qed.

(** Runs of blanks replaced by one blank: the text that comes out has no
    two blanks side by side, and starts as the text that goes in when this
    has no blank in front. *)
Lemma sub_blanks_single n : forall s prev,
  (length s <= n)%nat ->
  let out := sub_from (plus is_space) (py " ") 0 prev s in
  single_spaced out = true
  /\ match s with
     | [] => out = []
     | c :: _ => is_space c = false -> exists t, out = c :: t
     end.
Proof.
  induction n as [| n IH]; intros s prev Hn; cbv zeta.
  - destruct s; [split; reflexivity | simpl in Hn; lia].
  - destruct s as [| c s]; [split; reflexivity |].
    cbn [sub_from]. rewrite match_len_plus. cbn [count_prefix].
    destruct (is_space c) eqn:Ec.
    + split; [| discriminate].
      destruct (sub_skip (plus is_space) (py " ") (count_prefix is_space s) s (Some c))
        as (prev' & ->).
      rewrite skipn_count_prefix.
      pose proof (dropwhile_head is_space s) as Hh.
      pose proof (length_dropwhile is_space s) as Hl.
      destruct (IH (dropwhile is_space s) prev') as (H1 & H2).
      { simpl in Hn. lia. }
      cbv zeta in H1, H2.
      destruct (dropwhile is_space s) as [| d rest] eqn:Ed.
      * rewrite H2. reflexivity.
      * destruct (H2 Hh) as (t & Et). rewrite Et in *.
        change (py " " ++ d :: t) with (32 :: d :: t).
        change (single_spaced (32 :: d :: t))
          with (negb ((32 =? 32) && (d =? 32)) && single_spaced (d :: t)).
        rewrite H1.
        destruct (N.eqb_spec d 32) as [-> | _]; [discriminate Hh | reflexivity].
    + destruct (IH s (Some c)) as (H1 & _); [simpl in Hn; lia |].
      cbv zeta in H1.
      split; [| intros _; eexists; reflexivity].
      apply single_spaced_cons; [| exact H1].
      destruct (N.eqb_spec c 32) as [-> | _]; [discriminate Ec | reflexivity].
Qed.

Lemma dropwhile_split p s : exists a, s = a ++ dropwhile p s.
Proof.
  induction s as [| c s (a & IH)]; [exists []; reflexivity |].
  cbn [dropwhile]. destruct (p c).
  - exists (c :: a). simpl. f_equal. exact IH.
  - exists []. reflexivity.
Qed.

Lemma strip_split s : exists a b, s = a ++ strip s ++ b.
Proof.
  unfold strip, strip_by, lstrip_by, rstrip_by.
  destruct (dropwhile_split is_space s) as (a & Ea).
  destruct (dropwhile_split is_space (rev (dropwhile is_space s))) as (b & Eb).
  exists a, (rev b).
  rewrite <- rev_app_distr, <- Eb, rev_involutive. exact Ea.
Qed.

Lemma single_spaced_tail c s : single_spaced (c :: s) = true -> single_spaced s = true.
Proof.
  destruct s as [| b t]; [reflexivity |].
  change (single_spaced (c :: b :: t))
    with (negb ((c =? 32) && (b =? 32)) && single_spaced (b :: t)).
  intros H. apply andb_true_iff in H. apply H.
Qed.

Lemma single_spaced_app_r a s : single_spaced (a ++ s) = true -> single_spaced s = true.
Proof.
  induction a as [| c a IH]; [auto |].
  intros H. apply IH. exact (single_spaced_tail c _ H).
Qed.

Lemma single_spaced_app_l s : forall b, single_spaced (s ++ b) = true -> single_spaced s = true.
Proof.
  induction s as [| c s IH]; intros b H; [reflexivity |].
  destruct s as [| d t]; [reflexivity |].
  change (single_spaced ((c :: d :: t) ++ b))
    with (negb ((c =? 32) && (d =? 32)) && single_spaced ((d :: t) ++ b)) in H.
  apply andb_true_iff in H. destruct H as (H1 & H2).
  change (single_spaced (c :: d :: t))
    with (negb ((c =? 32) && (d =? 32)) && single_spaced (d :: t)).
  rewrite H1. apply (IH b). exact H2.
Qed.

(** Whatever the name, the normalised provider is made of small letters,
    digits and blanks only, has no two blanks side by side, and is empty
    or starts and ends with a character that is not a blank. *)
Lemma normalize_provider_form p :
  let s := normalize_provider p in
  forallb canonical_char s = true
  /\ single_spaced s = true
  /\ (s = [] \/ tight s = true).
Proof.
  cbv zeta. unfold normalize_provider.
  destruct (truthy p); cbn [negb]; [| repeat split; left; reflexivity].
  set (s1 := re_sub (plus (fun c => negb (is_lower_alnum c))) (py " ") _).
  set (s2 := re_sub _ (py " ") s1).
  set (s3 := re_sub (plus is_space) (py " ") s2).
  assert (H1 : forallb canonical_char s1 = true).
  { apply sub_plus_chars; [reflexivity |].
    intros c Hc. unfold canonical_char.
    apply negb_false_iff in Hc. rewrite Hc. reflexivity. }
  assert (H2 : forallb canonical_char s2 = true).
  { apply sub_from_chars; [reflexivity | exact H1]. }
  assert (H3 : forallb canonical_char s3 = true).
  { apply sub_from_chars; [reflexivity | exact H2]. }
  assert (S3 : single_spaced s3 = true).
  { apply (sub_blanks_single (length s2) s2 None). lia. }
  destruct (strip_split s3) as (a & b & E).
  split; [| split].
  - rewrite E, !forallb_app in H3.
    apply andb_true_iff in H3. destruct H3 as (_ & H3).
    apply andb_true_iff in H3. apply H3.
  - rewrite E in S3. apply single_spaced_app_r in S3.
    apply single_spaced_app_l in S3. exact S3.
  - apply strip_tight_or_empty.
Qed.

(** ** The words of a normalised provider name *)

(** *** The pattern of the legal forms *)

Lemma exec_fold_alt rs : forall r st,
  exec (fold_left Alt rs r) st = exec r st ++ flat_map (fun r' => exec r' st) rs.
Proof.
  induction rs as [| a rs IH]; intros r st; cbn [fold_left flat_map].
  - rewrite app_nil_r. reflexivity.
  - rewrite IH. cbn [exec]. rewrite <- app_assoc. reflexivity.
Qed.

Lemma exec_alts_lits ls st :
  ls <> [] ->
  exec (alts (List.map Lit ls)) st = flat_map (fun l => exec (Lit l) st) ls.
Proof.
  destruct ls as [| l ls]; [congruence |]. intros _.
  cbn [List.map alts]. rewrite exec_fold_alt. cbn [flat_map]. f_equal.
  induction ls as [| a ls IH]; [reflexivity |].
  cbn [List.map flat_map]. rewrite IH. reflexivity.
Qed.

Lemma flat_map_map {A B C} (f : A -> B) (g : B -> list C) l :
  flat_map g (List.map f l) = flat_map (fun x => g (f x)) l.
Proof.
  induction l as [| a l IH]; [reflexivity |].
  cbn [List.map flat_map]. rewrite IH. reflexivity.
Qed.

Lemma flat_map_flat_map {A B C} (f : A -> list B) (g : B -> list C) l :
  flat_map g (flat_map f l) = flat_map (fun x => flat_map g (f x)) l.
Proof.
  induction l as [| a l IH]; [reflexivity |].
  cbn [flat_map]. rewrite flat_map_app, IH. reflexivity.
Qed.

Lemma map_flat_map {A B C} (f : A -> list B) (g : B -> C) l :
  List.map g (flat_map f l) = flat_map (fun x => List.map g (f x)) l.
Proof.
  induction l as [| a l IH]; [reflexivity |].
  cbn [flat_map]. rewrite List.map_app, IH. reflexivity.
Qed.

Lemma flat_map_ext_in {A B} (f g : A -> list B) l :
  (forall x, In x l -> f x = g x) -> flat_map f l = flat_map g l.
Proof.
  induction l as [| a l IH]; intros H; [reflexivity |].
  cbn [flat_map]. rewrite (H a (or_introl eq_refl)), IH; [reflexivity |].
  intros x Hx. apply H. right. exact Hx.
Qed.

(** The texts ahead after a match of the pattern: one for every legal form
    tried, in order. *)
Lemma exec_legal_rests st :
  List.map m_rest (exec re_legal st)
  = if xorb (is_word_opt (m_prev st)) (is_word_opt (head (m_rest st)))
    then flat_map
           (fun l =>
              if is_prefix l (m_rest st)
              then let st' := consume st (length l) in
                   if xorb (is_word_opt (m_prev st')) (is_word_opt (head (m_rest st')))
                   then [m_rest st'] else []
              else [])
           legal_suffixes
    else [].
Proof.
  unfold re_legal, cat. cbn [fold_right].
  change (exec (Seq WordB ?r) st) with (flat_map (exec r) (exec WordB st)).
  cbn [exec]. destruct (xorb _ _); [| reflexivity].
  cbn [flat_map]. rewrite app_nil_r.
  rewrite exec_alts_lits by discriminate.
  rewrite flat_map_map, flat_map_flat_map, map_flat_map.
  apply flat_map_ext_in. intros l _.
  cbn [exec]. destruct (is_prefix l (m_rest st)); [| reflexivity].
  cbn [flat_map List.map m_prev m_rest]. rewrite app_nil_r.
  destruct (xorb _ _); reflexivity.
Qed.

Lemma head_map {A B} (f : A -> B) l : head (List.map f l) = option_map f (head l).
Proof. destruct l; reflexivity. Qed.

Lemma match_len_rests r prev s :
  match_len r prev s
  = option_map (fun rest => (length s - length rest)%nat)
               (head (List.map m_rest (exec r (MState prev s [])))).
Proof.
  unfold match_len. rewrite head_map. destruct (head _); reflexivity.
Qed.

Lemma alnum_is_word c : is_lower_alnum c = true -> is_word c = true.
Proof.
  unfold is_lower_alnum, is_word. intros H.
  apply orb_true_iff in H. destruct H as [H | H].
  - change (in_range (ch "a") (ch "z") c) with (in_range 97 122 c) in H.
    rewrite H. reflexivity.
  - change (in_range (ch "0") (ch "9") c) with (in_range 48 57 c) in H.
    rewrite H. rewrite !orb_true_r. reflexivity.
Qed.

Lemma alnum_not_blank c : is_lower_alnum c = true -> (c =? 32) = false.
Proof.
  unfold is_lower_alnum, in_range. intros H.
  change (ch "a") with 97 in H. change (ch "z") with 122 in H.
  change (ch "0") with 48 in H. change (ch "9") with 57 in H.
  apply N.eqb_neq. intros ->. discriminate H.
Qed.

Lemma str_eqb_cons a b l w :
  str_eqb (a :: l) (b :: w) = (a =? b) && str_eqb l w.
Proof.
  unfold str_eqb. destruct (N.eqb_spec a b) as [-> | Hne]; cbn [andb].
  - destruct (decide (l = w)) as [-> | Hlw].
    + rewrite !bool_decide_eq_true_2 by reflexivity. reflexivity.
    + rewrite !bool_decide_eq_false_2 by congruence. reflexivity.
  - rewrite bool_decide_eq_false_2 by congruence. reflexivity.
Qed.

(** A legal form tried inside a word: it fits when it is the rest of the
    word, which a blank or the end of the text follows. *)
Lemma lit_inside_word (rest : str) :
  rest = [] \/ (exists r', rest = 32 :: r') ->
  forall l w prev,
    forallb is_lower_alnum l = true ->
    forallb is_lower_alnum w = true ->
    is_word_opt prev = true ->
    (if is_prefix l (w ++ rest)
     then let '(pv, r) := advance (length l) prev (w ++ rest) in
          if xorb (is_word_opt pv) (is_word_opt (head r)) then [r] else []
     else [])
    = if str_eqb l w then [rest] else [].
Proof.
  intros Hrest. induction l as [| a l IH]; intros w prev Hl Hw Hp.
  - cbn [is_prefix length advance]. rewrite Hp.
    destruct w as [| c w].
    + cbn [Datatypes.app].
      destruct Hrest as [-> | (r' & ->)]; reflexivity.
    + cbn [Datatypes.app head forallb] in *.
      apply andb_true_iff in Hw. destruct Hw as (Hc & _).
      cbn [is_word_opt]. rewrite (alnum_is_word c Hc). reflexivity.
  - cbn [forallb] in Hl. apply andb_true_iff in Hl. destruct Hl as (Ha & Hl).
    destruct w as [| c w].
    + cbn [Datatypes.app].
      destruct Hrest as [-> | (r' & ->)]; cbn [is_prefix].
      * reflexivity.
      * rewrite (alnum_not_blank a Ha). reflexivity.
    + cbn [forallb] in Hw. apply andb_true_iff in Hw. destruct Hw as (Hc & Hw).
      cbn [Datatypes.app is_prefix length advance]. rewrite str_eqb_cons.
      destruct (a =? c); cbn [andb]; [| reflexivity].
      apply IH; try assumption. cbn [is_word_opt]. apply alnum_is_word. exact Hc.
Qed.

Lemma legal_suffixes_words :
  forallb (fun l => truthy l && forallb is_lower_alnum l) legal_suffixes = true.
Proof. reflexivity. Qed.

Lemma legal_suffix_word l :
  In l legal_suffixes -> exists a l', l = a :: l' /\ forallb is_lower_alnum (a :: l') = true.
Proof.
  intros H. pose proof legal_suffixes_words as F.
  rewrite forallb_forall in F. specialize (F l H).
  apply andb_true_iff in F. destruct F as (Ht & Ha).
  destruct l as [| a l']; [discriminate |]. exists a, l'. split; [reflexivity | exact Ha].
Qed.

Lemma head_flat_map_eqb (w rest : str) ls :
  head (flat_map (fun l => if str_eqb l w then [rest] else []) ls)
  = if existsb (str_eqb w) ls then Some rest else None.
Proof.
  induction ls as [| l ls IH]; [reflexivity |].
  cbn [flat_map existsb].
  assert (E : str_eqb w l = str_eqb l w).
  { unfold str_eqb. destruct (decide (l = w)) as [-> | H].
    - rewrite !bool_decide_eq_true_2 by reflexivity. reflexivity.
    - rewrite !bool_decide_eq_false_2 by congruence. reflexivity. }
  rewrite E. destruct (str_eqb l w); [reflexivity | exact IH].
Qed.

(** At the start of a word the pattern matches the word when it is a legal
    form, and nothing else. *)
Lemma legal_at_word_start prev w rest :
  is_word_opt prev = false ->
  alnum_word w ->
  rest = [] \/ (exists r', rest = 32 :: r') ->
  match_len re_legal prev (w ++ rest)
  = if is_legal_suffix w then Some (length w) else None.
Proof.
  intros Hp (Hne & Hw) Hrest.
  rewrite match_len_rests, exec_legal_rests. cbn [m_prev m_rest].
  destruct w as [| c w]; [congruence |].
  pose proof Hw as Hw'.
  cbn [forallb] in Hw. apply andb_true_iff in Hw. destruct Hw as (Hc & Hw).
  rewrite Hp. cbn [Datatypes.app head is_word_opt]. rewrite (alnum_is_word c Hc).
  cbn [xorb].
  rewrite (flat_map_ext_in _ (fun l => if str_eqb l (c :: w) then [rest] else [])).
  - rewrite head_flat_map_eqb. unfold is_legal_suffix.
    destruct (existsb _ _); cbn [option_map]; [| reflexivity].
    f_equal. cbn [length]. rewrite length_app. lia.
  - intros l Hl. destruct (legal_suffix_word l Hl) as (a & l' & -> & Ha).
    cbn [forallb] in Ha. apply andb_true_iff in Ha. destruct Ha as (Ha & Hl').
    pose proof (lit_inside_word rest Hrest l' w (Some c) Hl' Hw
                  (alnum_is_word c Hc)) as L.
    cbn [is_prefix]. rewrite str_eqb_cons.
    destruct (a =? c); cbn [andb]; [| reflexivity].
    unfold consume. cbn [m_prev m_rest m_groups length advance].
    destruct (is_prefix l' (w ++ rest)); [| exact L].
    destruct (advance (length l') (Some c) (w ++ rest)) as [pv r].
    cbn [m_prev m_rest]. exact L.
Qed.

Lemma legal_at_blank prev s : match_len re_legal prev (32 :: s) = None.
Proof.
  rewrite match_len_rests, exec_legal_rests. cbn [m_prev m_rest].
  destruct (xorb _ _); [| reflexivity].
  rewrite (flat_map_ext_in _ (fun _ => [])).
  - induction legal_suffixes; [reflexivity | assumption].
  - intros l Hl. destruct (legal_suffix_word l Hl) as (a & l' & -> & Ha).
    cbn [forallb] in Ha. apply andb_true_iff in Ha. destruct Ha as (Ha & _).
    cbn [is_prefix]. rewrite (alnum_not_blank a Ha). reflexivity.
Qed.

Lemma legal_inside_word c c' s :
  is_word c = true -> is_word c' = true ->
  match_len re_legal (Some c) (c' :: s) = None.
Proof.
  intros Hc Hc'. rewrite match_len_rests, exec_legal_rests. cbn [m_prev m_rest head].
  cbn [is_word_opt]. rewrite Hc, Hc'. reflexivity.
Qed.

(** *** The legal forms taken out *)

Lemma sub_skip_all r repl : forall s prev k,
  (length s <= k)%nat -> sub_from r repl k prev s = [].
Proof.
  induction s as [| c s IH]; intros prev k Hk; [reflexivity |].
  destruct k as [| k]; [simpl in Hk; lia |].
  cbn [sub_from]. apply IH. simpl in Hk. lia.
Qed.

Lemma sub_skip_app r repl : forall w prev rest,
  exists prev', sub_from r repl (length w) prev (w ++ rest)
                = sub_from r repl 0 prev' rest.
Proof.
  induction w as [| c w IH]; intros prev rest.
  - exists prev. reflexivity.
  - cbn [length Datatypes.app sub_from]. apply IH.
Qed.

Lemma sub_legal_blank repl prev s :
  sub_from re_legal repl 0 prev (32 :: s)
  = 32 :: sub_from re_legal repl 0 (Some 32) s.
Proof. cbn [sub_from]. rewrite legal_at_blank. reflexivity. Qed.

(** Inside a word nothing is replaced. *)
Lemma sub_legal_tail repl : forall w c rest,
  is_word c = true ->
  forallb is_lower_alnum w = true ->
  exists prev',
    sub_from re_legal repl 0 (Some c) (w ++ rest)
    = w ++ sub_from re_legal repl 0 prev' rest.
Proof.
  induction w as [| d w IH]; intros c rest Hc Hw.
  - exists (Some c). reflexivity.
  - cbn [forallb] in Hw. apply andb_true_iff in Hw. destruct Hw as (Hd & Hw).
    cbn [Datatypes.app sub_from].
    rewrite (legal_inside_word c d _ Hc (alnum_is_word d Hd)).
    destruct (IH d rest (alnum_is_word d Hd) Hw) as (prev' & ->).
    exists prev'. reflexivity.
Qed.

(** A word at its start: replaced by the blank when it is a legal form,
    kept otherwise. *)
Lemma sub_legal_word prev w rest :
  is_word_opt prev = false ->
  alnum_word w ->
  rest = [] \/ (exists r', rest = 32 :: r') ->
  exists prev',
    sub_from re_legal (py " ") 0 prev (w ++ rest)
    = (if is_legal_suffix w then [32] else w)
        ++ sub_from re_legal (py " ") 0 prev' rest.
Proof.
  intros Hp Hw Hrest.
  pose proof (legal_at_word_start prev w rest Hp Hw Hrest) as M.
  destruct Hw as (Hne & Hw). destruct w as [| c w]; [congruence |].
  cbn [forallb] in Hw. apply andb_true_iff in Hw. destruct Hw as (Hc & Hw).
  cbn [Datatypes.app sub_from]. cbn [Datatypes.app] in M. rewrite M.
  destruct (is_legal_suffix (c :: w)).
  - cbn [length].
    destruct (sub_skip_app re_legal (py " ") w (Some c) rest) as (prev' & ->).
    exists prev'. reflexivity.
  - destruct (sub_legal_tail (py " ") w c rest (alnum_is_word c Hc) Hw) as (prev' & ->).
    exists prev'. reflexivity.
Qed.

Lemma spaced_legal ws s :
  spaced ws s ->
  forall prev,
    is_word_opt prev = false ->
    spaced (List.filter (fun w => negb (is_legal_suffix w)) ws)
           (sub_from re_legal (py " ") 0 prev s).
Proof.
  induction 1 as [| ws s Hs IH | w Hw | w ws s Hw Hs IH]; intros prev Hp.
  - constructor.
  - rewrite sub_legal_blank. constructor. apply IH. reflexivity.
  - destruct (sub_legal_word prev w [] Hp Hw (or_introl eq_refl)) as (prev' & E).
    rewrite app_nil_r in E. rewrite E. cbn [sub_from List.filter].
    destruct (is_legal_suffix w); cbn [negb].
    + constructor. constructor.
    + rewrite app_nil_r. constructor. exact Hw.
  - destruct (sub_legal_word prev w (32 :: s) Hp Hw) as (prev' & E).
    { right. eexists. reflexivity. }
    rewrite E, sub_legal_blank. cbn [List.filter].
    destruct (is_legal_suffix w); cbn [negb].
    + constructor. constructor. apply IH. reflexivity.
    + constructor; [exact Hw |]. apply IH. reflexivity.
Qed.

(** *** Runs of blanks made one blank *)

Lemma sub_plus_prev q repl : forall s k prev prev',
  sub_from (plus q) repl k prev s = sub_from (plus q) repl k prev' s.
Proof.
  induction s as [| c s IH]; intros k prev prev'; [reflexivity |].
  cbn [sub_from]. destruct k as [| k]; [| apply IH].
  rewrite !match_len_plus.
  destruct (count_prefix q (c :: s)); f_equal; apply IH.
Qed.

Lemma sub_plus_copy q repl : forall w prev rest,
  forallb (fun c => negb (q c)) w = true ->
  sub_from (plus q) repl 0 prev (w ++ rest)
  = w ++ sub_from (plus q) repl 0 prev rest.
Proof.
  induction w as [| c w IH]; intros prev rest Hw; [reflexivity |].
  cbn [forallb] in Hw. apply andb_true_iff in Hw. destruct Hw as (Hc & Hw).
  apply negb_true_iff in Hc.
  cbn [Datatypes.app sub_from]. rewrite match_len_plus. cbn [count_prefix].
  rewrite Hc. f_equal. rewrite (sub_plus_prev q repl _ 0 (Some c) prev).
  apply IH. exact Hw.
Qed.

(** A run replaced: one blank, then the text after the run. *)
Lemma sub_plus_run q prev c s :
  q c = true ->
  sub_from (plus q) (py " ") 0 prev (c :: s)
  = 32 :: sub_from (plus q) (py " ") 0 None (dropwhile q s).
Proof.
  intros Hc. cbn [sub_from]. rewrite match_len_plus. cbn [count_prefix]. rewrite Hc.
  change (py " " ++ ?x) with (32 :: x). f_equal.
  destruct (sub_skip (plus q) (py " ") (count_prefix q s) s (Some c)) as (prev' & ->).
  rewrite skipn_count_prefix. apply sub_plus_prev.
Qed.

Lemma alnum_word_head w :
  alnum_word w -> exists c t, w = c :: t /\ is_lower_alnum c = true.
Proof.
  intros (Hne & Hw). destruct w as [| c t]; [congruence |].
  cbn [forallb] in Hw. apply andb_true_iff in Hw. exists c, t. tauto.
Qed.

Lemma spaced_blank_inv ws s : spaced ws (32 :: s) -> spaced ws s.
Proof.
  intros H. remember (32 :: s) as t eqn:Et.
  destruct H as [| ws s0 Hs | w Hw | w ws s0 Hw Hs].
  - discriminate Et.
  - injection Et as <-. exact Hs.
  - destruct (alnum_word_head _ Hw) as (c & t & -> & Hc).
    injection Et as -> _. discriminate Hc.
  - destruct (alnum_word_head _ Hw) as (c & t & -> & Hc).
    cbn [Datatypes.app] in Et. injection Et as -> _. discriminate Hc.
Qed.

Lemma spaced_dropwhile ws : forall s,
  spaced ws s -> spaced ws (dropwhile (fun c => c =? 32) s).
Proof.
  intros s H. induction H as [| ws s Hs IH | w Hw | w ws s Hw Hs IH].
  - constructor.
  - cbn [dropwhile]. rewrite N.eqb_refl. exact IH.
  - destruct (alnum_word_head _ Hw) as (c & t & -> & Hc).
    cbn [dropwhile]. rewrite (alnum_not_blank c Hc). constructor. exact Hw.
  - destruct (alnum_word_head _ Hw) as (c & t & -> & Hc).
    cbn [Datatypes.app dropwhile]. rewrite (alnum_not_blank c Hc).
    change (c :: t ++ 32 :: s) with ((c :: t) ++ 32 :: s).
    constructor; assumption.
Qed.

Lemma alnum_not_space c : is_lower_alnum c = true -> is_space c = false.
Proof.
  unfold is_lower_alnum, in_range. intros H.
  change (ch "a") with 97 in H. change (ch "z") with 122 in H.
  change (ch "0") with 48 in H. change (ch "9") with 57 in H.
  apply orb_true_iff in H. rewrite !andb_true_iff, !N.leb_le in H.
  unfold is_space, mem_chars.
  apply not_true_is_false. intros E. apply existsb_exists in E.
  destruct E as (k & Hk & Ek). apply N.eqb_eq in Ek. subst k.
  vm_compute in Hk.
  repeat (destruct Hk as [Hk | Hk]; [subst c; lia |]). exact Hk.
Qed.

Lemma spaced_skip_spaces ws : forall s,
  spaced ws s -> spaced ws (dropwhile is_space s).
Proof.
  intros s H. induction H as [| ws s Hs IH | w Hw | w ws s Hw Hs IH].
  - constructor.
  - cbn [dropwhile]. exact IH.
  - destruct (alnum_word_head _ Hw) as (c & t & -> & Hc).
    cbn [dropwhile]. rewrite (alnum_not_space c Hc). constructor. exact Hw.
  - destruct (alnum_word_head _ Hw) as (c & t & -> & Hc).
    cbn [Datatypes.app dropwhile]. rewrite (alnum_not_space c Hc).
    change (c :: t ++ 32 :: s) with ((c :: t) ++ 32 :: s).
    constructor; assumption.
Qed.

Lemma word_no_space w :
  alnum_word w -> forallb (fun c => negb (is_space c)) w = true.
Proof.
  intros (_ & Hw). apply forallb_forall. intros c Hc.
  rewrite forallb_forall in Hw. rewrite (alnum_not_space c (Hw c Hc)). reflexivity.
Qed.

Lemma spaced_squeezed n : forall ws s prev,
  (length s <= n)%nat ->
  spaced ws s ->
  spaced ws (sub_from (plus is_space) (py " ") 0 prev s).
Proof.
  induction n as [| n IH]; intros ws s prev Hn H.
  - destruct H; try constructor; simpl in Hn; try lia.
    + destruct (alnum_word_head _ H) as (c & t & -> & _). simpl in Hn. lia.
    + destruct (alnum_word_head _ H) as (c & t & -> & _). simpl in Hn. lia.
  - destruct H as [| ws s Hs | w Hw | w ws s Hw Hs].
    + constructor.
    + rewrite sub_plus_run by reflexivity. constructor.
      apply IH; [| apply spaced_skip_spaces; exact Hs].
      pose proof (length_dropwhile is_space s). simpl in Hn. lia.
    + pose proof (sub_plus_copy is_space (py " ") w prev [] (word_no_space w Hw)) as E.
      cbn [sub_from] in E. rewrite !app_nil_r in E. rewrite E.
      constructor. exact Hw.
    + rewrite (sub_plus_copy is_space (py " ") w prev _ (word_no_space w Hw)).
      rewrite sub_plus_run by reflexivity. constructor; [exact Hw |].
      apply IH; [| apply spaced_skip_spaces; exact Hs].
      pose proof (length_dropwhile is_space s).
      destruct (alnum_word_head _ Hw) as (c & t & -> & _).
      rewrite length_app in Hn. simpl in Hn. lia.
Qed.

(** *** The words of a text *)

Lemma findall_plus_prev q : forall s k prev prev',
  findall_from (plus q) k prev s = findall_from (plus q) k prev' s.
Proof.
  induction s as [| c s IH]; intros k prev prev'; [reflexivity |].
  cbn [findall_from]. destruct k as [| k]; [| apply IH].
  rewrite !match_len_plus.
  destruct (count_prefix q (c :: s)); [apply IH | f_equal; apply IH].
Qed.

Lemma findall_skip q : forall k s prev,
  findall_from (plus q) k prev s = findall_from (plus q) 0 None (skipn k s).
Proof.
  induction k as [| k IH]; intros s prev.
  - apply findall_plus_prev.
  - destruct s as [| c s]; [reflexivity |].
    cbn [findall_from skipn]. apply IH.
Qed.

Lemma findall_plus_miss q prev c s :
  q c = false ->
  findall_from (plus q) 0 prev (c :: s) = findall_from (plus q) 0 None s.
Proof.
  intros Hc. cbn [findall_from]. rewrite match_len_plus. cbn [count_prefix].
  rewrite Hc. apply findall_plus_prev.
Qed.

Lemma findall_plus_hit q prev c s :
  q c = true ->
  findall_from (plus q) 0 prev (c :: s)
  = (c :: firstn (count_prefix q s) s)
      :: findall_from (plus q) 0 None (dropwhile q s).
Proof.
  intros Hc. cbn [findall_from]. rewrite match_len_plus. cbn [count_prefix].
  rewrite Hc. cbn [firstn]. f_equal.
  rewrite findall_skip, skipn_count_prefix. reflexivity.
Qed.

Lemma findall_skip_others q : forall s prev,
  findall_from (plus q) 0 prev s
  = findall_from (plus q) 0 None (dropwhile (fun c => negb (q c)) s).
Proof.
  induction s as [| c s IH]; intros prev; [reflexivity |].
  cbn [dropwhile]. destruct (q c) eqn:Hc; cbn [negb].
  - apply findall_plus_prev.
  - rewrite findall_plus_miss by exact Hc. apply IH.
Qed.

Lemma firstn_skipn_count q s :
  s = firstn (count_prefix q s) s ++ dropwhile q s.
Proof. rewrite <- skipn_count_prefix. symmetry. apply firstn_skipn. Qed.

(** Taking the runs of other characters for blanks leaves the words of
    the text, with blanks between and around them. *)
Lemma spaced_words_of n : forall x prev prev',
  (length x <= n)%nat ->
  spaced (findall_from (plus is_lower_alnum) 0 prev' x)
         (sub_from (plus (fun c => negb (is_lower_alnum c))) (py " ") 0 prev x).
Proof.
  induction n as [| n IH]; intros x prev prev' Hn.
  - destruct x; [constructor | simpl in Hn; lia].
  - destruct x as [| c x]; [constructor |].
    assert (Hgap : forall d r pv pv',
               (length (d :: r) <= S n)%nat -> is_lower_alnum d = false ->
               exists y,
                 sub_from (plus (fun c => negb (is_lower_alnum c))) (py " ") 0 pv (d :: r)
                 = 32 :: y
                 /\ spaced (findall_from (plus is_lower_alnum) 0 pv' (d :: r)) y).
    { intros d r pv pv' Hl Hd. eexists. split.
      - apply sub_plus_run. rewrite Hd. reflexivity.
      - rewrite findall_plus_miss by exact Hd.
        rewrite findall_skip_others. apply IH.
        pose proof (length_dropwhile (fun c => negb (is_lower_alnum c)) r).
        simpl in Hl. lia. }
    destruct (is_lower_alnum c) eqn:Hc.
    + rewrite findall_plus_hit by exact Hc.
      set (w := c :: firstn (count_prefix is_lower_alnum x) x).
      assert (Hw : alnum_word w).
      { split; [discriminate |]. subst w. cbn [forallb]. rewrite Hc.
        apply firstn_count_prefix. lia. }
      assert (Ex : c :: x = w ++ dropwhile is_lower_alnum x).
      { subst w. cbn [Datatypes.app]. f_equal. apply firstn_skipn_count. }
      rewrite Ex.
      rewrite sub_plus_copy.
      2:{ destruct Hw as (_ & Hw). apply forallb_forall. intros a Ha.
          rewrite forallb_forall in Hw. rewrite (Hw a Ha). reflexivity. }
      pose proof (dropwhile_head is_lower_alnum x) as Hh.
      pose proof (length_dropwhile is_lower_alnum x) as Hl.
      destruct (dropwhile is_lower_alnum x) as [| d r].
      * cbn [sub_from findall_from]. rewrite app_nil_r. constructor. exact Hw.
      * destruct (Hgap d r prev None) as (y & -> & Hy); [simpl in *; lia | exact Hh |].
        constructor; assumption.
    + destruct (Hgap c x prev prev' Hn Hc) as (y & -> & Hy).
      constructor. exact Hy.
Qed.

Lemma spaced_words ws s : spaced ws s -> Forall alnum_word ws.
Proof.
  induction 1 as [| ws s Hs IH | w Hw | w ws s Hw Hs IH].
  - constructor.
  - exact IH.
  - constructor; [exact Hw | constructor].
  - constructor; assumption.
Qed.

Lemma spaced_nil_inv ws : spaced ws [] -> ws = [].
Proof.
  intros H. remember [] as s eqn:Es.
  destruct H as [| ws s0 Hs | w Hw | w ws s0 Hw Hs].
  - reflexivity.
  - discriminate.
  - destruct Hw as (Hne & _). congruence.
  - destruct w; discriminate.
Qed.

Lemma spaced_head ws d s :
  spaced ws (d :: s) -> d = 32 \/ is_lower_alnum d = true.
Proof.
  intros H. remember (d :: s) as t eqn:Et.
  destruct H as [| ws s0 Hs | w Hw | w ws s0 Hw Hs].
  - discriminate.
  - injection Et as -> _. left. reflexivity.
  - destruct (alnum_word_head _ Hw) as (c & t & -> & Hc).
    injection Et as -> _. right. exact Hc.
  - destruct (alnum_word_head _ Hw) as (c & t & -> & Hc).
    cbn [Datatypes.app] in Et. injection Et as -> _. right. exact Hc.
Qed.

Lemma count_prefix_word q w rest :
  forallb q w = true ->
  match rest with [] => True | c :: _ => q c = false end ->
  count_prefix q (w ++ rest) = length w.
Proof.
  intros Hw Hr. induction w as [| c w IH].
  - destruct rest as [| d r]; [reflexivity |]. cbn [Datatypes.app count_prefix].
    rewrite Hr. reflexivity.
  - cbn [forallb] in Hw. apply andb_true_iff in Hw. destruct Hw as (Hc & Hw).
    cbn [Datatypes.app count_prefix length]. rewrite Hc. f_equal. apply IH. exact Hw.
Qed.

(** The words of a spaced text are its runs of letters and digits. *)
Lemma spaced_findall ws s :
  spaced ws s -> forall prev, findall_from (plus is_lower_alnum) 0 prev s = ws.
Proof.
  induction 1 as [| ws s Hs IH | w Hw | w ws s Hw Hs IH]; intros prev.
  - reflexivity.
  - rewrite findall_plus_miss by reflexivity. apply IH.
  - destruct (alnum_word_head _ Hw) as (c & t & -> & Hc).
    destruct Hw as (_ & Hw). cbn [forallb] in Hw. rewrite Hc in Hw. cbn [andb] in Hw.
    rewrite findall_plus_hit by exact Hc.
    pose proof (count_prefix_word is_lower_alnum t [] Hw I) as E.
    rewrite app_nil_r in E. rewrite E, firstn_all.
    rewrite dropwhile_all by exact Hw. reflexivity.
  - destruct (alnum_word_head _ Hw) as (c & t & -> & Hc).
    destruct Hw as (_ & Hw). cbn [forallb] in Hw. rewrite Hc in Hw. cbn [andb] in Hw.
    cbn [Datatypes.app]. rewrite findall_plus_hit by exact Hc.
    rewrite (count_prefix_word is_lower_alnum t (32 :: s) Hw eq_refl).
    rewrite firstn_app, firstn_all, Nat.sub_diag. cbn [firstn]. rewrite app_nil_r.
    rewrite dropwhile_app_all by exact Hw.
    cbn [dropwhile]. change (is_lower_alnum 32) with false. cbv iota.
    rewrite findall_plus_miss by reflexivity. f_equal. apply IH.
Qed.

Lemma spaced_join ws : Forall alnum_word ws -> spaced ws (join (py " ") ws).
Proof.
  induction 1 as [| w ws Hw Hws IH]; [constructor |].
  destruct ws as [| w2 ws].
  - cbn [join]. constructor. exact Hw.
  - change (join (py " ") (w :: w2 :: ws)) with (w ++ 32 :: join (py " ") (w2 :: ws)).
    constructor; assumption.
Qed.

(** *** Stripping a spaced text *)

Lemma rstrip_by_app p a b :
  rstrip_by p (a ++ b)
  = match rstrip_by p b with
    | [] => rstrip_by p a
    | r => a ++ r
    end.
Proof.
  unfold rstrip_by. rewrite rev_app_distr.
  destruct (dropwhile p (rev b)) as [| d t] eqn:E.
  - rewrite dropwhile_app_all by (apply dropwhile_nil_all; exact E). reflexivity.
  - rewrite dropwhile_app_keep by (rewrite E; discriminate).
    rewrite E, rev_app_distr, rev_involutive.
    destruct (rev (d :: t)) eqn:Er; [| reflexivity].
    apply (f_equal (@length N)) in Er. rewrite length_rev in Er. discriminate Er.
Qed.

Lemma rstrip_word w : alnum_word w -> rstrip_by is_space w = w.
Proof.
  intros (Hne & Hw). unfold rstrip_by.
  destruct (rev w) as [| c t] eqn:E.
  - apply (f_equal (@rev N)) in E. rewrite rev_involutive in E. simpl in E. congruence.
  - assert (Hc : is_lower_alnum c = true).
    { rewrite forallb_forall in Hw. apply Hw. apply in_rev. rewrite E. left. reflexivity. }
    cbn [dropwhile]. rewrite (alnum_not_space c Hc).
    rewrite <- E. apply rev_involutive.
Qed.

Lemma spaced_rstrip ws s : spaced ws s -> spaced ws (rstrip_by is_space s).
Proof.
  induction 1 as [| ws s Hs IH | w Hw | w ws s Hw Hs IH].
  - constructor.
  - change (32 :: s) with ([32] ++ s). rewrite rstrip_by_app.
    destruct (rstrip_by is_space s) as [| d t] eqn:E.
    + exact IH.
    + constructor. exact IH.
  - rewrite rstrip_word by exact Hw. constructor. exact Hw.
  - rewrite rstrip_by_app.
    change (32 :: s) with ([32] ++ s). rewrite rstrip_by_app.
    destruct (rstrip_by is_space s) as [| d t] eqn:E.
    + change (rstrip_by is_space [32]) with (@nil N).
      rewrite rstrip_word by exact Hw.
      rewrite (spaced_nil_inv ws IH). constructor. exact Hw.
    + cbn [Datatypes.app]. constructor; assumption.
Qed.

Lemma spaced_strip ws s : spaced ws s -> spaced ws (strip s).
Proof.
  intros H. unfold strip, strip_by, lstrip_by.
  apply spaced_rstrip, spaced_skip_spaces. exact H.
Qed.

Lemma tight_cons_inv c s : tight (c :: s) = true -> is_space c = false.
Proof.
  unfold tight. intros H. apply andb_true_iff in H. destruct H as (H & _).
  apply negb_true_iff in H. exact H.
Qed.

Lemma tight_app_blank w s :
  tight (w ++ 32 :: s) = true ->
  exists d s', s = d :: s'
               /\ match rev s with [] => false | b :: _ => negb (is_space b) end = true.
Proof.
  unfold tight. intros H. apply andb_true_iff in H. destruct H as (_ & H).
  rewrite rev_app_distr in H. cbn [rev] in H. rewrite <- app_assoc in H.
  destruct s as [| d s'].
  - cbn [rev Datatypes.app] in H. discriminate H.
  - exists d, s'. split; [reflexivity |].
    destruct (rev (d :: s')) as [| b t] eqn:E.
    + apply (f_equal (@length N)) in E. rewrite length_rev in E. discriminate E.
    + exact H.
Qed.

(** A spaced text with single blanks and none at its ends is the words
    joined by a blank. *)
Lemma spaced_canonical ws o :
  spaced ws o ->
  single_spaced o = true ->
  o = [] \/ tight o = true ->
  o = join (py " ") ws.
Proof.
  induction 1 as [| ws s Hs IH | w Hw | w ws s Hw Hs IH]; intros Hsp Ht.
  - reflexivity.
  - destruct Ht as [Ht | Ht]; [discriminate |].
    apply tight_cons_inv in Ht. discriminate Ht.
  - reflexivity.
  - destruct Ht as [Ht | Ht]; [destruct w; discriminate |].
    destruct (tight_app_blank w s Ht) as (d & s' & -> & Hend).
    pose proof (single_spaced_app_r w _ Hsp) as Hsp'.
    change (single_spaced (32 :: d :: s'))
      with (negb ((32 =? 32) && (d =? 32)) && single_spaced (d :: s')) in Hsp'.
    apply andb_true_iff in Hsp'. destruct Hsp' as (Hd & Hsp').
    cbn [N.eqb Pos.eqb andb] in Hd. apply negb_true_iff in Hd.
    assert (Hd' : is_space d = false).
    { destruct (spaced_head _ _ _ Hs) as [-> | Ha]; [discriminate Hd |].
      apply alnum_not_space. exact Ha. }
    assert (E : d :: s' = join (py " ") ws).
    { apply IH; [exact Hsp' |]. right. unfold tight. rewrite Hd', Hend. reflexivity. }
    destruct ws as [| w2 ws]; [discriminate E |].
    change (join (py " ") (w :: w2 :: ws)) with (w ++ 32 :: join (py " ") (w2 :: ws)).
    rewrite <- E. reflexivity.
Qed.

(** *** The normalised name *)

Lemma normalize_provider_spaced p :
  spaced (provider_words p) (normalize_provider p).
Proof.
  unfold normalize_provider, provider_words.
  destruct p as [| c p]; [constructor |].
  cbn [truthy negb].
  set (x := _strip_accents (strip (lower (c :: p)))).
  apply spaced_strip.
  apply (spaced_squeezed (length (re_sub re_legal (py " ")
           (re_sub (plus (fun c => negb (is_lower_alnum c))) (py " ") x)))); [reflexivity |].
  apply spaced_legal; [| reflexivity].
  apply (spaced_words_of (length x)). reflexivity.
Qed.

Lemma normalize_provider_join p :
  normalize_provider p = join (py " ") (provider_words p).
Proof.
  destruct (normalize_provider_form p) as (_ & Hs & Ht).
  apply spaced_canonical; [apply normalize_provider_spaced | exact Hs | exact Ht].
Qed.

Lemma canonical_lower c : canonical_char c = true -> lower_char c = c.
Proof.
  unfold canonical_char, is_lower_alnum, lower_char, in_range.
  change (ch "a") with 97. change (ch "z") with 122.
  change (ch "0") with 48. change (ch "9") with 57.
  intros H.
  destruct ((65 <=? c) && (c <=? 90)) eqn:E1.
  { apply andb_true_iff in E1. rewrite !N.leb_le in E1.
    rewrite !orb_true_iff, !andb_true_iff, !N.leb_le, N.eqb_eq in H. lia. }
  destruct ((192 <=? c) && (c <=? 222)) eqn:E2; cbn [andb]; [| reflexivity].
  apply andb_true_iff in E2. rewrite !N.leb_le in E2.
  rewrite !orb_true_iff, !andb_true_iff, !N.leb_le, N.eqb_eq in H. lia.
Qed.

Lemma canonical_ascii c : canonical_char c = true -> is_ascii c = true.
Proof.
  unfold canonical_char, is_lower_alnum, is_ascii, in_range.
  change (ch "a") with 97. change (ch "z") with 122.
  change (ch "0") with 48. change (ch "9") with 57.
  rewrite !orb_true_iff, !andb_true_iff, !N.leb_le, N.eqb_eq, N.ltb_lt. lia.
Qed.

Lemma filter_filter_same {A} (f : A -> bool) l :
  List.filter f (List.filter f l) = List.filter f l.
Proof.
  induction l as [| a l IH]; [reflexivity |].
  cbn [List.filter]. destruct (f a) eqn:E; [| exact IH].
  cbn [List.filter]. rewrite E, IH. reflexivity.
Qed.

(** A normalised name is its own words. *)
Lemma provider_words_fixed p :
  provider_words (normalize_provider p) = provider_words p.
Proof.
  destruct (normalize_provider_form p) as (Hc & _ & Ht).
  pose proof (normalize_provider_spaced p) as Hs.
  set (o := normalize_provider p) in *.
  unfold provider_words at 1.
  assert (El : lower o = o).
  { unfold lower. rewrite <- (map_id o) at 2. apply map_ext_in. intros c Hin.
    rewrite forallb_forall in Hc. apply canonical_lower, Hc, Hin. }
  assert (Est : strip o = o).
  { destruct Ht as [-> | Ht]; [reflexivity | apply strip_tight; exact Ht]. }
  assert (Ea : _strip_accents o = o).
  { apply strip_accents_ascii. apply forallb_forall. intros c Hin.
    rewrite forallb_forall in Hc. apply canonical_ascii, Hc, Hin. }
  rewrite El, Est, Ea. unfold re_findall.
  rewrite (spaced_findall _ _ Hs None).
  unfold provider_words. apply filter_filter_same.
Qed.

(** X17 (factuser-v2.py, normalize_provider): the normalised provider is
    made of the words of the name, joined by single blanks. The words are
    the runs of small letters and digits of the name once it is put in
    lower case, stripped and freed of the accents of the table; a word that
    is one of the sixteen legal forms (gmbh, ug, ..., spa) is left out, a
    word that only contains one is kept. *)
Theorem normalize_provider_words p :
  normalize_provider p = join (py " ") (provider_words p)
  /\ Forall alnum_word (provider_words p)
  /\ Forall (fun w => is_legal_suffix w = false) (provider_words p).
Proof.
  split; [apply normalize_provider_join |].
  split; [exact (spaced_words _ _ (normalize_provider_spaced p)) |].
  apply List.Forall_forall. intros w Hw. unfold provider_words in Hw.
  apply filter_In in Hw. destruct Hw as (_ & Hw).
  apply negb_true_iff in Hw. exact Hw.
Qed.

(** X18 (factuser-v2.py, normalize_provider): normalising a normalised
    provider changes nothing. *)
Theorem normalize_provider_idempotent p :
  normalize_provider (normalize_provider p) = normalize_provider p.
Proof.
  rewrite (normalize_provider_join (normalize_provider p)).
  rewrite provider_words_fixed. symmetry. apply normalize_provider_join.
Qed.

(** ** The completer lists *)













Section Enumeration.
Variable set_order : gset str -> list str.
Variable keys_order : gmap str nat -> list str.
Hypothesis set_order_lists : forall s, Permutation (set_order s) (elements s).
Hypothesis keys_order_lists : forall m, Permutation (keys_order m) (elements (dom m)).





End Enumeration.

